(** * pysisso: the SISSO report parser and descriptor decoder

    A shallow embedding of [pysisso/outputs.py].  Python strings are lists
    of characters, Python exceptions are the left summand of an error
    monad, floating-point columns are columns of real numbers. *)

From Stdlib Require Import Ascii String Bool Arith ZArith QArith Lia.
From Stdlib Require Import Reals Lra.
From Stdlib Require Import List.
Import ListNotations.
Close Scope Q_scope.
Local Open Scope list_scope.

Set Implicit Arguments.

(* ================================================================== *)
(** * Python values used by the parser *)
(* ================================================================== *)

(** A Python [str]: the sequence of its characters. *)
Definition str := list ascii.

(** A string literal of the source. *)
Definition L (s : string) : str := list_ascii_of_string s.

Definition str_eqb (a b : str) : bool :=
  if list_eq_dec ascii_dec a b then true else false.

(** The messages of the [ValueError]s raised by the module (and by the
    builtins [int] and [float] on a malformed literal). *)
Inductive message : Type :=
| MsgStartEnd (replaced_string : str)   (* '%s should start and end with "#"' *)
| MsgDescriptorNotFound                 (* "Descriptor not found" *)
| MsgUnfinished                         (* "SISSO.out should end with 'Have a nave day !'" *)
| MsgInvalidInt (literal : str)         (* int() on a malformed literal *)
| MsgInvalidFloat (literal : str).      (* float() on a malformed literal *)

(** The exceptions that can leave the functions modelled here. *)
Inductive exn : Type :=
| ValueError (m : message)
| IndexError            (* list or string index out of range *)
| KeyError (key : str)  (* column missing from the table *)
| TypeError             (* subscripting None *)
| StopIteration         (* next() on an exhausted file *)
| NotModelled.          (* eval or numpy outside the fragment modelled here *)

(** Computations that return or raise. *)
Definition exc (A : Type) : Type := (exn + A)%type.
Definition ret {A} (a : A) : exc A := inr a.
Definition raise {A} (e : exn) : exc A := inl e.
Definition bind {A B} (c : exc A) (k : A -> exc B) : exc B :=
  match c with
  | inl e => inl e
  | inr a => k a
  end.

(** [c] leaves by the exception [e]. *)
Definition raises {A} (c : exc A) (e : exn) : Prop := c = inl e.

(** [c] does not leave by the error of the unfinished run. *)
Definition never_unfinished {A} (c : exc A) : Prop :=
  ~ raises c (ValueError MsgUnfinished).

Declare Scope exc_scope.
Delimit Scope exc_scope with exc.
Notation "x <- c ;; k" := (bind c (fun x => k))
  (at level 61, c at next level, right associativity) : exc_scope.
Notation "' p <- c ;; k" := (bind c (fun x => match x with p => k end))
  (at level 61, p pattern, c at next level, right associativity) : exc_scope.
Open Scope exc_scope.

(** [for x in l: body], the loop state threaded through, stopping at the
    first exception. *)
Fixpoint foldM {A S} (body : S -> A -> exc S) (l : list A) (s : S) : exc S :=
  match l with
  | [] => ret s
  | x :: l' => s' <- body s x ;; foldM body l' s'
  end.

(** [[f(x) for x in l]]. *)
Fixpoint mapM {A B} (f : A -> exc B) (l : list A) : exc (list B) :=
  match l with
  | [] => ret []
  | x :: l' => y <- f x ;; ys <- mapM f l' ;; ret (y :: ys)
  end.

(* ------------------------------------------------------------------ *)
(** ** Sequence indexing *)

(** [l[i]] for [i >= 0]. *)
Definition index {A} (l : list A) (i : nat) : exc A :=
  match nth_error l i with
  | Some a => ret a
  | None => raise IndexError
  end.

(** [l[-1]]. *)
Definition index_last {A} (l : list A) : exc A :=
  match rev l with
  | a :: _ => ret a
  | [] => raise IndexError
  end.

(** [l[-2]]. *)
Definition index_last2 {A} (l : list A) : exc A :=
  match rev l with
  | _ :: a :: _ => ret a
  | _ => raise IndexError
  end.

(** [l[i:j]] for [0 <= i], [0 <= j]. *)
Definition slice {A} (i j : nat) (l : list A) : list A :=
  firstn (j - i) (skipn i l).

(** [l[1:]]. *)
Definition slice_from1 {A} (l : list A) : list A := skipn 1 l.

(** [l[:-1]]. *)
Definition slice_to_last {A} (l : list A) : list A := removelast l.

(** [l[1:-1]]. *)
Definition slice_1_last {A} (l : list A) : list A := removelast (skipn 1 l).

(* ------------------------------------------------------------------ *)
(** ** [str] methods *)

(** [s.startswith(p)]. *)
Fixpoint startswith (p s : str) : bool :=
  match p, s with
  | [], _ => true
  | a :: p', b :: s' => Ascii.eqb a b && startswith p' s'
  | _ :: _, [] => false
  end.

(** [p in s] for strings. *)
Fixpoint contains (p s : str) : bool :=
  startswith p s ||
  match s with
  | [] => false
  | _ :: s' => contains p s'
  end.

(** The scan of [str.replace]: the occurrences of [old] are replaced from
    left to right and do not overlap; [skip] counts the characters of the
    occurrence just replaced that are still to be passed. *)
Fixpoint replace_from (old new : str) (skip : nat) (s : str) : str :=
  match s with
  | [] => []
  | c :: s' =>
      match skip with
      | S k => replace_from old new k s'
      | O =>
          if startswith old s
          then new ++ replace_from old new (length old - 1) s'
          else c :: replace_from old new 0 s'
      end
  end.

(** [s.replace(old, new)]. *)
Definition replace (old new s : str) : str :=
  match old with
  | [] => new ++ flat_map (fun c => c :: new) s
  | _ :: _ => replace_from old new 0 s
  end.

(** Python's [str.isspace] on the characters below 256. *)
Definition isspace (c : ascii) : bool :=
  let n := nat_of_ascii c in
  ((9 <=? n) && (n <=? 13)) || ((28 <=? n) && (n <=? 32))
  || (n =? 133) || (n =? 160).

(** [s.split()]: the maximal runs of characters that are not white space;
    [cur] is the run being read, reversed. *)
Fixpoint split_ws_from (cur : str) (s : str) : list str :=
  match s with
  | [] => match cur with [] => [] | _ => [rev cur] end
  | c :: s' =>
      if isspace c
      then match cur with
           | [] => split_ws_from [] s'
           | _ => rev cur :: split_ws_from [] s'
           end
      else split_ws_from (c :: cur) s'
  end.

Definition split_ws (s : str) : list str := split_ws_from [] s.

(** [s.split(sep)] for a separator of one character. *)
Fixpoint split_from (sep : ascii) (cur : str) (s : str) : list str :=
  match s with
  | [] => [rev cur]
  | c :: s' =>
      if Ascii.eqb c sep
      then rev cur :: split_from sep [] s'
      else split_from sep (c :: cur) s'
  end.

Definition split (sep : ascii) (s : str) : list str := split_from sep [] s.

Fixpoint lstrip (s : str) : str :=
  match s with
  | c :: s' => if isspace c then lstrip s' else s
  | [] => []
  end.

(** [s.strip()]. *)
Definition strip (s : str) : str := rev (lstrip (rev (lstrip s))).

Definition newline : ascii := ascii_of_nat 10.
Definition carriage_return : ascii := ascii_of_nat 13.
Definition null : ascii := ascii_of_nat 0.

(** The lines of a text file as its iterator yields them, every line with
    its line end. *)
Fixpoint lines_from (cur : str) (s : str) : list str :=
  match s with
  | [] => match cur with [] => [] | _ => [rev cur] end
  | c :: s' =>
      if Ascii.eqb c newline
      then rev (c :: cur) :: lines_from [] s'
      else lines_from (c :: cur) s'
  end.

Definition file_lines (s : str) : list str := lines_from [] s.

(* ------------------------------------------------------------------ *)
(** ** The builtin [int] on a string *)

Definition isdigit (c : ascii) : bool :=
  let n := nat_of_ascii c in (48 <=? n) && (n <=? 57).

Definition digit_value (c : ascii) : Z := Z.of_nat (nat_of_ascii c - 48).

(** Digits with single underscores between them; [prev_digit] tells
    whether the character before was a digit. *)
Fixpoint int_digits (acc : Z) (prev_digit : bool) (s : str) : option Z :=
  match s with
  | [] => if prev_digit then Some acc else None
  | c :: s' =>
      if isdigit c then int_digits (10 * acc + digit_value c) true s'
      else if Ascii.eqb c "_" then
             if prev_digit then int_digits acc false s' else None
           else None
  end.

(** The white space that [int] and [float] pass around a literal: the
    characters 9 to 13 and the blank, and, above 127, those of
    [str.isspace]; the separators 28 to 31 are white space for
    [str.strip] and not for the two builtins. *)
Definition isspace_number (c : ascii) : bool :=
  let n := nat_of_ascii c in
  ((9 <=? n) && (n <=? 13)) || (n =? 32) || (n =? 133) || (n =? 160).

Fixpoint lstrip_number (s : str) : str :=
  match s with
  | c :: s' => if isspace_number c then lstrip_number s' else s
  | [] => []
  end.

Definition strip_number (s : str) : str :=
  rev (lstrip_number (rev (lstrip_number s))).

(** [int(s)]: white space around, an optional sign, decimal digits. *)
Definition int (s : str) : exc Z :=
  let body := strip_number s in
  let r :=
    match body with
    | "-"%char :: d => option_map Z.opp (int_digits 0 false d)
    | "+"%char :: d => int_digits 0 false d
    | d => int_digits 0 false d
    end in
  match r with
  | Some z => ret z
  | None => raise (ValueError (MsgInvalidInt s))
  end.

(** A Python object that is a string or an integer, for lists whose
    annotation and content may differ. *)
Inductive pyobj : Type :=
| PyStr (s : str)
| PyInt (z : Z).

(* ================================================================== *)
(** * [class SISSOVersion] *)
(* ================================================================== *)

Module SISSOVersion.

Record t : Type := Build {
  header_string : str;
  version : list pyobj
}.

(** [SISSOVersion.from_string]. *)
Definition from_string (string : str) : exc t :=
  first <- index (split "," string) 0 ;;
  let version_sp := split "." first in
  ret {| header_string := strip string;
         version := map PyStr (slice_from1 version_sp) |}.

(** The version list as the data model words it: the components after
    the first, as integers. *)
Definition spec_version (string : str) : exc (list pyobj) :=
  first <- index (split "," string) 0 ;;
  components <- mapM int (slice_from1 (split "." first)) ;;
  ret (map PyInt components).

End SISSOVersion.

(* ================================================================== *)
(** * [scd]: the standard Cauchy distribution *)
(* ================================================================== *)

Open Scope R_scope.

(** [return 1.0 / (np.pi * (1.0 + x * x))]. *)
Definition scd (x : R) : R := 1 / (PI * (1 + x * x)).

Close Scope R_scope.

(* ================================================================== *)
(** * The expressions [eval] meets *)
(* ================================================================== *)

(** The decoded string is handed to Python's [eval].  What follows models
    the fragment of Python's expression language that decoded strings are
    written in: names, integer and string literals, attribute access,
    calls with one argument, subscripts, unary minus and plus, and the
    binary operators [+ - * / **] with Python's precedence and
    associativity.  Text outside the fragment gives [NotModelled]. *)

Module Py.

Inductive token : Type :=
| TName (s : str)
| TNum (z : Z)
| TStr (s : str)
| TLPar | TRPar | TLBrack | TRBrack
| TPlus | TMinus | TStar | TSlash | TPow | TDot.

Definition isidstart (c : ascii) : bool :=
  let n := nat_of_ascii c in
  ((65 <=? n) && (n <=? 90)) || ((97 <=? n) && (n <=? 122)) || (n =? 95).

Definition isidchar (c : ascii) : bool := isidstart c || isdigit c.

(** The state of the tokenizer between two characters. *)
Inductive lex_mode : Type :=
| LIdle
| LName (acc : str)
| LNum (acc : Z)
| LStr (acc : str)
| LStar.

(** A character met outside any token. *)
Definition lex_idle (c : ascii) : option (lex_mode * list token) :=
  if Ascii.eqb c "(" then Some (LIdle, [TLPar])
  else if Ascii.eqb c ")" then Some (LIdle, [TRPar])
  else if Ascii.eqb c "[" then Some (LIdle, [TLBrack])
  else if Ascii.eqb c "]" then Some (LIdle, [TRBrack])
  else if Ascii.eqb c "+" then Some (LIdle, [TPlus])
  else if Ascii.eqb c "-" then Some (LIdle, [TMinus])
  else if Ascii.eqb c "/" then Some (LIdle, [TSlash])
  else if Ascii.eqb c "." then Some (LIdle, [TDot])
  else if Ascii.eqb c "*" then Some (LStar, [])
  else if Ascii.eqb c "'" then Some (LStr [], [])
  else if isdigit c then Some (LNum (digit_value c), [])
  else if isidstart c then Some (LName [c], [])
  else None.

Definition emit (t : token) (r : option (lex_mode * list token))
  : option (lex_mode * list token) :=
  match r with
  | Some (m, ts) => Some (m, t :: ts)
  | None => None
  end.

(** One character: the new state and the tokens completed. *)
Definition lex_step (m : lex_mode) (c : ascii)
  : option (lex_mode * list token) :=
  match m with
  | LIdle => lex_idle c
  | LName acc =>
      if isidchar c then Some (LName (acc ++ [c]), [])
      else emit (TName acc) (lex_idle c)
  | LNum z =>
      if isdigit c then Some (LNum (10 * z + digit_value c), [])
      else if isidchar c || Ascii.eqb c "." then None
      else emit (TNum z) (lex_idle c)
  | LStr acc =>
      if Ascii.eqb c "'" then Some (LIdle, [TStr acc])
      else if Ascii.eqb c "\" || Ascii.eqb c newline
              || Ascii.eqb c carriage_return || Ascii.eqb c null then None
      else Some (LStr (acc ++ [c]), [])
  | LStar =>
      if Ascii.eqb c "*" then Some (LIdle, [TPow])
      else emit TStar (lex_idle c)
  end.

Definition lex_end (m : lex_mode) : option (list token) :=
  match m with
  | LIdle => Some []
  | LName acc => Some [TName acc]
  | LNum z => Some [TNum z]
  | LStr _ => None
  | LStar => Some [TStar]
  end.

Fixpoint lex_from (m : lex_mode) (s : str) : option (list token) :=
  match s with
  | [] => lex_end m
  | c :: s' =>
      match lex_step m c with
      | Some (m', ts) =>
          match lex_from m' s' with
          | Some rest => Some (ts ++ rest)
          | None => None
          end
      | None => None
      end
  end.

Definition lex (s : str) : option (list token) := lex_from LIdle s.

(** The tokenizer on the beginning of a text: the state reached and the
    tokens completed. *)
Fixpoint lex_run (m : lex_mode) (s : str) : option (lex_mode * list token) :=
  match s with
  | [] => Some (m, [])
  | c :: s' =>
      match lex_step m c with
      | Some (m', ts) =>
          match lex_run m' s' with
          | Some (m'', ts') => Some (m'', ts ++ ts')
          | None => None
          end
      | None => None
      end
  end.

(** The token that a state holds back until the next character. *)
Definition pending (m : lex_mode) : list token :=
  match m with
  | LNum z => [TNum z]
  | LStar => [TStar]
  | _ => []
  end.

Inductive binop : Type := Add | Sub | Mul | Div | Pow.

Inductive expr : Type :=
| Name (s : str)
| Num (z : Z)
| Str (s : str)
| Attr (e : expr) (name : str)
| Call (f : expr) (arg : expr)
| Subscript (e : expr) (key : expr)
| Neg (e : expr)
| Pos (e : expr)
| BinOp (op : binop) (l r : expr).

(** The nonterminals of the grammar; the [Rest] ones carry the operand
    already read.
      a_expr  ::= m_expr (("+" | "-") m_expr)*
      m_expr  ::= u_expr (("*" | "/") u_expr)*
      u_expr  ::= power | "-" u_expr | "+" u_expr
      power   ::= primary ["**" u_expr]
      primary ::= atom ("." NAME | "(" a_expr ")" | "[" a_expr "]")*
      atom    ::= NAME | NUMBER | STRING | "(" a_expr ")"            *)
Inductive nonterminal : Type :=
| NAdd | NAddRest (e : expr)
| NMul | NMulRest (e : expr)
| NUnary
| NPower
| NPrimary | NTrailers (e : expr)
| NAtom.

Definition parsed : Type := option (expr * list token).

Definition andthen (r : parsed) (k : expr -> list token -> parsed) : parsed :=
  match r with
  | Some (e, ts) => k e ts
  | None => None
  end.

Definition expect (t : token -> bool) (ts : list token)
           (k : list token -> parsed) : parsed :=
  match ts with
  | x :: ts' => if t x then k ts' else None
  | [] => None
  end.

Definition is_rpar (t : token) := match t with TRPar => true | _ => false end.
Definition is_rbrack (t : token) := match t with TRBrack => true | _ => false end.

(** Recursive descent; [fuel] bounds the depth of the calls. *)
Fixpoint parse (fuel : nat) (k : nonterminal) (ts : list token) : parsed :=
  match fuel with
  | O => None
  | S n =>
      match k with
      | NAdd => andthen (parse n NMul ts) (fun e ts' => parse n (NAddRest e) ts')
      | NAddRest e =>
          match ts with
          | TPlus :: ts' =>
              andthen (parse n NMul ts')
                      (fun r ts'' => parse n (NAddRest (BinOp Add e r)) ts'')
          | TMinus :: ts' =>
              andthen (parse n NMul ts')
                      (fun r ts'' => parse n (NAddRest (BinOp Sub e r)) ts'')
          | _ => Some (e, ts)
          end
      | NMul => andthen (parse n NUnary ts) (fun e ts' => parse n (NMulRest e) ts')
      | NMulRest e =>
          match ts with
          | TStar :: ts' =>
              andthen (parse n NUnary ts')
                      (fun r ts'' => parse n (NMulRest (BinOp Mul e r)) ts'')
          | TSlash :: ts' =>
              andthen (parse n NUnary ts')
                      (fun r ts'' => parse n (NMulRest (BinOp Div e r)) ts'')
          | _ => Some (e, ts)
          end
      | NUnary =>
          match ts with
          | TMinus :: ts' => andthen (parse n NUnary ts') (fun e r => Some (Neg e, r))
          | TPlus :: ts' => andthen (parse n NUnary ts') (fun e r => Some (Pos e, r))
          | _ => parse n NPower ts
          end
      | NPower =>
          andthen (parse n NPrimary ts)
                  (fun e ts' =>
                     match ts' with
                     | TPow :: ts'' =>
                         andthen (parse n NUnary ts'')
                                 (fun r rest => Some (BinOp Pow e r, rest))
                     | _ => Some (e, ts')
                     end)
      | NPrimary => andthen (parse n NAtom ts) (fun e ts' => parse n (NTrailers e) ts')
      | NTrailers e =>
          match ts with
          | TDot :: TName a :: ts' => parse n (NTrailers (Attr e a)) ts'
          | TDot :: _ => None
          | TLPar :: ts' =>
              andthen (parse n NAdd ts')
                      (fun a ts'' =>
                         expect is_rpar ts''
                                (fun rest => parse n (NTrailers (Call e a)) rest))
          | TLBrack :: ts' =>
              andthen (parse n NAdd ts')
                      (fun a ts'' =>
                         expect is_rbrack ts''
                                (fun rest => parse n (NTrailers (Subscript e a)) rest))
          | _ => Some (e, ts)
          end
      | NAtom =>
          match ts with
          | TName s :: ts' => Some (Name s, ts')
          | TNum z :: ts' => Some (Num z, ts')
          | TStr s :: ts' => Some (Str s, ts')
          | TLPar :: ts' =>
              andthen (parse n NAdd ts')
                      (fun e ts'' => expect is_rpar ts'' (fun rest => Some (e, rest)))
          | _ => None
          end
      end
  end.

(** With the fuel [d] or more, the parser of [k] reads the expression
    [x] at the beginning of [ts] and leaves [rest]. *)
Definition reads (k : nonterminal) (ts : list token) (x : expr)
           (rest : list token) (d : nat) : Prop :=
  forall n, d <= n -> parse n k ts = Some (x, rest).

(** The tokens that continue an expression at each level. *)
Definition no_trailer (ts : list token) : bool :=
  match ts with
  | (TDot | TLPar | TLBrack) :: _ => false
  | _ => true
  end.

Definition no_power (ts : list token) : bool :=
  match ts with
  | TPow :: _ => false
  | _ => true
  end.

Definition no_sign (ts : list token) : bool :=
  match ts with
  | (TMinus | TPlus) :: _ => false
  | _ => true
  end.

Definition no_factor (ts : list token) : bool :=
  match ts with
  | (TStar | TSlash) :: _ => false
  | _ => true
  end.

Definition no_term (ts : list token) : bool :=
  match ts with
  | (TPlus | TMinus) :: _ => false
  | _ => true
  end.

(** The whole text as one expression, with fuel linear in the number
    of tokens. *)
Definition parse_string (s : str) : option expr :=
  match lex s with
  | Some ts =>
      match parse (9 * length ts + 9) NAdd ts with
      | Some (e, []) => Some e
      | _ => None
      end
  | None => None
  end.

End Py.

(* ================================================================== *)
(** * Tables and the evaluation of expressions *)
(* ================================================================== *)

(** A [pandas.DataFrame] of floats: the length of its index and its named
    columns, each as long as the index. *)
Record DataFrame : Type := {
  index_length : nat;
  columns : list (str * list R)
}.

Definition well_formed (df : DataFrame) : Prop :=
  Forall (fun c => length (snd c) = index_length df) (columns df).

(** [len(df)]. *)
Definition len (df : DataFrame) : nat := index_length df.

(** [df[key]]. *)
Definition getitem (df : DataFrame) (key : str) : exc (list R) :=
  match find (fun c => str_eqb (fst c) key) (columns df) with
  | Some c => ret (snd c)
  | None => raise (KeyError key)
  end.

Open Scope R_scope.

(** [np.cbrt]. *)
Definition cbrt (x : R) : R :=
  if Rlt_dec x 0 then - Rpower (- x) (/ 3)
  else if Rlt_dec 0 x then Rpower x (/ 3)
  else 0.

Close Scope R_scope.

Module Evaluation.
Import Py.

(** The functions a decoded string can call. *)
Inductive func : Type :=
| Fsin | Fcos | Fexp | Flog | Fsqrt | Fcbrt | Fabs | Fscd.

Definition apply (f : func) (x : R) : R :=
  match f with
  | Fsin => sin x
  | Fcos => cos x
  | Fexp => exp x
  | Flog => ln x
  | Fsqrt => sqrt x
  | Fcbrt => cbrt x
  | Fabs => Rabs x
  | Fscd => scd x
  end.

(** The objects met while a decoded string is evaluated. *)
Inductive value : Type :=
| VFrame                  (* the local [df] *)
| VNumpy                  (* the module [np] *)
| VFun (f : func)
| VSeries (l : list R)    (* a column, or a column computed from columns *)
| VInt (z : Z)
| VStr (s : str).

Definition numpy_attr (name : str) : exc value :=
  if str_eqb name (L "sin") then ret (VFun Fsin)
  else if str_eqb name (L "cos") then ret (VFun Fcos)
  else if str_eqb name (L "exp") then ret (VFun Fexp)
  else if str_eqb name (L "log") then ret (VFun Flog)
  else if str_eqb name (L "sqrt") then ret (VFun Fsqrt)
  else if str_eqb name (L "cbrt") then ret (VFun Fcbrt)
  else if str_eqb name (L "abs") then ret (VFun Fabs)
  else raise NotModelled.

(** The names in scope in [evaluate]: its argument [df], and the
    module's [np] and [scd]. *)
Definition lookup_name (name : str) : exc value :=
  if str_eqb name (L "df") then ret VFrame
  else if str_eqb name (L "np") then ret VNumpy
  else if str_eqb name (L "scd") then ret (VFun Fscd)
  else raise NotModelled.

(** Element-wise arithmetic of two columns of one table. *)
Definition zip_with (f : R -> R -> R) (a b : list R) : list R :=
  map (fun p => f (fst p) (snd p)) (combine a b).

Definition arith (op : binop) (x y : R) : R :=
  match op with
  | Add => (x + y)%R
  | Sub => (x - y)%R
  | Mul => (x * y)%R
  | Div => (x / y)%R
  | Pow => 0%R
  end.

Definition binary (op : binop) (a b : value) : exc value :=
  match op, a, b with
  | Pow, VSeries l, VInt k => ret (VSeries (map (fun x => powerRZ x k) l))
  | Pow, _, _ => raise NotModelled
  | _, VSeries l, VSeries r => ret (VSeries (zip_with (arith op) l r))
  | _, _, _ => raise NotModelled
  end.

Fixpoint eval (df : DataFrame) (e : expr) : exc value :=
  match e with
  | Name s => lookup_name s
  | Num z => ret (VInt z)
  | Str s => ret (VStr s)
  | Attr e' name =>
      v <- eval df e' ;;
      match v with
      | VNumpy => numpy_attr name
      | _ => raise NotModelled
      end
  | Call f arg =>
      vf <- eval df f ;;
      va <- eval df arg ;;
      match vf, va with
      | VFun g, VSeries l => ret (VSeries (map (apply g) l))
      | _, _ => raise NotModelled
      end
  | Subscript e' key =>
      v <- eval df e' ;;
      k <- eval df key ;;
      match v, k with
      | VFrame, VStr s => l <- getitem df s ;; ret (VSeries l)
      | _, _ => raise NotModelled
      end
  | Neg e' =>
      v <- eval df e' ;;
      match v with
      | VSeries l => ret (VSeries (map Ropp l))
      | VInt z => ret (VInt (- z))
      | _ => raise NotModelled
      end
  | Pos e' =>
      v <- eval df e' ;;
      match v with
      | VSeries l => ret (VSeries l)
      | VInt z => ret (VInt z)
      | _ => raise NotModelled
      end
  | BinOp op l r =>
      a <- eval df l ;;
      b <- eval df r ;;
      binary op a b
  end.

(** [eval(text)] where [df] is bound. *)
Definition eval_string (df : DataFrame) (text : str) : exc value :=
  match parse_string text with
  | Some e => eval df e
  | None => raise NotModelled
  end.

End Evaluation.

(* ================================================================== *)
(** * [class SISSODescriptor] *)
(* ================================================================== *)

Module SISSODescriptor.

Definition OPERATORS_REPLACEMENT : list str :=
  [ L "exp(-"; L "exp("; L "sin("; L "cos("; L "sqrt("; L "cbrt(";
    L "log("; L "abs("; L "scd("; L ")^-1"; L ")^2"; L ")^3"; L ")^6";
    L "+"; L "-"; L "*"; L "/"; L "("; L ")" ].

Definition hash : ascii := "#"%char.

(** One entry of [features_in_string]. *)
Record fdict : Type := Fdict {
  featname : str;
  istart : nat;
  iend : nat
}.

(** The result of [_decode_function]. *)
Record decoded : Type := Decoded {
  evalstring : str;
  features_in_string : list fdict;
  inputs : list str
}.

(** The variables of the scanning loop. *)
Record scan_state : Type := Scan {
  in_feature_word : bool;
  ichar_start : option nat;
  scan_inputs : list str;
  scan_features : list fdict
}.

(** [for op in OPERATORS_REPLACEMENT:
       replaced_string = replaced_string.replace(op, "#" * len(op))]. *)
Definition replace_operators (string : str) : str :=
  fold_left (fun replaced_string op =>
               replace op (repeat hash (length op)) replaced_string)
            OPERATORS_REPLACEMENT string.

(** [enumerate(l)]. *)
Definition enumerate {A} (l : list A) : list (nat * A) :=
  combine (seq 0 (length l)) l.

(** [s[i:j]] where [i] may be [None]. *)
Definition slice_opt (i : option nat) (j : nat) (s : str) : str :=
  slice (match i with Some n => n | None => 0 end) j s.

Definition notin (x : str) (l : list str) : bool :=
  negb (existsb (str_eqb x) l).

(** The body of [for ichar, char in enumerate(replaced_string)]. *)
Definition scan_step (replaced_string : str) (st : scan_state)
           (ic : nat * ascii) : scan_state :=
  let (ichar, char) := ic in
  if in_feature_word st && Ascii.eqb char hash then
    let name := slice_opt (ichar_start st) ichar replaced_string in
    {| in_feature_word := false;
       ichar_start := ichar_start st;
       scan_inputs := if notin name (scan_inputs st)
                      then scan_inputs st ++ [name] else scan_inputs st;
       scan_features := scan_features st ++
                          [ {| featname := name;
                               istart := match ichar_start st with
                                         | Some n => n | None => 0 end;
                               iend := ichar |} ] |}
  else if negb (in_feature_word st) && negb (Ascii.eqb char hash) then
    {| in_feature_word := true;
       ichar_start := Some ichar;
       scan_inputs := scan_inputs st;
       scan_features := scan_features st |}
  else st.

Definition scan (replaced_string : str) : scan_state :=
  fold_left (scan_step replaced_string) (enumerate replaced_string)
            {| in_feature_word := false; ichar_start := None;
               scan_inputs := []; scan_features := [] |}.

(** The loop that rebuilds the string around the feature names; the
    state is [(prev_ichar, out)]. *)
Definition rebuild_step (string : str) (st : option nat * list str)
           (f : fdict) : option nat * list str :=
  let (prev_ichar, out) := st in
  (Some (iend f),
   (out ++ [slice_opt prev_ichar (istart f) string])
     ++ [L "df['" ++ featname f ++ L "']"]).

Definition rebuild (string : str) (features : list fdict) : str :=
  let (prev_ichar, out) :=
    fold_left (rebuild_step string) features (None, []) in
  let out := out ++ [skipn (match prev_ichar with
                            | Some n => n | None => 0 end) string] in
  concat out.

(** The translation of the operators into numpy's. *)
Definition numpy_replacements : list (str * str) :=
  [ (L "sin(", L "np.sin("); (L "cos(", L "np.cos(");
    (L "exp(", L "np.exp("); (L "log(", L "np.log(");
    (L "sqrt(", L "np.sqrt("); (L "cbrt(", L "np.cbrt(");
    (L "abs(", L "np.abs(");
    (L ")^2", L ")**2"); (L ")^3", L ")**3"); (L ")^6", L ")**6");
    (L ")^-1", L ")**-1") ].

Definition numpy_operators (evalstring : str) : str :=
  fold_left (fun s r => replace (fst r) (snd r) s)
            numpy_replacements evalstring.

(** The test of the decoder on a string that is not empty: its first
    and its last character are markers. *)
Definition hash_at_both_ends (replaced_string : str) : bool :=
  match replaced_string with
  | c :: _ => Ascii.eqb c hash && Ascii.eqb (last replaced_string c) hash
  | [] => false
  end.

(** [SISSODescriptor._decode_function]. *)
Definition _decode_function (string : str) : exc decoded :=
  let replaced_string := replace_operators string in
  c0 <- index replaced_string 0 ;;
  if negb (Ascii.eqb c0 hash) then
    raise (ValueError (MsgStartEnd replaced_string))
  else
    cl <- index_last replaced_string ;;
    if negb (Ascii.eqb cl hash) then
      raise (ValueError (MsgStartEnd replaced_string))
    else
      let st := scan replaced_string in
      let evalstring := rebuild string (scan_features st) in
      ret {| evalstring := numpy_operators evalstring;
             features_in_string := scan_features st;
             inputs := scan_inputs st |}.

(** An instance of the class. *)
Record t : Type := Build {
  descriptor_id : Z;
  descriptor_string : str;
  self_evalstring : str
}.

(** [SISSODescriptor.__init__]. *)
Definition __init__ (descriptor_id : Z) (descriptor_string : str) : exc t :=
  d <- _decode_function descriptor_string ;;
  ret {| descriptor_id := descriptor_id;
         descriptor_string := descriptor_string;
         self_evalstring := evalstring d |}.

(** [SISSODescriptor.from_string]. *)
Definition from_string (string : str) : exc t :=
  let sp := split ":" string in
  sp0 <- index sp 0 ;;
  id <- int sp0 ;;
  sp1 <- index sp 1 ;;
  __init__ id (slice_1_last sp1).

(** [SISSODescriptor.evaluate]: [return eval(self.evalstring)]. *)
Definition evaluate (self : t) (df : DataFrame) : exc Evaluation.value :=
  Evaluation.eval_string df (self_evalstring self).

End SISSODescriptor.

(* ================================================================== *)
(** * The regular expressions of the report parser *)
(* ================================================================== *)

Module Re.

(** The patterns of the report parser are a label followed by the rest
    of the line.  In a label, a backslash quotes the next character and
    a period stands for any character but the line end. *)
Inductive item : Type :=
| Char (c : ascii)
| AnyChar.

Definition ismeta (c : ascii) : bool :=
  existsb (Ascii.eqb c) (L "*+?[](){}|^$").

(** The label of a pattern, or [None] when it uses an operator that is
    not modelled. *)
Fixpoint compile (p : str) : option (list item) :=
  match p with
  | [] => Some []
  | c :: p' =>
      if Ascii.eqb c "\" then
        match p' with
        | q :: p'' => option_map (cons (Char q)) (compile p'')
        | [] => None
        end
      else if Ascii.eqb c "." then option_map (cons AnyChar) (compile p')
      else if ismeta c then None
      else option_map (cons (Char c)) (compile p')
  end.

(** The label at the start of [s]: what follows it. *)
Fixpoint match_items (p : list item) (s : str) : option str :=
  match p, s with
  | [], _ => Some s
  | Char c :: p', d :: s' => if Ascii.eqb c d then match_items p' s' else None
  | AnyChar :: p', d :: s' => if Ascii.eqb d newline then None else match_items p' s'
  | _ :: _, [] => None
  end.

(** [.*?\n] (and [.*\n]): up to and with the first line end; the number
    of characters passed. *)
Fixpoint to_line_end (s : str) : option nat :=
  match s with
  | [] => None
  | c :: s' =>
      if Ascii.eqb c newline then Some 1
      else option_map S (to_line_end s')
  end.

(** The length of the match of [label.*?\n] at the start of [s]. *)
Definition match_line (p : list item) (s : str) : option nat :=
  match match_items p s with
  | Some rest => option_map (fun n => length p + n) (to_line_end rest)
  | None => None
  end.

(** [re.findall] for a pattern whose match at the start of a string is
    given by [m]: the matches from left to right, without overlap. *)
Fixpoint findall_from (m : str -> option nat) (skip : nat) (s : str)
  : list str :=
  match s with
  | [] => []
  | _ :: s' =>
      match skip with
      | S k => findall_from m k s'
      | O =>
          match m s with
          | Some n => firstn n s :: findall_from m (n - 1) s'
          | None => findall_from m 0 s'
          end
      end
  end.

(** [re.findall(label + ".*?\n", s)]. *)
Definition findall_line (label : str) (s : str) : exc (list str) :=
  match compile label with
  | Some p => ret (findall_from (match_line p) 0 s)
  | None => raise NotModelled
  end.

(** [re.search(label + ".*\n", s)]: the first match, or [None]. *)
Definition search_line (label : str) (s : str) : exc (option str) :=
  l <- findall_line label s ;;
  ret (hd_error l).

(** [re.search(literal, s)] as a truth value. *)
Definition search_literal (literal : str) (s : str) : bool :=
  contains literal s.

(** The offset of the first occurrence of [p] in [s]. *)
Fixpoint find (p s : str) : option nat :=
  if startswith p s then Some 0
  else match s with
       | [] => None
       | _ :: s' => option_map S (find p s')
       end.

(** [Dimension:.*?(?=Time \(second\) used for this DI:).*?\n] with
    [re.DOTALL] at the start of [s]: from the header to the first
    report of the time used, and on to the end of that line. *)
Definition match_dimension_block (s : str) : option nat :=
  let header := L "Dimension:" in
  if startswith header s then
    let rest := skipn (length header) s in
    match find (L "Time (second) used for this DI:") rest with
    | Some i =>
        match to_line_end (skipn i rest) with
        | Some j => Some (length header + i + j)
        | None => None
        end
    | None => None
    end
  else None.

Definition findall_dimension_blocks (s : str) : list str :=
  findall_from match_dimension_block 0 s.

(** One line of the units pattern: two blanks, then two numbers or more
    (digits, a period, digits or none), one blank between them, and the
    line end. *)
Inductive units_state : Type :=
| U0 | U1
| UStart (k : nat)   (* a number starts; [k] numbers were read *)
| UInt (k : nat)     (* in the digits before the period *)
| UFrac (k : nat).   (* in the digits after the period *)

Fixpoint units_line (st : units_state) (s : str) : option str :=
  match s with
  | [] => None
  | c :: s' =>
      match st with
      | U0 => if Ascii.eqb c " " then units_line U1 s' else None
      | U1 => if Ascii.eqb c " " then units_line (UStart 0) s' else None
      | UStart k => if isdigit c then units_line (UInt k) s' else None
      | UInt k =>
          if isdigit c then units_line (UInt k) s'
          else if Ascii.eqb c "." then units_line (UFrac k) s'
          else None
      | UFrac k =>
          if isdigit c then units_line (UFrac k) s'
          else if Ascii.eqb c " " then units_line (UStart (S k)) s'
          else if Ascii.eqb c newline then
                 if 1 <=? k then Some s' else None
               else None
      end
  end.

(** As many such lines as follow one another; what is left. *)
Fixpoint units_lines (fuel : nat) (s : str) : str :=
  match fuel with
  | O => s
  | S n =>
      match units_line U0 s with
      | Some rest => units_lines n rest
      | None => s
      end
  end.

Definition match_units (s : str) : option nat :=
  match units_line U0 s with
  | Some rest => Some (length s - length (units_lines (length s) rest))
  | None => None
  end.

(** [re.search] for the units pattern, one such line or more. *)
Definition search_units (s : str) : option str :=
  hd_error (findall_from match_units 0 s).

End Re.

(* ================================================================== *)
(** * [class SISSOModel] *)
(* ================================================================== *)

(** A [numpy.ndarray] of floats of one or two dimensions; the second kind
    is kept by rows. *)
Inductive ndarray : Type :=
| Array1 (data : list R)
| Array2 (nrows ncols : nat) (rows : list (list R)).

Module SISSOModel.

Record t (F : Type) : Type := Build {
  dimension : Z;
  descriptors : list SISSODescriptor.t;
  coefficients : list (list F);
  intercept : list F;
  rmse : option (list F);
  maxae : option (list F)
}.

Arguments Build {F}.
Arguments dimension {F}.
Arguments descriptors {F}.
Arguments coefficients {F}.
Arguments intercept {F}.
Arguments rmse {F}.
Arguments maxae {F}.

(** [np.array(lists)] for lists of one length [n]. *)
Definition np_array (n : nat) (lists : list (list R)) : ndarray :=
  match lists with
  | [] => Array1 []
  | _ :: _ => Array2 (length lists) n lists
  end.

(** [a.T]. *)
Definition transpose (a : ndarray) : ndarray :=
  match a with
  | Array1 d => Array1 d
  | Array2 n m rows =>
      Array2 m n (map (fun i => map (fun row => nth i row 0%R) rows) (seq 0 m))
  end.

(** [row[j] += x]. *)
Fixpoint add_at (j : nat) (x : R) (row : list R) : list R :=
  match row, j with
  | [], _ => []
  | y :: row', O => (y + x)%R :: row'
  | y :: row', S j' => y :: add_at j' x row'
  end.

(** [out[:, itask] += dval]. *)
Definition iadd_column (out : ndarray) (itask : nat) (dval : list R)
  : exc ndarray :=
  match out with
  | Array1 _ => raise IndexError
  | Array2 n m rows =>
      if m <=? itask then raise IndexError
      else if length dval =? n then
             ret (Array2 n m (map (fun p => add_at itask (snd p) (fst p))
                                  (combine rows dval)))
           else raise NotModelled
  end.

(** [coeff * series]. *)
Definition scale (coeff : R) (v : Evaluation.value) : exc (list R) :=
  match v with
  | Evaluation.VSeries l => ret (map (fun x => (coeff * x)%R) l)
  | _ => raise NotModelled
  end.

(** [SISSOModel.predict]. *)
Definition predict (self : t R) (df : DataFrame) : exc ndarray :=
  let out := transpose (np_array (len df)
               (map (fun intercept => repeat intercept (len df))
                    (intercept self))) in
  foldM (fun out '(idescr, descr) =>
           foldM (fun out '(itask, coeffs) =>
                    c <- index coeffs idescr ;;
                    v <- SISSODescriptor.evaluate descr df ;;
                    dval <- scale c v ;;
                    iadd_column out itask dval)
                 (SISSODescriptor.enumerate (coefficients self)) out)
        (SISSODescriptor.enumerate (descriptors self)) out.

(** The rows of the array of [r] rows and [T] columns whose entry of
    row [i] and column [t] is [f i t]. *)
Definition grid (r T : nat) (f : nat -> nat -> R) : list (list R) :=
  map (fun i => map (fun t => f i t) (seq 0 T)) (seq 0 r).

(** The sum of [f 0], ..., [f (n - 1)]. *)
Definition sum_over (n : nat) (f : nat -> R) : R :=
  fold_right (fun d acc => (f d + acc)%R) 0%R (seq 0 n).

(** The prediction as the specification words it, for row [i] and task
    [t]: the intercept of the task plus the sum over the descriptors of
    the coefficient times the value of the descriptor at the row;
    [values] holds the column of every descriptor. *)
Definition spec_prediction (self : t R) (values : list (list R))
           (i t : nat) : R :=
  (nth t (intercept self) 0
   + sum_over (length (descriptors self))
              (fun d => nth d (nth t (coefficients self) []) 0
                        * nth i (nth d values []) 0))%R.

Section Parsing.
Variable F : Type.
(** The builtin [float] on a string. *)
Variable float : str -> exc F.

(** The variables of the loop over the lines. *)
Record loop_state : Type := Loop {
  l_descriptors : option (list SISSODescriptor.t);
  l_coefficients : list (list F);
  l_intercept : list F;
  l_rmse : list F;
  l_maxae : list F
}.

Definition set_descriptors (st : loop_state)
           (ds : list SISSODescriptor.t) : loop_state :=
  Loop (Some ds) (l_coefficients st) (l_intercept st) (l_rmse st) (l_maxae st).

(** [descriptors is not None and len(descriptors) < dimension]. *)
Definition expects_descriptor (dimension : Z) (st : loop_state) : bool :=
  match l_descriptors st with
  | Some ds => (Z.of_nat (length ds) <? dimension)%Z
  | None => false
  end.

(** The body of [for line in lines]. *)
Definition loop_body (dimension : Z) (st : loop_state) (line : str)
  : exc loop_state :=
  if contains (L "@@@descriptor") line then
    ret (set_descriptors st [])
  else if expects_descriptor dimension st then
    d <- SISSODescriptor.from_string line ;;
    ret (set_descriptors st
           (match l_descriptors st with Some ds => ds | None => [] end ++ [d]))
  else if contains (L "coefficients_") line then
    after <- index (split ":" line) 1 ;;
    row <- mapM float (split_ws after) ;;
    ret (Loop (l_descriptors st) (l_coefficients st ++ [row])
              (l_intercept st) (l_rmse st) (l_maxae st))
  else if contains (L "Intercept_") line then
    after <- index (split ":" line) 1 ;;
    x <- float after ;;
    ret (Loop (l_descriptors st) (l_coefficients st)
              (l_intercept st ++ [x]) (l_rmse st) (l_maxae st))
  else if contains (L "RMSE,MaxAE_") line then
    let sp := split_ws line in
    sp1 <- index sp 1 ;;
    r <- float sp1 ;;
    sp2 <- index sp 2 ;;
    m <- float sp2 ;;
    ret (Loop (l_descriptors st) (l_coefficients st) (l_intercept st)
              (l_rmse st ++ [r]) (l_maxae st ++ [m]))
  else ret st.

(** [SISSOModel.from_string]. *)
Definition from_string (string : str) : exc (t F) :=
  let lines := split newline string in
  line0 <- index lines 0 ;;
  last <- index_last (split_ws line0) ;;
  dimension <- int last ;;
  st <- foldM (loop_body dimension) lines (Loop None [] [] [] []) ;;
  match l_descriptors st with
  | None => raise (ValueError MsgDescriptorNotFound)
  | Some ds =>
      ret (Build dimension ds (l_coefficients st) (l_intercept st)
                 (Some (l_rmse st)) (Some (l_maxae st)))
  end.

End Parsing.

End SISSOModel.

(* ================================================================== *)
(** * [class SISSOIteration] *)
(* ================================================================== *)

Module SISSOIteration.

Record t (F : Type) : Type := Build {
  iteration_number : Z;
  sisso_model : SISSOModel.t F;
  feature_spaces : list (str * Z);   (* a dict, in insertion order *)
  SIS_subspace_size : Z;
  cpu_time : F
}.

Arguments Build {F}.
Arguments iteration_number {F}.
Arguments sisso_model {F}.
Arguments feature_spaces {F}.
Arguments SIS_subspace_size {F}.
Arguments cpu_time {F}.

(** [d[k] = v] on a dict kept as the list of its items. *)
Fixpoint dict_set (d : list (str * Z)) (k : str) (v : Z) : list (str * Z) :=
  match d with
  | [] => [(k, v)]
  | (k', v') :: d' =>
      if str_eqb k' k then (k', v) :: d' else (k', v') :: dict_set d' k v
  end.

Definition r_feature_spaces : str :=
  L "Total number of features in the space phi".
Definition r_SIS_subspace_size : str :=
  L "Size of the SIS-selected subspace".
Definition r_cputime : str :=
  L "Time \(second\) used for this DI:".

Section Parsing.
Variable F : Type.
Variable float : str -> exc F.

(** [{mfs.split()[-2][:-1]: int(mfs.split()[-1])
     for mfs in match_feature_spaces}]. *)
Definition feature_spaces_of (match_feature_spaces : list str)
  : exc (list (str * Z)) :=
  foldM (fun d mfs =>
           key <- index_last2 (split_ws mfs) ;;
           last <- index_last (split_ws mfs) ;;
           n <- int last ;;
           ret (dict_set d (slice_to_last key) n))
        match_feature_spaces [].

(** [SISSOIteration.from_string]. *)
Definition from_string (string : str) : exc (t F) :=
  sisso_model <- SISSOModel.from_string float string ;;
  match_feature_spaces <- Re.findall_line r_feature_spaces string ;;
  feature_spaces <- feature_spaces_of match_feature_spaces ;;
  match_SIS_subspace_size <- Re.findall_line r_SIS_subspace_size string ;;
  m0 <- index match_SIS_subspace_size 0 ;;
  last <- index_last (split_ws m0) ;;
  SIS_subspace_size <- int last ;;
  match_cputime <- Re.findall_line r_cputime string ;;
  c0 <- index match_cputime 0 ;;
  last <- index_last (split_ws c0) ;;
  cpu_time <- float last ;;
  ret (Build (SISSOModel.dimension sisso_model) sisso_model
             feature_spaces SIS_subspace_size cpu_time).

End Parsing.

End SISSOIteration.

(* ================================================================== *)
(** * [class SISSOParams] *)
(* ================================================================== *)

Module SISSOParams.

(** The third component of an entry of [PARAMS]. *)
Inductive var_type : Type :=
| T_int | T_float | T_str
| T_list_of_ints | T_list_of_strs | T_matrix_of_floats | T_str_to_bool.

Definition PARAMS : list (str * str * var_type) :=
  [ (L "property_type", L "Property type:", T_int);
    (L "total_number_properties", L "Number of tasks:", T_int);
    (L "descriptor_dimension", L "Descriptor dimension:", T_int);
    (L "number_of_samples", L "Number of samples for each task:", T_list_of_ints);
    (L "n_scalar_features", L "Number of scalar features:", T_int);
    (L "n_rungs", L "Tier of the feature space:", T_int);
    (L "max_feature_complexity",
     L "Maximal feature complexity \(number of operators in a feature\):", T_int);
    (L "dimension_types",
     L "Units of the input primary features (each represented by a vector):",
     T_matrix_of_floats);
    (L "lower_bound_maxabs_value",
     L "The feature will be discarded if the minimum of the maximal abs. value in it <",
     T_float);
    (L "upper_bound_maxabs_value",
     L "The faature will be discarded if the maximum of the maximal abs\. value in it >",
     T_float);
    (L "SIS_subspaces_sizes", L "Size of the SIS-selected \(single\) subspace :",
     T_list_of_ints);
    (L "operators", L "Operators for feature construction:", T_list_of_strs);
    (L "sparsification_method", L "Method for sparse regression:", T_str);
    (L "n_topmodels", L "Number of the top-ranked models to output:", T_int);
    (L "fit_intercept", L "Fitting intercept:", T_str_to_bool);
    (L "metric", L "Metric for model selection:", T_str) ].

Section Parsing.
(** The values of the fields, and the call [var_type(text)] of the
    builtin constructors and of the converters of [pysisso.utils]. *)
Variable value : Type.
Variable convert : var_type -> str -> exc value.

(** The keyword arguments collected for the constructor; a field that
    is not among them is [None] in the object. *)
Definition t : Type := list (str * value).

(** [self.<field>]. *)
Definition field (self : t) (name : str) : option value :=
  option_map snd (find (fun kv => str_eqb (fst kv) name) self).

(** The body of [for class_var, output_var_str, var_type in cls.PARAMS]. *)
Definition params_step (string : str) (kwargs : t)
           (entry : str * str * var_type) : exc t :=
  let '(class_var, output_var_str, var_type) := entry in
  if str_eqb class_var (L "dimension_types") then
    match Re.search_units string with
    | Some m => v <- convert var_type m ;; ret (kwargs ++ [(class_var, v)])
    | None => ret kwargs
    end
  else
    matches <- Re.findall_line output_var_str string ;;
    if negb (length matches =? 1) then
      m0 <- index matches 0 ;;
      last <- index_last (split_ws m0) ;;
      v <- convert var_type last ;;
      ret (kwargs ++ [(class_var, v)])
    else ret kwargs.

(** [SISSOParams.from_string]. *)
Definition from_string (string : str) : exc t :=
  foldM (params_step string) PARAMS [].

End Parsing.

End SISSOParams.

(* ================================================================== *)
(** * [class SISSOOut] *)
(* ================================================================== *)

Module SISSOOut.

Record t (F value : Type) : Type := Build {
  params : SISSOParams.t value;
  iterations : list (SISSOIteration.t F);
  version : SISSOVersion.t;
  cpu_time : F
}.

Arguments Build {F value}.
Arguments params {F value}.
Arguments iterations {F value}.
Arguments version {F value}.
Arguments cpu_time {F value}.

Section Parsing.
Variable F : Type.
Variable float : str -> exc F.
Variable value : Type.
Variable convert : SISSOParams.var_type -> str -> exc value.

Definition completion_phrase : str := L "Have a nice day !".
Definition r_total_time : str := L "Total time \(second\):".

(** [[next(f) for x in range(3)]]. *)
Definition header_lines (string : str) : exc (list str) :=
  match file_lines string with
  | l1 :: l2 :: l3 :: _ => ret [l1; l2; l3]
  | _ => raise StopIteration
  end.

(** [SISSOOut.from_file] after the test of the completion phrase. *)
Definition parse_report (string : str) : exc (t F value) :=
  params <- SISSOParams.from_string convert string ;;
  iterations <- mapM (SISSOIteration.from_string float)
                     (Re.findall_dimension_blocks string) ;;
  lines <- header_lines string ;;
  header <- index lines 2 ;;
  version <- SISSOVersion.from_string header ;;
  m <- Re.search_line r_total_time string ;;
  match m with
  | None => raise TypeError
  | Some m0 =>
      last <- index_last (split_ws m0) ;;
      cpu_time <- float last ;;
      ret (Build params iterations version cpu_time)
  end.

(** [SISSOOut.from_file]; [string] is the content of the file. *)
Definition from_file (string : str) (allow_unfinished : bool)
  : exc (t F value) :=
  if negb (Re.search_literal completion_phrase string)
     && negb allow_unfinished
  then raise (ValueError MsgUnfinished)
  else parse_report string.

(** [SISSOOut.model]. *)
Definition model (self : t F value) : exc (SISSOModel.t F) :=
  it <- index_last (iterations self) ;;
  ret (SISSOIteration.sisso_model it).

(** [SISSOOut.models]. *)
Definition models (self : t F value) : list (SISSOModel.t F) :=
  map SISSOIteration.sisso_model (iterations self).

End Parsing.

End SISSOOut.

(* ================================================================== *)
(** * The notation of the descriptors *)
(* ================================================================== *)

(** The notation strings that SISSO writes, as the terms they spell:
    feature names, the binary operators between parentheses, the
    functions, [exp(-a)], [abs(a-b)] and the powers of a term between
    parentheses. *)

Module Formula.

Inductive binary : Type := Plus | Minus | Times | Over.
Inductive unary : Type := Exp | Sin | Cos | Sqrt | Cbrt | Log | Abs | Scd.
Inductive power : Type := Inverse | Square | Cube | Sixth.

Inductive t : Type :=
| Feature (name : str)
| Binary (op : binary) (a b : t)   (* (a+b) *)
| Unary (f : unary) (a : t)        (* sin(a) *)
| ExpMinus (a : t)                 (* exp(-a) *)
| AbsDiff (a b : t)                (* abs(a-b) *)
| Power (p : power) (a : t).       (* (a)^2 *)

(** The operator and delimiter tokens, in the order of
    [OPERATORS_REPLACEMENT]. *)
Inductive token : Type :=
| K_exp_minus | K_exp | K_sin | K_cos | K_sqrt | K_cbrt | K_log | K_abs
| K_scd | K_inverse | K_square | K_cube | K_sixth
| K_plus | K_minus | K_times | K_over | K_open | K_close.

Definition all_tokens : list token :=
  [ K_exp_minus; K_exp; K_sin; K_cos; K_sqrt; K_cbrt; K_log; K_abs;
    K_scd; K_inverse; K_square; K_cube; K_sixth;
    K_plus; K_minus; K_times; K_over; K_open; K_close ].

Definition spelling (k : token) : str :=
  match k with
  | K_exp_minus => L "exp(-" | K_exp => L "exp(" | K_sin => L "sin("
  | K_cos => L "cos(" | K_sqrt => L "sqrt(" | K_cbrt => L "cbrt("
  | K_log => L "log(" | K_abs => L "abs(" | K_scd => L "scd("
  | K_inverse => L ")^-1" | K_square => L ")^2" | K_cube => L ")^3"
  | K_sixth => L ")^6"
  | K_plus => L "+" | K_minus => L "-" | K_times => L "*" | K_over => L "/"
  | K_open => L "(" | K_close => L ")"
  end.

Definition binary_token (op : binary) : token :=
  match op with
  | Plus => K_plus | Minus => K_minus | Times => K_times | Over => K_over
  end.

Definition unary_token (f : unary) : token :=
  match f with
  | Exp => K_exp | Sin => K_sin | Cos => K_cos | Sqrt => K_sqrt
  | Cbrt => K_cbrt | Log => K_log | Abs => K_abs | Scd => K_scd
  end.

Definition power_token (p : power) : token :=
  match p with
  | Inverse => K_inverse | Square => K_square | Cube => K_cube
  | Sixth => K_sixth
  end.

(** The text of a term, the tokens written by [tf] and the names by
    [nf]. *)
Fixpoint write_with (tf : token -> str) (nf : str -> str) (e : t) : str :=
  match e with
  | Feature name => nf name
  | Binary op a b =>
      tf K_open ++ write_with tf nf a ++ tf (binary_token op)
         ++ write_with tf nf b ++ tf K_close
  | Unary f a => tf (unary_token f) ++ write_with tf nf a ++ tf K_close
  | ExpMinus a => tf K_exp_minus ++ write_with tf nf a ++ tf K_close
  | AbsDiff a b =>
      tf K_abs ++ write_with tf nf a ++ tf K_minus
         ++ write_with tf nf b ++ tf K_close
  | Power p a => tf K_open ++ write_with tf nf a ++ tf (power_token p)
  end.

(** The notation string of a term. *)
Definition write (e : t) : str := write_with spelling (fun name => name) e.

(** The arithmetic value of a term, [row] giving the value of every
    feature. *)
Fixpoint value (row : str -> R) (e : t) : R :=
  match e with
  | Feature name => row name
  | Binary Plus a b => (value row a + value row b)%R
  | Binary Minus a b => (value row a - value row b)%R
  | Binary Times a b => (value row a * value row b)%R
  | Binary Over a b => (value row a / value row b)%R
  | Unary Exp a => exp (value row a)
  | Unary Sin a => sin (value row a)
  | Unary Cos a => cos (value row a)
  | Unary Sqrt a => sqrt (value row a)
  | Unary Cbrt a => cbrt (value row a)
  | Unary Log a => ln (value row a)
  | Unary Abs a => Rabs (value row a)
  | Unary Scd a => (1 / (PI * (1 + (value row a) ^ 2)))%R
  | ExpMinus a => exp (- value row a)
  | AbsDiff a b => Rabs (value row a - value row b)
  | Power Inverse a => (/ value row a)%R
  | Power Square a => ((value row a) ^ 2)%R
  | Power Cube a => ((value row a) ^ 3)%R
  | Power Sixth a => ((value row a) ^ 6)%R
  end.

(** The feature names of a term, from left to right. *)
Fixpoint features (e : t) : list str :=
  match e with
  | Feature name => [name]
  | Binary _ a b | AbsDiff a b => features a ++ features b
  | Unary _ a | ExpMinus a | Power _ a => features a
  end.

(** The characters that a feature name cannot hold: those of the tokens
    and the marker, and the quote, the backslash and the line end, which
    would end or alter the string literal in [df['name']]. *)
Definition special (c : ascii) : bool :=
  existsb (Ascii.eqb c) (L "+-*/()#'\") || Ascii.eqb c newline.

Definition name_ok (name : str) : Prop :=
  name <> [] /\ Forall (fun c => special c = false) name.

Definition names_ok (e : t) : Prop := Forall name_ok (features e).

(** The characters that a feature name cannot hold either if [eval] is
    to read [df['name']]: the carriage return, which the tokenizer takes
    for a line end, and the null character, which [eval] refuses. *)
Definition unreadable (c : ascii) : bool :=
  Ascii.eqb c carriage_return || Ascii.eqb c null.

Definition name_readable (name : str) : Prop :=
  name_ok name /\ Forall (fun c => unreadable c = false) name.

Definition names_readable (e : t) : Prop :=
  Forall name_readable (features e).

(** A term that is not a bare feature name: its text begins and ends
    with a token. *)
Definition wrapped (e : t) : bool :=
  match e with
  | Feature _ => false
  | _ => true
  end.

(** The column [name] of a table, empty when the table has none. *)
Definition column (df : DataFrame) (name : str) : list R :=
  match getitem df name with
  | inr col => col
  | inl _ => []
  end.

(** The value of a feature at row [i] of a table. *)
Definition row_of (df : DataFrame) (i : nat) (name : str) : R :=
  nth i (column df name) 0%R.

(** Every feature of the term is a column of the table. *)
Definition columns_in (e : t) (df : DataFrame) : Prop :=
  Forall (fun name => exists col, getitem df name = inr col) (features e).

(** ** Occurrences of a pattern across two adjacent texts *)

(** The characters that can follow a feature name or a closing token, and
    those that can follow another token. *)
Definition is_follow (c : ascii) : bool :=
  existsb (Ascii.eqb c) (L "+-*/)#'").

Definition is_open (c : ascii) : bool :=
  negb (special c) || Ascii.eqb c "(" || Ascii.eqb c "#".

(** [R] is empty or begins with a character of the class [P]. *)
Definition begins (P : ascii -> bool) (R : str) : bool :=
  match R with
  | [] => true
  | c :: _ => P c
  end.

Definition begins_with (P : ascii -> bool) (R : str) : bool :=
  match R with
  | [] => false
  | c :: _ => P c
  end.

(** The tokens after which a term ends. *)
Definition closing (k : token) : bool :=
  match k with
  | K_close | K_inverse | K_square | K_cube | K_sixth => true
  | _ => false
  end.

(** The tokens that can begin a term. *)
Definition opening (k : token) : bool :=
  match k with
  | K_exp_minus | K_exp | K_sin | K_cos | K_sqrt | K_cbrt | K_log | K_abs
  | K_scd | K_open => true
  | _ => false
  end.

(** What can follow the token [k] in the text of a term. *)
Definition after (k : token) (R : str) : bool :=
  if closing k then begins is_follow R else begins_with is_open R.

(** The pattern [p] against the text [v] followed by a text of the class
    [P]: true when the answer is found within [v], or when [v] is a
    proper beginning of [p] that the class cannot continue. *)
Fixpoint settled (P : ascii -> bool) (p v : str) : bool :=
  match p, v with
  | [], _ => true
  | a :: p', b :: v' => if Ascii.eqb a b then settled P p' v' else true
  | a :: _, [] => negb (P a)
  end.

(** No occurrence of [p] begins in [s] and ends in a text of the class
    [P] that follows. *)
Fixpoint no_straddle (P : ascii -> bool) (p s : str) : bool :=
  match s with
  | [] => true
  | _ :: s' => settled P p s && no_straddle P p s'
  end.

(** The pattern cannot begin within a feature name: it begins with a
    special character, or each of its characters up to the first special
    one is no follower of a name. *)
Fixpoint clear_of_names (p : str) : bool :=
  match p with
  | [] => false
  | a :: p' => negb (is_follow a) && (special a || clear_of_names p')
  end.

Definition name_free (p : str) : bool :=
  match p with
  | [] => false
  | a :: p' => special a || clear_of_names p
  end.

(** What one replacement of [old] by [new] asks of the spellings [tf] of
    the tokens and of the text [pre], [post] written around the names, to
    act on the text of a term token by token. *)
Definition stage_ok (old new : str) (tf : token -> str) (pre post : str)
  : bool :=
  negb (str_eqb old []) && name_free old
  && forallb (fun k =>
                no_straddle (if closing k then is_follow else is_open) old (tf k)
                && begins_with (if opening k then is_open else is_follow) (tf k))
             all_tokens
  && no_straddle (fun c => negb (special c)) old pre
  && str_eqb (replace old new pre) pre
  && begins is_open pre
  && no_straddle is_follow old post
  && str_eqb (replace old new post) post
  && begins is_follow post.

(** The same for replacements made one after the other. *)
Fixpoint stages_ok (ops : list (str * str)) (tf : token -> str)
         (pre post : str) : bool :=
  match ops with
  | [] => true
  | (old, new) :: ops' =>
      stage_ok old new tf pre post
      && stages_ok ops' (fun k => replace old new (tf k)) pre post
  end.

(** [s] after the replacements [ops]. *)
Definition replace_all (ops : list (str * str)) (s : str) : str :=
  fold_left (fun s r => replace (fst r) (snd r) s) ops s.

End Formula.

(* ================================================================== *)
(** * Decoded terms *)
(* ================================================================== *)

Module Decoded.
Import Formula.

(** The spelling of a token after the translation into numpy's. *)
Definition py_spelling (k : token) : str :=
  SISSODescriptor.numpy_operators (spelling k).

(** [df['name']]. *)
Definition df_item (name : str) : str := L "df['" ++ name ++ L "']".

(** The decoded string of a term. *)
Definition py_write (e : t) : str := write_with py_spelling df_item e.

(** The Python tokens of a token of the notation. *)
Definition py_tokens (k : token) : list Py.token :=
  let np_call (f : str) :=
    [Py.TName (L "np"); Py.TDot; Py.TName f; Py.TLPar] in
  match k with
  | K_exp_minus => np_call (L "exp") ++ [Py.TMinus]
  | K_exp => np_call (L "exp")
  | K_sin => np_call (L "sin")
  | K_cos => np_call (L "cos")
  | K_sqrt => np_call (L "sqrt")
  | K_cbrt => np_call (L "cbrt")
  | K_log => np_call (L "log")
  | K_abs => np_call (L "abs")
  | K_scd => [Py.TName (L "scd"); Py.TLPar]
  | K_inverse => [Py.TRPar; Py.TPow; Py.TMinus; Py.TNum 1]
  | K_square => [Py.TRPar; Py.TPow; Py.TNum 2]
  | K_cube => [Py.TRPar; Py.TPow; Py.TNum 3]
  | K_sixth => [Py.TRPar; Py.TPow; Py.TNum 6]
  | K_plus => [Py.TPlus]
  | K_minus => [Py.TMinus]
  | K_times => [Py.TStar]
  | K_over => [Py.TSlash]
  | K_open => [Py.TLPar]
  | K_close => [Py.TRPar]
  end.

Definition py_name_tokens (name : str) : list Py.token :=
  [Py.TName (L "df"); Py.TLBrack; Py.TStr name; Py.TRBrack].

(** The Python tokens of the decoded string of a term. *)
Fixpoint tokens (e : t) : list Py.token :=
  match e with
  | Feature name => py_name_tokens name
  | Binary op a b =>
      py_tokens K_open ++ tokens a ++ py_tokens (binary_token op)
         ++ tokens b ++ py_tokens K_close
  | Unary f a => py_tokens (unary_token f) ++ tokens a ++ py_tokens K_close
  | ExpMinus a => py_tokens K_exp_minus ++ tokens a ++ py_tokens K_close
  | AbsDiff a b =>
      py_tokens K_abs ++ tokens a ++ py_tokens K_minus
         ++ tokens b ++ py_tokens K_close
  | Power p a => py_tokens K_open ++ tokens a ++ py_tokens (power_token p)
  end.

Definition np_function (f : unary) : Py.expr :=
  match f with
  | Exp => Py.Attr (Py.Name (L "np")) (L "exp")
  | Sin => Py.Attr (Py.Name (L "np")) (L "sin")
  | Cos => Py.Attr (Py.Name (L "np")) (L "cos")
  | Sqrt => Py.Attr (Py.Name (L "np")) (L "sqrt")
  | Cbrt => Py.Attr (Py.Name (L "np")) (L "cbrt")
  | Log => Py.Attr (Py.Name (L "np")) (L "log")
  | Abs => Py.Attr (Py.Name (L "np")) (L "abs")
  | Scd => Py.Name (L "scd")
  end.

Definition py_binop (op : binary) : Py.binop :=
  match op with
  | Plus => Py.Add | Minus => Py.Sub | Times => Py.Mul | Over => Py.Div
  end.

Definition py_exponent (p : power) : Py.expr :=
  match p with
  | Inverse => Py.Neg (Py.Num 1)
  | Square => Py.Num 2
  | Cube => Py.Num 3
  | Sixth => Py.Num 6
  end.

(** The Python expression that the decoded string of a term is. *)
Fixpoint ast (e : t) : Py.expr :=
  match e with
  | Feature name => Py.Subscript (Py.Name (L "df")) (Py.Str name)
  | Binary op a b => Py.BinOp (py_binop op) (ast a) (ast b)
  | Unary f a => Py.Call (np_function f) (ast a)
  | ExpMinus a => Py.Call (np_function Exp) (Py.Neg (ast a))
  | AbsDiff a b => Py.Call (np_function Abs) (Py.BinOp Py.Sub (ast a) (ast b))
  | Power p a => Py.BinOp Py.Pow (ast a) (py_exponent p)
  end.

(** The pieces of the text of a term, from left to right. *)
Inductive piece : Type :=
| PToken (k : token)
| PName (name : str).

Fixpoint pieces (e : t) : list piece :=
  match e with
  | Feature name => [PName name]
  | Binary op a b =>
      PToken K_open :: pieces a ++ PToken (binary_token op)
         :: pieces b ++ [PToken K_close]
  | Unary f a => PToken (unary_token f) :: pieces a ++ [PToken K_close]
  | ExpMinus a => PToken K_exp_minus :: pieces a ++ [PToken K_close]
  | AbsDiff a b =>
      PToken K_abs :: pieces a ++ PToken K_minus
         :: pieces b ++ [PToken K_close]
  | Power p a => PToken K_open :: pieces a ++ [PToken (power_token p)]
  end.

Definition piece_text (tf : token -> str) (nf : str -> str) (p : piece) : str :=
  match p with
  | PToken k => tf k
  | PName name => nf name
  end.

Definition pieces_text (tf : token -> str) (nf : str -> str)
           (ps : list piece) : str :=
  flat_map (piece_text tf nf) ps.

(** The marker run that replaces a token. *)
Definition masked (k : token) : str :=
  repeat SISSODescriptor.hash (length (spelling k)).

(** The occurrences of the feature names in the pieces, the first piece
    beginning at the offset [k]. *)
Fixpoint occurrences (k : nat) (ps : list piece) : list SISSODescriptor.fdict :=
  match ps with
  | [] => []
  | PToken t :: ps' => occurrences (k + length (spelling t)) ps'
  | PName name :: ps' =>
      {| SISSODescriptor.featname := name;
         SISSODescriptor.istart := k;
         SISSODescriptor.iend := k + length name |}
        :: occurrences (k + length name) ps'
  end.

(** The index that [prev_ichar] stands for in a slice. *)
Definition from (prev_ichar : option nat) : nat :=
  match prev_ichar with
  | Some n => n
  | None => 0
  end.

(** Every feature name among the pieces is followed by a token. *)
Fixpoint separated (ps : list piece) : bool :=
  match ps with
  | [] => true
  | PToken _ :: ps' => separated ps'
  | PName _ :: ps' =>
      match ps' with
      | PToken _ :: _ => separated ps'
      | _ => false
      end
  end.

(** What may follow the tokens of a term: the end of the text, a binary
    operator or a closing parenthesis; the same without the operators of
    a product; and without any operator. *)
Definition ends_term (rest : list Py.token) : bool :=
  match rest with
  | [] => true
  | (Py.TPlus | Py.TMinus | Py.TStar | Py.TSlash | Py.TRPar) :: _ => true
  | _ => false
  end.

Definition ends_product (rest : list Py.token) : bool :=
  match rest with
  | [] => true
  | (Py.TPlus | Py.TMinus | Py.TRPar) :: _ => true
  | _ => false
  end.

Definition ends_sum (rest : list Py.token) : bool :=
  match rest with
  | [] => true
  | Py.TRPar :: _ => true
  | _ => false
  end.

(** The first token of an operand: a name or an opening parenthesis. *)
Definition starts_operand (ts : list Py.token) : bool :=
  match ts with
  | (Py.TName _ | Py.TLPar) :: _ => true
  | _ => false
  end.

(** The depth of the calls of the parser on the tokens of a term. *)
Fixpoint depth (e : t) : nat :=
  match e with
  | Feature _ => 16
  | Binary _ a b | AbsDiff a b => 16 + Nat.max (depth a) (depth b)
  | Unary _ a | ExpMinus a | Power _ a => 16 + depth a
  end.

End Decoded.

(* ================================================================== *)
(** * The occurrences of the feature names *)
(* ================================================================== *)

Module Occurrence.
Import SISSODescriptor.

(** A character of the replaced string: the marker, or the character of
    the notation at the same place. *)
Definition masks (c d : ascii) : Prop := c = hash \/ c = d.

(** An entry of [features_in_string] marks a feature name of the
    replaced string [r]: a run of characters that are not the marker,
    not empty, which begins at the start of [r] or after a marker and
    ends before a marker. *)
Definition marks (r : str) (f : fdict) : Prop :=
  istart f < iend f
  /\ featname f = slice (istart f) (iend f) r
  /\ Forall (fun c => c <> hash) (featname f)
  /\ (istart f = 0 \/ nth_error r (istart f - 1) = Some hash)
  /\ nth_error r (iend f) = Some hash.

(** The entries follow one another from left to right and do not
    overlap. *)
Definition ordered (fs : list fdict) : Prop :=
  forall i j f g,
    i < j -> nth_error fs i = Some f -> nth_error fs j = Some g ->
    iend f <= istart g.

(** The place [j] of the replaced string lies in an entry. *)
Definition covered (fs : list fdict) (j : nat) : Prop :=
  exists f, In f fs /\ istart f <= j < iend f.

(** What the scanning loop keeps when it has read the first [k]
    characters of [r]. *)
Definition invariant (r : str) (k : nat) (st : scan_state) : Prop :=
  Forall (marks r) (scan_features st)
  /\ ordered (scan_features st)
  /\ (if in_feature_word st
      then exists k0,
          ichar_start st = Some k0 /\ k0 < k
          /\ (forall j, k0 <= j < k ->
                        exists c, nth_error r j = Some c /\ c <> hash)
          /\ (k0 = 0 \/ nth_error r (k0 - 1) = Some hash)
          /\ Forall (fun f => iend f <= k0) (scan_features st)
      else (k = 0 \/ nth_error r (k - 1) = Some hash)
           /\ Forall (fun f => iend f <= k) (scan_features st))
  /\ (forall j c, j < k -> nth_error r j = Some c -> c <> hash ->
                  covered (scan_features st) j
                  \/ (in_feature_word st = true
                      /\ exists k0, ichar_start st = Some k0 /\ k0 <= j))
  /\ NoDup (scan_inputs st)
  /\ (forall name, In name (scan_inputs st)
                   <-> In name (map featname (scan_features st))).

End Occurrence.

(* ================================================================== *)
(** * [class FeatureSpace] *)
(* ================================================================== *)

Module FeatureSpace.

(** What leaves the constructor: an exception of the code modelled
    above, or the [NameError] of a name that the module does not bind
    (the module uses [warnings] and does not import it). *)
Inductive error : Type :=
| Exn (e : exn)
| NameError (name : str).

Record t : Type := Build {
  descriptors : list SISSODescriptor.t
}.

(** The body of [for num, line in enumerate(f)]:
    [self.descriptors.append(SISSODescriptor(num, line.split()[0]))]. *)
Definition append_descriptor (descriptors : list SISSODescriptor.t)
           (nl : nat * str) : exc (list SISSODescriptor.t) :=
  let (num, line) := nl in
  word <- index (split_ws line) 0 ;;
  d <- SISSODescriptor.__init__ (Z.of_nat num) word ;;
  ret (descriptors ++ [d]).

(** [FeatureSpace.__init__]; [file] is the content of the file at
    [path], or [None] when [os.path.isfile(path)] is false. *)
Definition __init__ (file : option str) : error + t :=
  match file with
  | Some content =>
      match foldM append_descriptor
                  (SISSODescriptor.enumerate (file_lines content)) [] with
      | inr ds => inr (Build ds)
      | inl e => inl (Exn e)
      end
  | None => inl (NameError (L "warnings"))
  end.

(** [FeatureSpace.__iter__]: the descriptors in the order of the file. *)
Definition __iter__ (self : t) : list SISSODescriptor.t := descriptors self.

End FeatureSpace.

(* ================================================================== *)
(** * Sample instances of the builtin conversions *)
(* ================================================================== *)

(** The parsers above take [float] and the field converters as
    parameters.  The instances below serve to run them on sample reports:
    a decimal literal is read as the rational number it writes, before
    any rounding. *)

Module Sample.

(** The digits at the start of [s], read on from [acc]; what follows. *)
Fixpoint digits (acc : Z) (s : str) : Z * str :=
  match s with
  | c :: s' => if isdigit c then digits (10 * acc + digit_value c) s'
               else (acc, s)
  | [] => (acc, [])
  end.

Definition is_exponent_mark (c : ascii) : bool :=
  Ascii.eqb c "e" || Ascii.eqb c "E".

Definition signed (s : str) : bool * str :=
  match s with
  | "-"%char :: s' => (true, s')
  | "+"%char :: s' => (false, s')
  | _ => (false, s)
  end.

Definition scale10 (m : Z) (e : Z) : Q :=
  if (0 <=? e)%Z then inject_Z (m * 10 ^ e)
  else Qmake m (Z.to_pos (10 ^ (- e))).

(** [[sign] digits [. digits] [(e|E) [sign] digits]], with a digit
    before or after the period. *)
Definition decimal (s : str) : option Q :=
  let (neg, s1) := signed s in
  let (ip, s2) := digits 0 s1 in
  let nint := length s1 - length s2 in
  let '(m, nfrac, s3) :=
    match s2 with
    | "."%char :: s2' =>
        let (m, s3) := digits ip s2' in (m, length s2' - length s3, s3)
    | _ => (ip, 0, s2)
    end in
  if nint + nfrac =? 0 then None
  else
    let m := if neg then (- m)%Z else m in
    match s3 with
    | [] => Some (scale10 m (- Z.of_nat nfrac))
    | c3 :: s4 =>
        if is_exponent_mark c3 then
          let (eneg, s5) := signed s4 in
          let (e, s6) := digits 0 s5 in
          if length s5 - length s6 =? 0 then None
          else
            match s6 with
            | [] => let e := if eneg then (- e)%Z else e in
                    Some (scale10 m (e - Z.of_nat nfrac))
            | _ :: _ => None
            end
        else None
    end.

Definition float (s : str) : exc Q :=
  match decimal (strip_number s) with
  | Some q => ret q
  | None => raise (ValueError (MsgInvalidFloat s))
  end.

(** The values of the fields of the parameters. *)
Inductive value : Type :=
| Int (z : Z)
| Float (q : Q)
| Text (s : str)
| Ints (l : list Z)
| Texts (l : list str).

(** A sample of the converters: the builtin ones, and lists read from
    whitespace-delimited text; the Boolean and the matrix converters of
    [pysisso.utils] are left out. *)
Definition convert (ty : SISSOParams.var_type) (s : str) : exc value :=
  match ty with
  | SISSOParams.T_int => z <- int s ;; ret (Int z)
  | SISSOParams.T_float => q <- float s ;; ret (Float q)
  | SISSOParams.T_str => ret (Text s)
  | SISSOParams.T_list_of_ints => l <- mapM int (split_ws s) ;; ret (Ints l)
  | SISSOParams.T_list_of_strs => ret (Texts (split_ws s))
  | SISSOParams.T_matrix_of_floats => raise NotModelled
  | SISSOParams.T_str_to_bool => raise NotModelled
  end.

Local Open Scope string_scope.
Local Open Scope list_scope.

(** A text from its lines, each closed by a line end. *)
Definition text (lines : list string) : str :=
  flat_map (fun l => L l ++ [newline]) lines.

(** The third line of a report of SISSO 3.0.2. *)
Definition header : str := text ["  Version SISSO.3.0.2, June, 2020."].

Definition banner : list string :=
  [ "****************************************************************";
    "  Sure Independence Screening and Sparsifying Operator (SISSO)";
    "  Version SISSO.3.0.2, June, 2020.";
    "****************************************************************" ].

(** The parameters as SISSO prints them, every label once. *)
Definition parameters : list string :=
  [ "Property type:     1";
    "Number of tasks:        1";
    "Descriptor dimension:        2";
    "Number of samples for each task:       5";
    "Number of scalar features:        4";
    "Tier of the feature space:        1";
    "Maximal feature complexity (number of operators in a feature):       10";
    "Units of the input primary features (each represented by a vector):";
    "The feature will be discarded if the minimum of the maximal abs. value in it <    0.10000E-02";
    "The faature will be discarded if the maximum of the maximal abs. value in it >     0.10000E+06";
    "Size of the SIS-selected (single) subspace :       20";
    "Operators for feature construction: (+)(-)";
    "Method for sparse regression:  L0";
    "Number of the top-ranked models to output:      100";
    "Fitting intercept:      T";
    "Metric for model selection:  RMSE" ].

(** The report of one dimension; [sizes] are the lines on the size of the
    subspace and [times] the lines on the time used. *)
Definition dimension_block (sizes times : list string) : list string :=
  ([ "Dimension:   1";
     "Total number of features in the space phi00:              4";
     "Total number of features in the space phi01:             16" ]
   ++ sizes ++
   [ "  1D descriptor (model):";
     "Total RMSE,MaxAE:   0.159911  0.290090";
     "@@@descriptor:";
     "                      1:[((f1-f2)+(f3-f4))]";
     "       coefficients_001:     0.2500000E+01";
     "          Intercept_001:    -0.1000000E+01";
     "         RMSE,MaxAE_001:     0.1599E+00    0.2901E+00" ]
   ++ times).

Definition size_line : string :=
  "Size of the SIS-selected subspace from phi01:         20".
Definition other_size_line : string :=
  "Size of the SIS-selected subspace from phi01:         16".
Definition time_line : string :=
  "Time (second) used for this DI:            0.03".

Definition block : str := text (dimension_block [size_line] [time_line]).

(** A block that reports the size of the subspace twice. *)
Definition block_two_sizes : str :=
  text (dimension_block [size_line; other_size_line] [time_line]).

(** Blocks that miss the size of the subspace, or the time used. *)
Definition block_no_size : str := text (dimension_block [] [time_line]).
Definition block_no_time : str := text (dimension_block [size_line] []).

Definition total_time_line : string := "Total time (second):           10.05".
Definition sentinel_line : string := "Have a nice day !".

(** A finished run of one dimension. *)
Definition report : str :=
  text (banner ++ parameters ++ dimension_block [size_line] [time_line]
        ++ [total_time_line; sentinel_line]).

(** The same run, cut before the completion phrase. *)
Definition report_unfinished : str :=
  text (banner ++ parameters ++ dimension_block [size_line] [time_line]
        ++ [total_time_line]).

(** A finished run that reports no dimension. *)
Definition report_no_dimension : str :=
  text (banner ++ parameters ++ [total_time_line; sentinel_line]).

(** A finished run that reports no dimension and prints no parameter. *)
Definition report_bare : str :=
  text (banner ++ [total_time_line; sentinel_line]).

(** A finished run without dimension whose total time is not a number. *)
Definition report_no_total : str :=
  text (banner ++ parameters ++ ["Total time (second):           n/a";
                                 sentinel_line]).

(** A run that prints the first label twice. *)
Definition report_label_twice : str :=
  text (["Property type:     1"; "Property type:     2"]).


(** A table of two rows with the columns f1, f2, f3 and f4. *)
Definition table : DataFrame :=
  {| index_length := 2;
     columns := [ (L "f1", [5; 1]%R); (L "f2", [2; 1]%R);
                  (L "f3", [9; 4]%R); (L "f4", [1; 2]%R) ] |}.

(** The descriptor of the sample report. *)
Definition descriptor : SISSODescriptor.t :=
  {| SISSODescriptor.descriptor_id := 1;
     SISSODescriptor.descriptor_string := L "((f1-f2)+(f3-f4))";
     SISSODescriptor.self_evalstring :=
       L "((df['f1']-df['f2'])+(df['f3']-df['f4']))" |}.

(** A model of one descriptor and two tasks. *)
Definition model : SISSOModel.t R :=
  {| SISSOModel.dimension := 1;
     SISSOModel.descriptors := [descriptor];
     SISSOModel.coefficients := [[2%R]; [3%R]];
     SISSOModel.intercept := [1%R; 0%R];
     SISSOModel.rmse := None;
     SISSOModel.maxae := None |}.


(** The term that the descriptor of the sample report spells. *)
Definition term : Formula.t :=
  Formula.Binary Formula.Plus
    (Formula.Binary Formula.Minus (Formula.Feature (L "f1"))
                                  (Formula.Feature (L "f2")))
    (Formula.Binary Formula.Minus (Formula.Feature (L "f3"))
                                  (Formula.Feature (L "f4"))).

End Sample.

(* ================================================================== *)
(** * Properties *)
(* ================================================================== *)

(* ------------------------------------------------------------------ *)
(** ** The error monad *)

Lemma bind_ret {A B} (a : A) (k : A -> exc B) : bind (ret a) k = k a.
Proof. reflexivity. Qed.

Lemma bind_raise {A B} (e : exn) (k : A -> exc B) : bind (raise e) k = raise e.
Proof. reflexivity. Qed.

Lemma bind_inr {A B} (c : exc A) (k : A -> exc B) (b : B) :
  bind c k = inr b -> exists a, c = inr a /\ k a = inr b.
Proof.
  destruct c as [e | a]; simpl; intros H; [discriminate | eauto].
Qed.

Lemma foldM_app {A S} (body : S -> A -> exc S) (l1 l2 : list A) (s : S) :
  foldM body (l1 ++ l2) s = bind (foldM body l1 s) (foldM body l2).
Proof.
  revert s; induction l1 as [| x l1 IH]; intros s; simpl; [reflexivity |].
  destruct (body s x) as [e | s']; simpl; [reflexivity | apply IH].
Qed.

(* ------------------------------------------------------------------ *)
(** ** The kernel [scd] *)

(** C9: [scd x] is [1 / (pi * (1 + x^2))] for every real [x]; hence
    [scd 0 = 1 / pi], and [scd] is even. *)
Theorem scd_standard_cauchy_density :
  forall x : R,
    scd x = (1 / (PI * (1 + x ^ 2)))%R
    /\ scd 0 = (1 / PI)%R
    /\ scd x = scd (- x).
Proof.
  intros x; unfold scd; repeat split.
  - f_equal; f_equal; ring.
  - f_equal; ring.
  - f_equal; f_equal; ring.
Qed.

(* ------------------------------------------------------------------ *)
(** ** The version header *)

(** C8: on the header of a SISSO 3.0.2 report the version list holds the
    components after the first as the strings "3", "0", "2"; the list of
    integers 3, 0, 2 that the data model and the annotation
    [version: list[int]] describe is a different list. *)
Theorem version_components_stay_strings :
  SISSOVersion.from_string Sample.header
  = inr {| SISSOVersion.header_string := L "Version SISSO.3.0.2, June, 2020.";
           SISSOVersion.version := [PyStr (L "3"); PyStr (L "0"); PyStr (L "2")] |}
  /\ SISSOVersion.spec_version Sample.header
     = inr [PyInt 3; PyInt 0; PyInt 2]
  /\ (forall v, SISSOVersion.from_string Sample.header = inr v ->
                SISSOVersion.spec_version Sample.header
                <> inr (SISSOVersion.version v)).
Proof.
  split; [reflexivity |].
  split; [reflexivity |].
  intros v H. vm_compute in H. injection H as <-. vm_compute. discriminate.
Qed.

(** [SISSOVersion.from_string] never raises: the version is what follows
    the first period of the text before the first comma. *)
Lemma version_from_string_total (line : str) :
  exists first,
    hd_error (split "," line) = Some first
    /\ SISSOVersion.from_string line
       = inr {| SISSOVersion.header_string := strip line;
                SISSOVersion.version :=
                  map PyStr (slice_from1 (split "." first)) |}.
Proof.
  assert (H : forall cur s, exists x l, split_from "," cur s = x :: l).
  { intros cur s; revert cur; induction s as [| c s IH]; intros cur; simpl.
    - eauto.
    - destruct (Ascii.eqb c ","); [eauto | apply IH]. }
  destruct (H [] line) as (x & l & E).
  exists x. unfold SISSOVersion.from_string, split. rewrite E. simpl. auto.
Qed.

(* ------------------------------------------------------------------ *)
(** ** Strings *)

Lemma startswith_app (p s : str) : startswith p (p ++ s) = true.
Proof.
  induction p as [| a p IH]; simpl; [reflexivity |].
  rewrite Ascii.eqb_refl; exact IH.
Qed.

Lemma startswith_inv (p s : str) :
  startswith p s = true -> exists t, s = p ++ t.
Proof.
  revert s; induction p as [| a p IH]; intros s H.
  - exists s; reflexivity.
  - destruct s as [| b s]; simpl in H; [discriminate |].
    apply andb_true_iff in H as [Hab Hp].
    apply Ascii.eqb_eq in Hab; subst b.
    destruct (IH s Hp) as [t ->]. exists t; reflexivity.
Qed.

Lemma replace_from_skip (old new : str) (k : nat) (s : str) :
  replace_from old new k s = replace_from old new 0 (skipn k s).
Proof.
  revert k; induction s as [| c s IH]; intros k.
  - destruct k; reflexivity.
  - destruct k as [| k]; [reflexivity |].
    simpl replace_from at 1. rewrite IH. reflexivity.
Qed.

(** The two equations of [replace] on a string that is not empty. *)
Lemma replace_match (a : ascii) (old new s : str) :
  replace (a :: old) new ((a :: old) ++ s) = new ++ replace (a :: old) new s.
Proof.
  unfold replace.
  change ((a :: old) ++ s) with (a :: (old ++ s)).
  cbn [replace_from].
  change (a :: (old ++ s)) with ((a :: old) ++ s).
  rewrite startswith_app.
  rewrite replace_from_skip.
  replace (length (a :: old) - 1) with (length old) by (simpl; lia).
  rewrite skipn_app, Nat.sub_diag, skipn_all. reflexivity.
Qed.

Lemma replace_nomatch (old new : str) (c : ascii) (s : str) :
  old <> [] -> startswith old (c :: s) = false ->
  replace old new (c :: s) = c :: replace old new s.
Proof.
  intros Hne H. destruct old as [| a old]; [congruence |].
  unfold replace. cbn [replace_from]. rewrite H. reflexivity.
Qed.

Lemma replace_nil (old new : str) : old <> [] -> replace old new [] = [].
Proof. destruct old; [congruence | reflexivity]. Qed.

(** A replacement as long as what it replaces keeps the length. *)
Lemma replace_length (old new s : str) :
  old <> [] -> length new = length old ->
  length (replace old new s) = length s.
Proof.
  intros Hne Hlen.
  remember (length s) as n eqn:Hn.
  revert s Hn; induction n as [n IH] using lt_wf_ind; intros s Hn.
  destruct s as [| c s]; [rewrite replace_nil by assumption; symmetry; assumption |].
  destruct (startswith old (c :: s)) eqn:Hs.
  - destruct (startswith_inv _ _ Hs) as [t Ht].
    destruct old as [| a old]; [congruence |].
    assert (Hlt : length t < n).
    { rewrite Hn, Ht, length_app. simpl. lia. }
    rewrite Ht, replace_match, !length_app.
    rewrite (IH _ Hlt t eq_refl), Hn, Ht, length_app. lia.
  - rewrite replace_nomatch by assumption. simpl.
    assert (Hlt : length s < n) by (rewrite Hn; simpl; lia).
    rewrite (IH _ Hlt s eq_refl). rewrite Hn. reflexivity.
Qed.

Lemma index_last_last {A} (l : list A) (d : A) :
  l <> [] -> index_last l = inr (last l d).
Proof.
  intros Hne. destruct (exists_last Hne) as (l' & a & ->).
  unfold index_last. rewrite rev_app_distr, last_last. reflexivity.
Qed.

(* ------------------------------------------------------------------ *)
(** ** The decoder *)

Module DecoderFacts.
Import SISSODescriptor.

Lemma replace_operators_length (s : str) :
  length (replace_operators s) = length s.
Proof.
  unfold replace_operators.
  assert (H : Forall (fun op => op <> []) OPERATORS_REPLACEMENT).
  { repeat constructor; discriminate. }
  revert s H. induction OPERATORS_REPLACEMENT as [| op ops IH]; intros s H.
  - reflexivity.
  - inversion H; subst. simpl. rewrite IH by assumption.
    apply replace_length; [assumption | apply repeat_length].
Qed.

(** The decoder on a string that is not empty: the test on the ends of
    the replaced string decides between the result and the
    [ValueError]. *)
Lemma decode_function_nonempty (s : str) :
  s <> [] ->
  _decode_function s
  = if hash_at_both_ends (replace_operators s)
    then inr {| evalstring :=
                  numpy_operators
                    (rebuild s (scan_features (scan (replace_operators s))));
                features_in_string := scan_features (scan (replace_operators s));
                inputs := scan_inputs (scan (replace_operators s)) |}
    else inl (ValueError (MsgStartEnd (replace_operators s))).
Proof.
  intros Hne. unfold _decode_function.
  pose proof (replace_operators_length s) as Hlen.
  destruct (replace_operators s) as [| c r] eqn:Er.
  - destruct s; [congruence | discriminate].
  - unfold index at 1. cbn [nth_error bind ret hash_at_both_ends].
    destruct (Ascii.eqb c hash); cbn [negb andb]; [| reflexivity].
    rewrite (@index_last_last _ (c :: r) c) by discriminate. cbn [bind].
    destruct (Ascii.eqb (last (c :: r) c) hash); reflexivity.
Qed.

Lemma decode_function_empty : _decode_function [] = inl IndexError.
Proof. reflexivity. Qed.

Lemma scan_no_feature (r : str) (l : list (nat * ascii)) (st : scan_state) :
  Forall (fun ic => snd ic = hash) l ->
  in_feature_word st = false ->
  fold_left (scan_step r) l st = st.
Proof.
  intros Hl Hst. induction Hl as [| [i c] l Hc _ IH]; [reflexivity |].
  simpl in Hc; subst c. cbn [fold_left].
  replace (scan_step r st (i, hash)) with st; [exact IH |].
  unfold scan_step. rewrite Hst. reflexivity.
Qed.

Lemma enumerate_snd {A} (P : A -> Prop) (l : list A) :
  Forall P l -> Forall (fun ic => P (snd ic)) (enumerate l).
Proof.
  unfold enumerate. generalize 0.
  induction l as [| a l IH]; intros n H; simpl; [constructor |].
  inversion H; subst. constructor; [assumption | apply IH; assumption].
Qed.

Lemma rebuild_nil (s : str) : rebuild s [] = s.
Proof. unfold rebuild. simpl. apply app_nil_r. Qed.

Lemma hash_at_both_ends_all (r : str) :
  r <> [] -> Forall (eq hash) r -> hash_at_both_ends r = true.
Proof.
  intros Hne H. destruct r as [| c r]; [congruence |].
  unfold hash_at_both_ends.
  assert (Hin : forall x, In x (c :: r) -> x = hash).
  { intros x Hx. rewrite Forall_forall in H. symmetry; auto. }
  rewrite (Hin c) by (left; reflexivity).
  destruct (exists_last (l := hash :: r)) as (l' & a & E); [discriminate |].
  assert (Ha : a = hash).
  { apply Hin. rewrite (Hin c) by (left; reflexivity).
    rewrite E. apply in_or_app; right; left; reflexivity. }
  rewrite (Hin c) in * by (left; reflexivity).
  rewrite E, last_last, Ha. reflexivity.
Qed.

End DecoderFacts.

(** C4 as the code has it: a string that is not empty and whose characters
    all belong to operator tokens is accepted; the descriptor is built
    with no feature occurrence and no input name, and its expression is
    the string with numpy's spellings. *)
Theorem decode_operators_only_accepted :
  forall (id : Z) (s : str),
    s <> [] ->
    Forall (eq SISSODescriptor.hash) (SISSODescriptor.replace_operators s) ->
    SISSODescriptor._decode_function s
    = inr {| SISSODescriptor.evalstring := SISSODescriptor.numpy_operators s;
             SISSODescriptor.features_in_string := [];
             SISSODescriptor.inputs := [] |}
    /\ SISSODescriptor.__init__ id s
       = inr {| SISSODescriptor.descriptor_id := id;
                SISSODescriptor.descriptor_string := s;
                SISSODescriptor.self_evalstring :=
                  SISSODescriptor.numpy_operators s |}.
Proof.
  intros id s Hne Hall.
  assert (E : SISSODescriptor._decode_function s
              = inr {| SISSODescriptor.evalstring := SISSODescriptor.numpy_operators s;
                       SISSODescriptor.features_in_string := [];
                       SISSODescriptor.inputs := [] |}).
  { rewrite DecoderFacts.decode_function_nonempty by assumption.
    assert (Hr : SISSODescriptor.replace_operators s <> []).
    { intros E. apply (f_equal (@length _)) in E.
      rewrite DecoderFacts.replace_operators_length in E.
      destruct s; [congruence | discriminate]. }
    rewrite (DecoderFacts.hash_at_both_ends_all Hr Hall).
    unfold SISSODescriptor.scan.
    rewrite DecoderFacts.scan_no_feature.
    - simpl. rewrite DecoderFacts.rebuild_nil. reflexivity.
    - apply DecoderFacts.enumerate_snd with (P := fun c => c = SISSODescriptor.hash).
      eapply Forall_impl; [| exact Hall]. intros; subst; reflexivity.
    - reflexivity. }
  split; [exact E |].
  unfold SISSODescriptor.__init__. rewrite E. reflexivity.
Qed.

Lemma decode_operators_only_accepted_witness :
  SISSODescriptor._decode_function (L "()")
  = inr {| SISSODescriptor.evalstring := L "()";
           SISSODescriptor.features_in_string := [];
           SISSODescriptor.inputs := [] |}
  /\ SISSODescriptor.__init__ 1 (L "()")
     = inr {| SISSODescriptor.descriptor_id := 1;
              SISSODescriptor.descriptor_string := L "()";
              SISSODescriptor.self_evalstring := L "()" |}.
Proof.
  apply (decode_operators_only_accepted 1 (s := L "()")).
  - discriminate.
  - vm_compute. repeat constructor.
Defined.

(** C4 as the claim states it fails: ["exp(-()^2)"] holds no feature name,
    and a descriptor is built from it all the same. *)
Lemma decode_without_feature_not_rejected :
  SISSODescriptor.replace_operators (L "exp(-()^2)") = L "##########"
  /\ SISSODescriptor._decode_function (L "exp(-()^2)")
     = inr {| SISSODescriptor.evalstring := L "np.exp(-()**2)";
              SISSODescriptor.features_in_string := [];
              SISSODescriptor.inputs := [] |}
  /\ SISSODescriptor.from_string (L "1:[exp(-()^2)]")
     = inr {| SISSODescriptor.descriptor_id := 1;
              SISSODescriptor.descriptor_string := L "exp(-()^2)";
              SISSODescriptor.self_evalstring := L "np.exp(-()**2)" |}.
Proof. repeat split. Qed.

(** C7: the empty notation, which the descriptor line ["1:[]"] gives, does
    not begin with the marker, and the decoder leaves by the [IndexError]
    of [replaced_string[0]] instead of its [ValueError]; the bare
    ["f1+f2"] gets the [ValueError]. *)
Theorem decode_empty_notation_index_error :
  SISSODescriptor.replace_operators [] = []
  /\ SISSODescriptor._decode_function [] = inl IndexError
  /\ SISSODescriptor.from_string (L "1:[]") = inl IndexError
  /\ SISSODescriptor._decode_function (L "f1+f2")
     = inl (ValueError (MsgStartEnd (L "f1#f2"))).
Proof. repeat split. Qed.

(** The part of C7 that holds: on a notation that is not empty, a
    replaced string that does not begin and end with the marker is
    answered by the [ValueError] of the decoder. *)
Lemma decode_unwrapped_value_error (s : str) :
  s <> [] ->
  SISSODescriptor.hash_at_both_ends (SISSODescriptor.replace_operators s) = false ->
  SISSODescriptor._decode_function s
  = inl (ValueError (MsgStartEnd (SISSODescriptor.replace_operators s))).
Proof.
  intros Hne H. rewrite DecoderFacts.decode_function_nonempty by assumption.
  rewrite H. reflexivity.
Qed.

(* ------------------------------------------------------------------ *)
(** ** The parameters *)

(** C1: the test on the number of matching lines is inverted.  In the
    sample report every label is printed once, and no field is set; in
    the bare report no line matches the first label, and the parse leaves
    by the [IndexError] of [matches[0]]; where a label is printed twice,
    the field gets the value of the first of the two lines. *)
Theorem params_match_count_test_inverted :
  forall (value : Type) (convert : SISSOParams.var_type -> str -> exc value),
    SISSOParams.from_string convert Sample.report = inr []
    /\ SISSOParams.from_string convert Sample.report_bare = inl IndexError
    /\ SISSOParams.params_step convert Sample.report_label_twice []
         (L "property_type", L "Property type:", SISSOParams.T_int)
       = (v <- convert SISSOParams.T_int (L "1") ;;
          ret [(L "property_type", v)]).
Proof.
  intros value convert. repeat split; vm_compute; reflexivity.
Qed.

(** Every entry of the table but the one of the units: the field is left
    unset on one matching line, set from the first line on two or more,
    and the parse fails on none. *)
Lemma params_step_by_match_count
      (value : Type) (convert : SISSOParams.var_type -> str -> exc value)
      (class_var label : str) (ty : SISSOParams.var_type)
      (string : str) (kwargs : SISSOParams.t value) :
  In (class_var, label, ty) SISSOParams.PARAMS ->
  class_var <> L "dimension_types" ->
  exists matches,
    Re.findall_line label string = inr matches
    /\ SISSOParams.params_step convert string kwargs (class_var, label, ty)
       = match matches with
         | [] => inl IndexError
         | [_] => inr kwargs
         | m0 :: _ :: _ =>
             last <- index_last (split_ws m0) ;;
             v <- convert ty last ;;
             ret (kwargs ++ [(class_var, v)])
         end.
Proof.
  intros Hin Hne.
  assert (Hc : exists p, Re.compile label = Some p
                         /\ str_eqb class_var (L "dimension_types") = false).
  { unfold SISSOParams.PARAMS in Hin. simpl in Hin.
    repeat (destruct Hin as [Hin | Hin];
            [injection Hin as <- <- <-;
             first [ exfalso; apply Hne; reflexivity
                   | eexists; split; vm_compute; reflexivity ] |]).
    contradiction. }
  destruct Hc as (p & Hp & Hd).
  exists (Re.findall_from (Re.match_line p) 0 string).
  unfold SISSOParams.params_step, Re.findall_line. rewrite Hp, Hd.
  split; [reflexivity |].
  cbn [bind ret].
  destruct (Re.findall_from (Re.match_line p) 0 string) as [| m0 [| m1 ms]];
    reflexivity.
Qed.

(* ------------------------------------------------------------------ *)
(** ** The iterations *)

(** C3 as the claim states it fails: a block that reports the size of the
    subspace twice is parsed, and the size is the one of the first line. *)
Lemma iteration_two_sizes_accepted :
  (exists m0 m1, Re.findall_line SISSOIteration.r_SIS_subspace_size
                                 Sample.block_two_sizes = inr [m0; m1])
  /\ exists it,
       SISSOIteration.from_string Sample.float Sample.block_two_sizes = inr it
       /\ SISSOIteration.SIS_subspace_size it = 20%Z.
Proof.
  split.
  - eexists; eexists. vm_compute. reflexivity.
  - eexists. split; [vm_compute; reflexivity | reflexivity].
Qed.

(** C3 as the code has it: the parse fails when no line reports the size
    of the subspace or when no line reports the time used; with one line
    or more of each, and the model, the feature spaces and the two numbers
    read, it returns, and the size and the time are the last
    whitespace-separated words of the first line of each kind. *)
Theorem iteration_reads_first_matching_lines :
  forall (F : Type) (float : str -> exc F) (string : str),
    (Re.findall_line SISSOIteration.r_SIS_subspace_size string = inr [] ->
     exists e, SISSOIteration.from_string float string = inl e)
    /\ (Re.findall_line SISSOIteration.r_cputime string = inr [] ->
        exists e, SISSOIteration.from_string float string = inl e)
    /\ (forall model mfs fs m0 ms size_word size c0 cs time_word time,
           SISSOModel.from_string float string = inr model ->
           Re.findall_line SISSOIteration.r_feature_spaces string = inr mfs ->
           SISSOIteration.feature_spaces_of mfs = inr fs ->
           Re.findall_line SISSOIteration.r_SIS_subspace_size string
           = inr (m0 :: ms) ->
           index_last (split_ws m0) = inr size_word ->
           int size_word = inr size ->
           Re.findall_line SISSOIteration.r_cputime string = inr (c0 :: cs) ->
           index_last (split_ws c0) = inr time_word ->
           float time_word = inr time ->
           SISSOIteration.from_string float string
           = inr (SISSOIteration.Build (SISSOModel.dimension model) model
                                       fs size time)).
Proof.
  intros F float string. unfold SISSOIteration.from_string.
  split; [| split].
  - intros H.
    destruct (SISSOModel.from_string float string) as [err | model]; [cbn; eauto |].
    cbn [bind].
    destruct (Re.findall_line SISSOIteration.r_feature_spaces string)
      as [err | mfs]; [cbn; eauto |].
    cbn [bind].
    destruct (SISSOIteration.feature_spaces_of mfs) as [err | fs]; [cbn; eauto |].
    cbn [bind]. rewrite H. cbn. eauto.
  - intros H.
    destruct (SISSOModel.from_string float string) as [err | model]; [cbn; eauto |].
    cbn [bind].
    destruct (Re.findall_line SISSOIteration.r_feature_spaces string)
      as [err | mfs]; [cbn; eauto |].
    cbn [bind].
    destruct (SISSOIteration.feature_spaces_of mfs) as [err | fs]; [cbn; eauto |].
    cbn [bind].
    destruct (Re.findall_line SISSOIteration.r_SIS_subspace_size string)
      as [err | ms]; [cbn; eauto |].
    cbn [bind].
    destruct (index ms 0) as [err | m0]; [cbn; eauto |].
    cbn [bind].
    destruct (index_last (split_ws m0)) as [err | w]; [cbn; eauto |].
    cbn [bind].
    destruct (int w) as [err | z]; [cbn; eauto |].
    cbn [bind]. rewrite H. cbn. eauto.
  - intros model mfs fs m0 ms size_word size c0 cs time_word time
           Hm Hf Hfs Hs Hsw Hsz Hc Hcw Ht.
    rewrite Hm; cbn [bind]. rewrite Hf; cbn [bind]. rewrite Hfs; cbn [bind].
    rewrite Hs; cbn [bind index nth_error ret]. rewrite Hsw; cbn [bind].
    rewrite Hsz; cbn [bind]. rewrite Hc; cbn [bind index nth_error ret].
    rewrite Hcw; cbn [bind]. rewrite Ht; cbn [bind]. reflexivity.
Qed.

Lemma iteration_reads_first_matching_lines_witness :
  (exists e, SISSOIteration.from_string Sample.float Sample.block_no_size = inl e)
  /\ (exists e, SISSOIteration.from_string Sample.float Sample.block_no_time = inl e)
  /\ exists model fs,
       SISSOIteration.from_string Sample.float Sample.block_two_sizes
       = inr (SISSOIteration.Build (SISSOModel.dimension model) model
                                   fs 20%Z (3 # 100)%Q).
Proof.
  split; [| split].
  - apply (proj1 (iteration_reads_first_matching_lines
                    Sample.float Sample.block_no_size)).
    vm_compute. reflexivity.
  - apply (proj1 (proj2 (iteration_reads_first_matching_lines
                           Sample.float Sample.block_no_time))).
    vm_compute. reflexivity.
  - eexists; eexists.
    eapply (proj2 (proj2 (iteration_reads_first_matching_lines
                            Sample.float Sample.block_two_sizes)));
      vm_compute; reflexivity.
Defined.

(* ------------------------------------------------------------------ *)
(** ** The completion phrase *)

Module Unfinished.

Lemma nu_inr {A} (a : A) : never_unfinished (inr a : exc A).
Proof. unfold never_unfinished, raises; discriminate. Qed.

Lemma nu_ret {A} (a : A) : never_unfinished (ret a).
Proof. apply nu_inr. Qed.

Lemma nu_raise {A} (e : exn) :
  e <> ValueError MsgUnfinished -> never_unfinished (raise e : exc A).
Proof. unfold never_unfinished, raises, raise; congruence. Qed.

Lemma nu_bind {A B} (c : exc A) (k : A -> exc B) :
  never_unfinished c -> (forall a, never_unfinished (k a)) ->
  never_unfinished (bind c k).
Proof.
  unfold never_unfinished, raises. intros Hc Hk.
  destruct c as [e | a]; simpl; [| apply Hk].
  intros E. apply Hc. congruence.
Qed.

Lemma nu_foldM {A S} (body : S -> A -> exc S) (l : list A) (s : S) :
  (forall s a, never_unfinished (body s a)) ->
  never_unfinished (foldM body l s).
Proof.
  intros H. revert s; induction l as [| x l IH]; intros s; simpl.
  - apply nu_ret.
  - apply nu_bind; [apply H | exact IH].
Qed.

Lemma nu_mapM {A B} (f : A -> exc B) (l : list A) :
  (forall a, never_unfinished (f a)) -> never_unfinished (mapM f l).
Proof.
  intros H. induction l as [| x l IH]; simpl.
  - apply nu_ret.
  - apply nu_bind; [apply H | intros y].
    apply nu_bind; [exact IH | intros ys; apply nu_ret].
Qed.

Lemma nu_index {A} (l : list A) (i : nat) : never_unfinished (index l i).
Proof.
  unfold index. destruct (nth_error l i);
    [apply nu_ret | apply nu_raise; discriminate].
Qed.

Lemma nu_index_last {A} (l : list A) : never_unfinished (index_last l).
Proof.
  unfold index_last. destruct (rev l);
    [apply nu_raise; discriminate | apply nu_ret].
Qed.

Lemma nu_index_last2 {A} (l : list A) : never_unfinished (index_last2 l).
Proof.
  unfold index_last2. destruct (rev l) as [| a [| b r]];
    first [apply nu_ret | apply nu_raise; discriminate].
Qed.

Lemma nu_int (s : str) : never_unfinished (int s).
Proof.
  unfold int.
  match goal with
  | |- never_unfinished (match ?r with _ => _ end) => destruct r
  end; [apply nu_ret | apply nu_raise; discriminate].
Qed.

Lemma nu_findall_line (label s : str) : never_unfinished (Re.findall_line label s).
Proof.
  unfold Re.findall_line. destruct (Re.compile label);
    [apply nu_ret | apply nu_raise; discriminate].
Qed.

(** One step of the analysis of a function body. *)
Ltac nu :=
  repeat first
    [ apply nu_inr | apply nu_ret
    | apply nu_raise; discriminate
    | apply nu_index | apply nu_index_last | apply nu_index_last2
    | apply nu_int | apply nu_findall_line
    | solve [auto]
    | apply nu_bind; [| intro]
    | apply nu_mapM; intro
    | apply nu_foldM; intros
    | match goal with
      | |- never_unfinished (if ?b then _ else _) => destruct b
      | |- never_unfinished (match ?x with _ => _ end) => destruct x
      end ].

Lemma nu_decode (s : str) : never_unfinished (SISSODescriptor._decode_function s).
Proof. unfold SISSODescriptor._decode_function. nu. Qed.

Lemma nu_descriptor (s : str) : never_unfinished (SISSODescriptor.from_string s).
Proof.
  unfold SISSODescriptor.from_string, SISSODescriptor.__init__.
  pose proof nu_decode. nu.
Qed.

Section Parsers.
Variable F : Type.
Variable float : str -> exc F.
Variable value : Type.
Variable convert : SISSOParams.var_type -> str -> exc value.
Hypothesis nu_float : forall s, never_unfinished (float s).
Hypothesis nu_convert : forall ty s, never_unfinished (convert ty s).

Lemma nu_model (s : str) : never_unfinished (SISSOModel.from_string float s).
Proof.
  unfold SISSOModel.from_string. pose proof nu_descriptor.
  nu. unfold SISSOModel.loop_body. nu.
Qed.

Lemma nu_feature_spaces (l : list str) :
  never_unfinished (SISSOIteration.feature_spaces_of l).
Proof. unfold SISSOIteration.feature_spaces_of. nu. Qed.

Lemma nu_iteration (s : str) :
  never_unfinished (SISSOIteration.from_string float s).
Proof.
  unfold SISSOIteration.from_string.
  pose proof nu_model. pose proof nu_feature_spaces. nu.
Qed.

Lemma nu_params (s : str) :
  never_unfinished (SISSOParams.from_string convert s).
Proof.
  unfold SISSOParams.from_string. nu.
  unfold SISSOParams.params_step. nu.
Qed.

Lemma nu_version (s : str) : never_unfinished (SISSOVersion.from_string s).
Proof. unfold SISSOVersion.from_string. nu. Qed.

Lemma nu_parse_report (s : str) :
  never_unfinished (SISSOOut.parse_report float convert s).
Proof.
  unfold SISSOOut.parse_report, SISSOOut.header_lines, Re.search_line.
  pose proof nu_params. pose proof nu_iteration. pose proof nu_version. nu.
Qed.

End Parsers.

End Unfinished.

(** C6: without the completion phrase in the text, [from_file] raises the
    error of the unfinished run when [allow_unfinished] is not given, and
    with [allow_unfinished] it goes on to parse the report, which does not
    raise that error; with the phrase in the text the flag changes
    nothing. *)
Theorem from_file_completion_phrase :
  forall (F : Type) (float : str -> exc F)
         (value : Type) (convert : SISSOParams.var_type -> str -> exc value)
         (string : str),
    (forall s, never_unfinished (float s)) ->
    (forall ty s, never_unfinished (convert ty s)) ->
    (Re.search_literal SISSOOut.completion_phrase string = false ->
     SISSOOut.from_file float convert string false
     = inl (ValueError MsgUnfinished)
     /\ SISSOOut.from_file float convert string true
        = SISSOOut.parse_report float convert string
     /\ never_unfinished (SISSOOut.from_file float convert string true))
    /\ (Re.search_literal SISSOOut.completion_phrase string = true ->
        forall flag,
          SISSOOut.from_file float convert string flag
          = SISSOOut.parse_report float convert string
          /\ never_unfinished (SISSOOut.from_file float convert string flag)).
Proof.
  intros F float value convert string Hf Hc.
  unfold SISSOOut.from_file.
  split; intros H; rewrite H; cbn [negb andb].
  - repeat split. apply Unfinished.nu_parse_report; assumption.
  - intros flag. split; [reflexivity |].
    apply Unfinished.nu_parse_report; assumption.
Qed.

Lemma sample_float_never_unfinished (s : str) : never_unfinished (Sample.float s).
Proof.
  unfold Sample.float. destruct (Sample.decimal (strip_number s));
    [apply Unfinished.nu_ret | apply Unfinished.nu_raise; discriminate].
Qed.

Lemma sample_convert_never_unfinished (ty : SISSOParams.var_type) (s : str) :
  never_unfinished (Sample.convert ty s).
Proof.
  pose proof sample_float_never_unfinished.
  destruct ty; unfold Sample.convert; Unfinished.nu.
Qed.

Lemma from_file_completion_phrase_witness :
  (SISSOOut.from_file Sample.float Sample.convert Sample.report_unfinished false
   = inl (ValueError MsgUnfinished)
   /\ exists out,
        SISSOOut.from_file Sample.float Sample.convert Sample.report_unfinished true
        = inr out)
  /\ forall flag,
       exists out,
         SISSOOut.from_file Sample.float Sample.convert Sample.report flag
         = inr out.
Proof.
  split.
  - destruct (proj1 (from_file_completion_phrase
                       Sample.float Sample.convert Sample.report_unfinished
                       sample_float_never_unfinished
                       sample_convert_never_unfinished))
      as (Hfalse & Htrue & _).
    + vm_compute. reflexivity.
    + split; [exact Hfalse |].
      rewrite Htrue. eexists. vm_compute. reflexivity.
  - intros flag.
    destruct (proj2 (from_file_completion_phrase
                       Sample.float Sample.convert Sample.report
                       sample_float_never_unfinished
                       sample_convert_never_unfinished)
                    ltac:(vm_compute; reflexivity) flag) as (Hflag & _).
    rewrite Hflag. eexists. vm_compute. reflexivity.
Defined.

(* ------------------------------------------------------------------ *)
(** ** Reports without iteration *)

(** C10 as the claim states it fails: the total time of a finished run
    without dimension may not be a number, and then [float] raises; and
    where the run prints no parameter, the parse leaves by the
    [IndexError] of the parameters (the inverted test of C1). *)
Lemma report_without_dimension_may_fail :
  (Re.search_literal SISSOOut.completion_phrase Sample.report_no_total = true
   /\ (exists m, Re.search_line SISSOOut.r_total_time Sample.report_no_total
                 = inr (Some m))
   /\ contains (L "Dimension:") Sample.report_no_total = false
   /\ SISSOOut.from_file Sample.float Sample.convert Sample.report_no_total false
      = inl (ValueError (MsgInvalidFloat (L "n/a"))))
  /\ (Re.search_literal SISSOOut.completion_phrase Sample.report_bare = true
      /\ (exists m, Re.search_line SISSOOut.r_total_time Sample.report_bare
                    = inr (Some m))
      /\ contains (L "Dimension:") Sample.report_bare = false
      /\ SISSOOut.from_file Sample.float Sample.convert Sample.report_bare false
         = inl IndexError).
Proof.
  split; (split; [vm_compute; reflexivity |]);
    (split; [eexists; vm_compute; reflexivity |]);
    split; vm_compute; reflexivity.
Qed.

(** C10 as the code has it: a report with the completion phrase, without
    dimension block, of three lines or more, whose parameters are read
    without error and whose total time is a number, is parsed into a
    result without iteration, and [model] raises [IndexError] on it. *)
Theorem report_without_dimension_block :
  forall (F : Type) (float : str -> exc F)
         (value : Type) (convert : SISSOParams.var_type -> str -> exc value)
         (string : str) (flag : bool)
         (p : SISSOParams.t value) (l1 l2 l3 : str) (rest : list str)
         (m0 word : str) (x : F),
    Re.search_literal SISSOOut.completion_phrase string = true ->
    SISSOParams.from_string convert string = inr p ->
    Re.findall_dimension_blocks string = [] ->
    file_lines string = l1 :: l2 :: l3 :: rest ->
    Re.search_line SISSOOut.r_total_time string = inr (Some m0) ->
    index_last (split_ws m0) = inr word ->
    float word = inr x ->
    exists v,
      SISSOVersion.from_string l3 = inr v
      /\ SISSOOut.from_file float convert string flag
         = inr (SISSOOut.Build p [] v x)
      /\ SISSOOut.iterations (SISSOOut.Build p [] v x)
         = @nil (SISSOIteration.t F)
      /\ SISSOOut.model (SISSOOut.Build p [] v x) = inl IndexError.
Proof.
  intros F float value convert string flag p l1 l2 l3 rest m0 word x
         Hs Hp Hd Hl Ht Hw Hx.
  destruct (version_from_string_total l3) as (first & _ & Hv).
  eexists. split; [exact Hv |].
  split; [| split; reflexivity].
  unfold SISSOOut.from_file. rewrite Hs. cbn [negb andb].
  unfold SISSOOut.parse_report, SISSOOut.header_lines.
  rewrite Hp, Hd, Hl. cbn [bind mapM ret index nth_error].
  rewrite Hv. cbn [bind]. rewrite Ht. cbn [bind]. rewrite Hw. cbn [bind].
  rewrite Hx. reflexivity.
Qed.

Lemma report_without_dimension_block_witness :
  exists v,
    SISSOVersion.from_string (L "  Version SISSO.3.0.2, June, 2020." ++ [newline])
    = inr v
    /\ SISSOOut.from_file Sample.float Sample.convert
                          Sample.report_no_dimension false
       = inr (SISSOOut.Build [] [] v (1005 # 100)%Q)
    /\ SISSOOut.iterations (SISSOOut.Build (value := Sample.value) [] [] v (1005 # 100)%Q)
       = @nil (SISSOIteration.t Q)
    /\ SISSOOut.model (SISSOOut.Build (value := Sample.value) [] [] v (1005 # 100)%Q)
       = inl IndexError.
Proof.
  eapply (report_without_dimension_block
            Sample.float Sample.convert (string := Sample.report_no_dimension));
    vm_compute; reflexivity.
Defined.

(* ------------------------------------------------------------------ *)
(** ** The prediction of a model *)

Module PredictFacts.
Import SISSOModel.

Lemma grid_ext (r T : nat) (f g : nat -> nat -> R) :
  (forall i t, i < r -> t < T -> f i t = g i t) ->
  grid r T f = grid r T g.
Proof.
  intros H. unfold grid. apply map_ext_in. intros i Hi. apply in_seq in Hi.
  apply map_ext_in. intros t Ht. apply in_seq in Ht. apply H; lia.
Qed.

Lemma grid_nth (r T : nat) (f : nat -> nat -> R) (i t : nat) :
  i < r -> t < T -> nth t (nth i (grid r T f) []) 0%R = f i t.
Proof.
  intros Hi Ht. unfold grid.
  rewrite (nth_indep _ [] (map (fun t => f 0 t) (seq 0 T)))
    by (rewrite length_map, length_seq; exact Hi).
  rewrite (map_nth (fun i => map (fun t => f i t) (seq 0 T))), seq_nth by exact Hi.
  rewrite (nth_indep _ 0%R (f i 0))
    by (rewrite length_map, length_seq; exact Ht).
  rewrite (map_nth (fun t => f i t)), seq_nth by exact Ht.
  reflexivity.
Qed.

Lemma map_nth_seq (l : list R) (k : nat) :
  map (fun t => nth t l 0%R) (seq 0 (length l)) = l.
Proof.
  clear k. induction l as [| a l IH]; [reflexivity |].
  cbn [length seq map nth]. f_equal.
  rewrite <- seq_shift, map_map. exact IH.
Qed.

(** The array of the intercepts. *)
Lemma initial_array (r : nat) (intercept : list R) :
  intercept <> [] ->
  transpose (np_array r (map (fun c => repeat c r) intercept))
  = Array2 r (length intercept)
           (grid r (length intercept) (fun _ t => nth t intercept 0%R)).
Proof.
  intros Hne. destruct intercept as [| c0 rest]; [congruence |].
  set (l := c0 :: rest) in *.
  unfold np_array. change (map (fun c => repeat c r) l)
    with (repeat c0 r :: map (fun c => repeat c r) rest).
  cbn [transpose]. rewrite length_cons, length_map.
  change (S (length rest)) with (length l).
  f_equal. unfold grid. apply map_ext_in. intros i Hi. apply in_seq in Hi.
  change (repeat c0 r :: map (fun c => repeat c r) rest)
    with (map (fun c => repeat c r) l).
  rewrite map_map, (map_nth_seq l 0).
  rewrite <- (map_id l) at 2. apply map_ext. intros c.
  apply nth_repeat_lt. lia.
Qed.

Lemma add_at_map_seq (h : nat -> R) (x : R) (T k t0 : nat) :
  add_at t0 x (map h (seq k T))
  = map (fun t => if t =? k + t0 then (h t + x)%R else h t) (seq k T).
Proof.
  revert k t0; induction T as [| T IH]; intros k t0;
    [destruct t0; reflexivity |].
  cbn [seq map]. destruct t0 as [| t0]; cbn [add_at].
  - rewrite Nat.add_0_r, Nat.eqb_refl. f_equal.
    apply map_ext_in. intros t Ht. apply in_seq in Ht.
    destruct (Nat.eqb_spec t k); [lia | reflexivity].
  - destruct (Nat.eqb_spec k (k + S t0)); [lia |]. f_equal.
    rewrite IH. apply map_ext. intros t.
    replace (S k + t0) with (k + S t0) by lia. reflexivity.
Qed.

Lemma combine_map_seq {B} (g : nat -> B) (dval : list R) (r k : nat) :
  length dval = r ->
  combine (map g (seq k r)) dval
  = map (fun i => (g i, nth (i - k) dval 0%R)) (seq k r).
Proof.
  revert k dval; induction r as [| r IH]; intros k dval Hlen; [reflexivity |].
  destruct dval as [| d dval]; [discriminate |].
  cbn [seq map combine]. rewrite Nat.sub_diag. cbn [nth]. f_equal.
  rewrite IH by (simpl in Hlen; lia).
  apply map_ext_in. intros i Hi. apply in_seq in Hi.
  replace (i - k) with (S (i - S k)) by lia. reflexivity.
Qed.

(** [out[:, itask] += dval] on an array given by its entries. *)
Lemma iadd_column_grid (r T : nat) (f : nat -> nat -> R)
      (itask : nat) (dval : list R) :
  itask < T -> length dval = r ->
  iadd_column (Array2 r T (grid r T f)) itask dval
  = inr (Array2 r T
           (grid r T (fun i t => if t =? itask
                                 then (f i t + nth i dval 0)%R else f i t))).
Proof.
  intros Ht Hlen. unfold iadd_column.
  destruct (Nat.leb_spec T itask); [lia |].
  rewrite Hlen, Nat.eqb_refl. unfold ret, grid. do 2 f_equal.
  rewrite (combine_map_seq (fun i => map (fun t => f i t) (seq 0 T)) dval 0 Hlen).
  rewrite map_map. apply map_ext. intros i. cbn [fst snd].
  rewrite Nat.sub_0_r. apply (add_at_map_seq (fun t => f i t)).
Qed.

(** A loop over [enumerate(l)] that keeps an invariant returns. *)
Lemma foldM_enumerate {A St} (body : St -> nat * A -> exc St)
      (P : nat -> St -> Prop) (l : list A) (s0 : St) :
  P 0 s0 ->
  (forall j a s, nth_error l j = Some a -> P j s ->
                 exists s', body s (j, a) = inr s' /\ P (S j) s') ->
  exists s', foldM body (SISSODescriptor.enumerate l) s0 = inr s'
             /\ P (length l) s'.
Proof.
  unfold SISSODescriptor.enumerate.
  assert (G : forall k s,
             P k s ->
             (forall j a s, nth_error l j = Some a -> P (k + j) s ->
                            exists s', body s (k + j, a) = inr s'
                                       /\ P (S (k + j)) s') ->
             exists s', foldM body (combine (seq k (length l)) l) s = inr s'
                        /\ P (k + length l) s').
  { induction l as [| a l IH]; intros k s Hs Hstep.
    - exists s. rewrite Nat.add_0_r. auto.
    - cbn [length seq combine foldM].
      destruct (Hstep 0 a s eq_refl) as (s1 & E1 & P1);
        [rewrite Nat.add_0_r; exact Hs |].
      rewrite Nat.add_0_r in E1, P1. rewrite E1. cbn [bind].
      destruct (IH (S k) s1 P1) as (s' & E' & P').
      + intros j b s2 Hj Hs2.
        replace (S k + j) with (k + S j) in * by lia.
        apply Hstep; assumption.
      + exists s'. split; [exact E' |].
        replace (k + S (length l)) with (S k + length l) by lia. exact P'. }
  intros H0 Hstep. apply (G 0 s0 H0). exact Hstep.
Qed.

Lemma sum_over_S (n : nat) (f : nat -> R) :
  sum_over (S n) f = (sum_over n f + f n)%R.
Proof.
  unfold sum_over. rewrite seq_S, fold_right_app. cbn [fold_right Nat.add].
  generalize (seq 0 n). intros l. induction l as [| d l IH]; cbn [fold_right].
  - ring.
  - rewrite IH. ring.
Qed.

End PredictFacts.

Lemma Forall2_nth_error {A B} (Q : A -> B -> Prop) (l1 : list A) (l2 : list B)
      (j : nat) (a : A) :
  Forall2 Q l1 l2 -> nth_error l1 j = Some a ->
  exists b, nth_error l2 j = Some b /\ Q a b.
Proof.
  intros H. revert j. induction H as [| x y l1 l2 Hxy _ IH]; intros j Hj.
  - destruct j; discriminate.
  - destruct j as [| j]; simpl in *.
    + injection Hj as <-. eauto.
    + apply IH; assumption.
Qed.

(** C5, a model without task: the array of the intercepts has one
    dimension and no element, and [predict] returns it; it is not an
    array of [len df] rows and no column. *)
Lemma predict_without_task_one_dimensional :
  SISSOModel.predict
    {| SISSOModel.dimension := 1;
       SISSOModel.descriptors := [Sample.descriptor];
       SISSOModel.coefficients := [];
       SISSOModel.intercept := [];
       SISSOModel.rmse := None;
       SISSOModel.maxae := None |}
    Sample.table
  = inr (Array1 [])
  /\ forall rows,
      Array1 [] <> Array2 (len Sample.table) 0 rows.
Proof. split; [reflexivity | intros rows; discriminate]. Qed.

(** C5: for a model with at least one task, as many rows of coefficients
    as intercepts, every row as long as the list of descriptors, and a
    table on which every descriptor evaluates to a column of [len df]
    values, [predict] returns the array of [len df] rows and one column
    per task whose entry of row [i] and task [t] is the intercept of [t]
    plus the sum over the descriptors of coefficient times value. *)
Theorem predict_linear_combination :
  forall (self : SISSOModel.t R) (df : DataFrame) (values : list (list R)),
    SISSOModel.intercept self <> [] ->
    length (SISSOModel.coefficients self) = length (SISSOModel.intercept self) ->
    Forall (fun row => length row = length (SISSOModel.descriptors self))
           (SISSOModel.coefficients self) ->
    Forall2 (fun d v =>
               SISSODescriptor.evaluate d df = inr (Evaluation.VSeries v)
               /\ length v = len df)
            (SISSOModel.descriptors self) values ->
    exists rows,
      SISSOModel.predict self df
      = inr (Array2 (len df) (length (SISSOModel.intercept self)) rows)
      /\ length rows = len df
      /\ Forall (fun row => length row = length (SISSOModel.intercept self)) rows
      /\ forall i t,
          i < len df -> t < length (SISSOModel.intercept self) ->
          nth t (nth i rows []) 0%R = SISSOModel.spec_prediction self values i t.
Proof.
  intros self df values Hne Hlen Hrows Hvals.
  set (r := len df) in *.
  set (T := length (SISSOModel.intercept self)) in *.
  set (n := length (SISSOModel.descriptors self)) in *.
  set (term := fun (i t d : nat) =>
                 (nth d (nth t (SISSOModel.coefficients self) []) 0
                  * nth i (nth d values []) 0)%R).
  set (partial := fun (k i t : nat) =>
                    (nth t (SISSOModel.intercept self) 0
                     + SISSOModel.sum_over k (term i t))%R).
  unfold SISSOModel.predict. fold r.
  rewrite PredictFacts.initial_array by exact Hne. fold T.
  destruct (PredictFacts.foldM_enumerate
              (fun out '(idescr, descr) =>
                 foldM (fun out0 '(itask, coeffs) =>
                          c <- index coeffs idescr ;;
                          v <- SISSODescriptor.evaluate descr df ;;
                          dval <- SISSOModel.scale c v ;;
                          SISSOModel.iadd_column out0 itask dval)
                       (SISSODescriptor.enumerate (SISSOModel.coefficients self))
                       out)
              (fun k out => out = Array2 r T (SISSOModel.grid r T (partial k)))
              (SISSOModel.descriptors self)
              (Array2 r T (SISSOModel.grid r T
                             (fun _ t => nth t (SISSOModel.intercept self) 0%R))))
    as (out & Eout & Pout).
  - f_equal. apply PredictFacts.grid_ext. intros i t _ _.
    unfold partial, SISSOModel.sum_over. simpl. ring.
  - intros j descr out0 Hj ->.
    assert (Hjn : j < n) by (apply nth_error_Some; congruence).
    destruct (Forall2_nth_error _ Hvals Hj) as (v & Hv & Hev & Hvlen).
    assert (Hnv : nth j values [] = v) by (apply nth_error_nth; exact Hv).
    destruct (PredictFacts.foldM_enumerate
                (fun out0 '(itask, coeffs) =>
                   c <- index coeffs j ;;
                   v <- SISSODescriptor.evaluate descr df ;;
                   dval <- SISSOModel.scale c v ;;
                   SISSOModel.iadd_column out0 itask dval)
                (fun m out =>
                   out = Array2 r T
                           (SISSOModel.grid r T
                              (fun i t => if t <? m then partial (S j) i t
                                          else partial j i t)))
                (SISSOModel.coefficients self)
                (Array2 r T (SISSOModel.grid r T (partial j))))
      as (out1 & Eout1 & Pout1).
    + reflexivity.
    + intros m coeffs out1 Hm ->.
      assert (HmT : m < T).
      { rewrite <- Hlen. apply nth_error_Some. congruence. }
      assert (Hcl : length coeffs = n).
      { rewrite Forall_forall in Hrows. apply Hrows.
        eapply nth_error_In; exact Hm. }
      assert (Hc : index coeffs j = inr (nth j coeffs 0%R)).
      { unfold index. destruct (nth_error coeffs j) as [c |] eqn:E.
        - rewrite (nth_error_nth _ _ _ E). reflexivity.
        - apply nth_error_None in E. lia. }
      rewrite Hc, Hev. cbn [bind SISSOModel.scale ret].
      rewrite PredictFacts.iadd_column_grid;
        [| exact HmT | rewrite length_map; exact Hvlen].
      eexists. split; [reflexivity |].
      f_equal. apply PredictFacts.grid_ext. intros i t Hi Ht.
      destruct (Nat.eqb_spec t m) as [-> | Hneq].
      * destruct (Nat.ltb_spec m m); [lia |].
        destruct (Nat.ltb_spec m (S m)); [| lia].
        unfold partial. rewrite PredictFacts.sum_over_S. unfold term at 3.
        rewrite (nth_error_nth _ _ [] Hm), Hnv.
        assert (Hnth : nth i (map (fun x => (nth j coeffs 0 * x)%R) v) 0%R
                       = (nth j coeffs 0 * nth i v 0)%R).
        { rewrite (nth_indep _ 0%R (nth j coeffs 0 * 0)%R)
            by (rewrite length_map; lia).
          apply (map_nth (fun x => (nth j coeffs 0 * x)%R)). }
        rewrite Hnth. ring.
      * destruct (Nat.ltb_spec t m), (Nat.ltb_spec t (S m));
          first [reflexivity | lia].
    + exists out1. split; [exact Eout1 |].
      rewrite Pout1. f_equal. apply PredictFacts.grid_ext. intros i t Hi Ht.
      rewrite Hlen. destruct (Nat.ltb_spec t T); [reflexivity | lia].
  - exists (SISSOModel.grid r T (partial n)).
    split; [rewrite Eout, Pout; reflexivity |].
    split; [unfold SISSOModel.grid; rewrite length_map, length_seq; reflexivity |].
    split.
    + unfold SISSOModel.grid. apply Forall_forall. intros row Hrow.
      apply in_map_iff in Hrow as (i & <- & _).
      rewrite length_map, length_seq. reflexivity.
    + intros i t Hi Ht. rewrite PredictFacts.grid_nth by assumption.
      reflexivity.
Qed.

Lemma sample_descriptor_decoded :
  SISSODescriptor.__init__ 1 (L "((f1-f2)+(f3-f4))") = inr Sample.descriptor.
Proof. reflexivity. Qed.

Lemma sample_descriptor_evaluates :
  SISSODescriptor.evaluate Sample.descriptor Sample.table
  = inr (Evaluation.VSeries [((5 - 2) + (9 - 1))%R; ((1 - 1) + (4 - 2))%R]).
Proof.
  unfold SISSODescriptor.evaluate, Evaluation.eval_string.
  replace (Py.parse_string (SISSODescriptor.self_evalstring Sample.descriptor))
    with (Some (Py.BinOp Py.Add
                  (Py.BinOp Py.Sub (Py.Subscript (Py.Name (L "df")) (Py.Str (L "f1")))
                                   (Py.Subscript (Py.Name (L "df")) (Py.Str (L "f2"))))
                  (Py.BinOp Py.Sub (Py.Subscript (Py.Name (L "df")) (Py.Str (L "f3")))
                                   (Py.Subscript (Py.Name (L "df")) (Py.Str (L "f4"))))))
    by (vm_compute; reflexivity).
  reflexivity.
Qed.

Lemma predict_linear_combination_witness :
  exists rows,
    SISSOModel.predict Sample.model Sample.table = inr (Array2 2 2 rows)
    /\ length rows = 2
    /\ Forall (fun row => length row = 2) rows
    /\ forall i t,
        i < 2 -> t < 2 ->
        nth t (nth i rows []) 0%R
        = SISSOModel.spec_prediction
            Sample.model [[((5 - 2) + (9 - 1))%R; ((1 - 1) + (4 - 2))%R]] i t.
Proof.
  apply (predict_linear_combination Sample.model Sample.table
           (values := [[((5 - 2) + (9 - 1))%R; ((1 - 1) + (4 - 2))%R]])).
  - discriminate.
  - reflexivity.
  - repeat constructor.
  - constructor; [split; [apply sample_descriptor_evaluates | reflexivity]
                 | constructor].
Defined.

(* ------------------------------------------------------------------ *)
(** ** Replacements in the text of a term *)

Module ReplaceFacts.
Import Formula.

Lemma settled_sound (P : ascii -> bool) (p v R : str) :
  settled P p v = true -> begins P R = true ->
  startswith p (v ++ R) = startswith p v.
Proof.
  revert v; induction p as [| a p IH]; intros v Hs HR; [reflexivity |].
  destruct v as [| b v]; cbn [app startswith settled] in *.
  - destruct R as [| c R]; [reflexivity |]. cbn [begins] in HR.
    destruct (Ascii.eqb_spec a c) as [-> | _]; [| reflexivity].
    rewrite HR in Hs. discriminate.
  - destruct (Ascii.eqb a b); [| reflexivity]. cbn [andb]. auto.
Qed.

Lemma no_straddle_suffix (P : ascii -> bool) (p u s : str) :
  no_straddle P p (u ++ s) = true -> no_straddle P p s = true.
Proof.
  induction u as [| c u IH]; [auto |]. cbn [app no_straddle].
  intros H. apply andb_true_iff in H as [_ H]. auto.
Qed.

(** A replacement acts on the two parts of a text apart when no
    occurrence of the pattern begins in the first and ends in the
    second. *)
Lemma replace_app (P : ascii -> bool) (old new s1 s2 : str) :
  old <> [] ->
  no_straddle P old s1 = true -> begins P s2 = true ->
  replace old new (s1 ++ s2) = replace old new s1 ++ replace old new s2.
Proof.
  intros Hne. remember (length s1) as n eqn:Hn.
  revert s1 Hn; induction n as [n IH] using lt_wf_ind; intros s1 Hn Hs H2.
  destruct s1 as [| c s1].
  - rewrite (@replace_nil old new Hne). reflexivity.
  - pose proof Hs as Hs'. cbn [no_straddle] in Hs'.
    apply andb_true_iff in Hs' as [Hset Hrest].
    pose proof (@settled_sound P old (c :: s1) s2 Hset H2) as E.
    destruct (startswith old (c :: s1)) eqn:Hm.
    + destruct (startswith_inv _ _ Hm) as [t Ht].
      destruct old as [| a old]; [congruence |].
      rewrite Ht, <- app_assoc, !replace_match, <- app_assoc. f_equal.
      apply (IH (length t)); [| reflexivity | | exact H2].
      * rewrite Hn, Ht, length_app. simpl. lia.
      * rewrite Ht in Hs. apply (@no_straddle_suffix P (a :: old) (a :: old) t Hs).
    + change ((c :: s1) ++ s2) with (c :: (s1 ++ s2)) in *.
      rewrite !replace_nomatch by assumption.
      cbn [app]. f_equal.
      apply (IH (length s1)); [rewrite Hn; simpl; lia | reflexivity | | exact H2].
      exact Hrest.
Qed.

Lemma clear_of_names_sound (p u R : str) :
  clear_of_names p = true ->
  Forall (fun c => special c = false) u ->
  begins is_follow R = true ->
  startswith p (u ++ R) = false.
Proof.
  revert u; induction p as [| a p IH]; intros u Hp Hu HR; [discriminate |].
  cbn [clear_of_names] in Hp. apply andb_true_iff in Hp as [Ha Hp].
  apply negb_true_iff in Ha.
  destruct u as [| b u]; cbn [app].
  - destruct R as [| c R]; [reflexivity |]. cbn [begins] in HR.
    cbn [startswith].
    destruct (Ascii.eqb_spec a c) as [-> | _]; [congruence | reflexivity].
  - inversion Hu as [| ? ? Hb Hu']; subst. cbn [startswith].
    destruct (Ascii.eqb_spec a b) as [-> | _]; [| reflexivity].
    cbn [andb]. rewrite Hb in Hp. cbn [orb] in Hp. auto.
Qed.

Lemma name_no_match (old u R : str) :
  name_free old = true -> u <> [] ->
  Forall (fun c => special c = false) u ->
  begins is_follow R = true ->
  startswith old (u ++ R) = false.
Proof.
  intros Hf Hne Hu HR.
  destruct old as [| a p]; [discriminate |].
  cbn [name_free] in Hf. apply orb_true_iff in Hf as [Ha | Hc].
  - destruct u as [| b u]; [congruence |].
    inversion Hu as [| ? ? Hb _]; subst. cbn [app startswith].
    destruct (Ascii.eqb_spec a b) as [-> | _]; [congruence | reflexivity].
  - apply clear_of_names_sound; assumption.
Qed.

(** A replacement leaves a feature name as it is. *)
Lemma replace_name (old new u R : str) :
  name_free old = true ->
  Forall (fun c => special c = false) u ->
  begins is_follow R = true ->
  replace old new (u ++ R) = u ++ replace old new R.
Proof.
  intros Hf Hu HR. assert (Hne : old <> []) by (destruct old; discriminate).
  induction Hu as [| b u Hb Hu IH]; [reflexivity |].
  cbn [app]. rewrite replace_nomatch; [f_equal; exact IH | exact Hne |].
  apply (@name_no_match old (b :: u) R); try assumption; try discriminate.
  constructor; assumption.
Qed.

Lemma begins_with_begins (P : ascii -> bool) (R : str) :
  begins_with P R = true -> begins P R = true.
Proof. destruct R; [discriminate | auto]. Qed.

Lemma begins_with_app (P : ascii -> bool) (s R : str) :
  begins_with P s = true -> begins_with P (s ++ R) = true.
Proof. destruct s; [discriminate | auto]. Qed.

Lemma begins_app (P : ascii -> bool) (s R : str) :
  begins P s = true -> begins P R = true -> begins P (s ++ R) = true.
Proof. destruct s; auto. Qed.

Section Stage.
Variables (old new : str) (tf : token -> str) (pre post : str).
Hypothesis Hstage : stage_ok old new tf pre post = true.

Let nf (name : str) : str := pre ++ name ++ post.

Lemma stage_facts :
  old <> [] /\ name_free old = true
  /\ (forall k,
         no_straddle (if closing k then is_follow else is_open) old (tf k) = true
         /\ begins_with (if opening k then is_open else is_follow) (tf k) = true)
  /\ no_straddle (fun c => negb (special c)) old pre = true
  /\ replace old new pre = pre
  /\ begins is_open pre = true
  /\ no_straddle is_follow old post = true
  /\ replace old new post = post
  /\ begins is_follow post = true.
Proof.
  unfold stage_ok in Hstage.
  repeat (apply andb_true_iff in Hstage as [Hstage ?]).
  repeat split; try assumption.
  - intros E. rewrite E in Hstage. discriminate.
  - match goal with H : forallb _ _ = true |- _ =>
      rewrite forallb_forall in H; specialize (H k);
      apply andb_true_iff in H; [apply H |]
    end.
    destruct k; simpl; tauto.
  - match goal with H : forallb _ _ = true |- _ =>
      rewrite forallb_forall in H; specialize (H k);
      apply andb_true_iff in H; [apply H |]
    end.
    destruct k; simpl; tauto.
  - match goal with H : str_eqb (replace old new pre) pre = true |- _ =>
      unfold str_eqb in H;
      destruct (list_eq_dec ascii_dec (replace old new pre) pre);
      [assumption | discriminate]
    end.
  - match goal with H : str_eqb (replace old new post) post = true |- _ =>
      unfold str_eqb in H;
      destruct (list_eq_dec ascii_dec (replace old new post) post);
      [assumption | discriminate]
    end.
Qed.

(** The replacement on a token followed by what may follow it. *)
Lemma replace_token (k : token) (X : str) :
  after k X = true ->
  replace old new (tf k ++ X) = replace old new (tf k) ++ replace old new X.
Proof.
  destruct stage_facts as (Hne & _ & Htok & _).
  destruct (Htok k) as [Hk _]. unfold after.
  destruct (closing k); intros HX.
  - eapply replace_app; eassumption.
  - eapply replace_app; [exact Hne | exact Hk |].
    apply begins_with_begins; exact HX.
Qed.

(** The replacement on a feature name as [nf] writes it. *)
Lemma replace_written_name (name R : str) :
  name_ok name -> begins is_follow R = true ->
  replace old new (nf name ++ R) = nf name ++ replace old new R.
Proof.
  intros [Hne Hname] HR.
  destruct stage_facts
    as (Hold & Hfree & _ & Hpre & Epre & _ & Hpost & Epost & Bpost).
  unfold nf. rewrite <- !app_assoc.
  rewrite (@replace_app (fun c => negb (special c)) old new
                        pre (name ++ post ++ R) Hold Hpre).
  - rewrite Epre. f_equal.
    rewrite (@replace_name old new name (post ++ R) Hfree Hname).
    + f_equal.
      rewrite (@replace_app is_follow old new post R Hold Hpost HR).
      rewrite Epost. reflexivity.
    + apply begins_app; assumption.
  - destruct name as [| b name]; [congruence |].
    inversion Hname as [| ? ? Hb _]; subst. cbn. rewrite Hb. reflexivity.
Qed.

Lemma name_begins_open (name X : str) :
  name_ok name -> begins_with is_open (nf name ++ X) = true.
Proof.
  intros [Hne Hname].
  destruct stage_facts as (_ & _ & _ & _ & _ & Bpre & _).
  unfold nf. destruct pre as [| c p]; [| exact Bpre].
  destruct name as [| b name]; [congruence |].
  inversion Hname as [| ? ? Hb _]; subst. cbn. unfold is_open.
  rewrite Hb. reflexivity.
Qed.

Lemma token_begins (k : token) (X : str) :
  begins_with (if opening k then is_open else is_follow) (tf k ++ X) = true.
Proof.
  destruct stage_facts as (_ & _ & Htok & _).
  destruct (Htok k) as [_ Hk]. apply begins_with_app; exact Hk.
Qed.

(** The text of a term begins as a term may. *)
Lemma write_begins_open (e : t) (X : str) :
  names_ok e -> begins_with is_open (write_with tf nf e ++ X) = true.
Proof.
  intros Hn. destruct e; cbn [write_with]; rewrite <- ?app_assoc.
  - inversion Hn; subst. apply name_begins_open; assumption.
  - apply (token_begins K_open).
  - pose proof (token_begins (unary_token f)) as H.
    destruct f; apply H.
  - apply (token_begins K_exp_minus).
  - apply (token_begins K_abs).
  - apply (token_begins K_open).
Qed.

Lemma names_ok_app (a b : t) :
  Forall name_ok (features a ++ features b) -> names_ok a /\ names_ok b.
Proof. intros H. apply Forall_app in H. exact H. Qed.

(** One replacement acts on the text of a term token by token, and
    leaves the names. *)
Lemma replace_write (e : t) (R : str) :
  names_ok e -> begins is_follow R = true ->
  replace old new (write_with tf nf e ++ R)
  = write_with (fun k => replace old new (tf k)) nf e ++ replace old new R.
Proof.
  revert R; induction e as [name | op a IHa b IHb | f a IHa | a IHa
                            | a IHa b IHb | p a IHa];
    intros R Hn HR; cbn [write_with]; rewrite <- ?app_assoc.
  - inversion Hn; subst. apply replace_written_name; assumption.
  - apply names_ok_app in Hn as [Ha Hb].
    rewrite replace_token by (apply write_begins_open; exact Ha). f_equal.
    rewrite IHa; [f_equal | exact Ha |].
    + rewrite replace_token.
      * f_equal. rewrite IHb; [f_equal | exact Hb |].
        -- apply replace_token. exact HR.
        -- apply begins_with_begins. apply (token_begins K_close).
      * pose proof (@write_begins_open b) as H.
        destruct op; apply H; exact Hb.
    + apply begins_with_begins.
      pose proof (token_begins (binary_token op)) as H. destruct op; apply H.
  - rewrite replace_token.
    + f_equal. rewrite IHa; [f_equal | exact Hn |].
      * apply replace_token. exact HR.
      * apply begins_with_begins. apply (token_begins K_close).
    + pose proof (@write_begins_open a) as H. destruct f; apply H; exact Hn.
  - rewrite replace_token by (apply write_begins_open; exact Hn). f_equal.
    rewrite IHa; [f_equal | exact Hn |].
    + apply replace_token. exact HR.
    + apply begins_with_begins. apply (token_begins K_close).
  - apply names_ok_app in Hn as [Ha Hb].
    rewrite replace_token by (apply write_begins_open; exact Ha). f_equal.
    rewrite IHa; [f_equal | exact Ha |].
    + rewrite replace_token by (apply write_begins_open; exact Hb).
      f_equal. rewrite IHb; [f_equal | exact Hb |].
      * apply replace_token. exact HR.
      * apply begins_with_begins. apply (token_begins K_close).
    + apply begins_with_begins. apply (token_begins K_minus).
  - rewrite replace_token by (apply write_begins_open; exact Hn). f_equal.
    rewrite IHa; [f_equal | exact Hn |].
    + apply replace_token. destruct p; exact HR.
    + apply begins_with_begins.
      pose proof (token_begins (power_token p)) as H. destruct p; apply H.
Qed.

End Stage.

(** Replacements made one after the other act token by token. *)
Lemma replace_all_write (ops : list (str * str)) (tf : token -> str)
      (pre post : str) (e : t) :
  stages_ok ops tf pre post = true -> names_ok e ->
  replace_all ops (write_with tf (fun name => pre ++ name ++ post) e)
  = write_with (fun k => replace_all ops (tf k))
               (fun name => pre ++ name ++ post) e.
Proof.
  revert tf; induction ops as [| [old new] ops IH]; intros tf Hs Hn.
  - reflexivity.
  - cbn [stages_ok] in Hs. apply andb_true_iff in Hs as [H1 H2].
    unfold replace_all in *. cbn [fold_left fst snd].
    pose proof (@replace_write old new tf pre post H1 e [] Hn eq_refl) as E.
    rewrite app_nil_r in E. rewrite E.
    destruct (@stage_facts old new tf pre post H1) as (Hne & _).
    rewrite (@replace_nil old new Hne), app_nil_r.
    apply (IH (fun k => replace old new (tf k)) H2 Hn).
Qed.

End ReplaceFacts.

Module TextFacts.
Import Formula Decoded.

Lemma write_with_ext (tf tf' : token -> str) (nf nf' : str -> str) (e : t) :
  (forall k, tf k = tf' k) -> (forall name, nf name = nf' name) ->
  write_with tf nf e = write_with tf' nf' e.
Proof.
  intros Ht Hn. induction e; cbn [write_with];
    rewrite ?Ht, ?Hn, ?IHe, ?IHe1, ?IHe2; reflexivity.
Qed.

(** The marker runs take the place of the tokens of a term, and of
    nothing else. *)
Lemma replace_operators_write (e : t) :
  names_ok e ->
  SISSODescriptor.replace_operators (write e)
  = write_with masked (fun name => name) e.
Proof.
  intros Hn.
  change (SISSODescriptor.replace_operators (write e))
    with (replace_all
            (map (fun op => (op, repeat SISSODescriptor.hash (length op)))
                 SISSODescriptor.OPERATORS_REPLACEMENT)
            (write e)).
  unfold write.
  rewrite (@write_with_ext spelling spelling (fun name => name)
                           (fun name => [] ++ name ++ []) e)
    by (intros; cbn [app]; rewrite ?app_nil_r; reflexivity).
  rewrite ReplaceFacts.replace_all_write; [| vm_compute; reflexivity | exact Hn].
  apply write_with_ext.
  - intros k. destruct k; vm_compute; reflexivity.
  - intros name. cbn [app]. apply app_nil_r.
Qed.

(** The translation into numpy's spellings acts on the tokens of the
    rebuilt string, and leaves the column references. *)
Lemma numpy_operators_write (e : t) :
  names_ok e ->
  SISSODescriptor.numpy_operators (write_with spelling df_item e) = py_write e.
Proof.
  intros Hn.
  change (SISSODescriptor.numpy_operators (write_with spelling df_item e))
    with (replace_all SISSODescriptor.numpy_replacements
                      (write_with spelling
                                  (fun name => L "df['" ++ name ++ L "']") e)).
  rewrite ReplaceFacts.replace_all_write; [| vm_compute; reflexivity | exact Hn].
  reflexivity.
Qed.

End TextFacts.

(* ------------------------------------------------------------------ *)
(** ** The feature names found by the decoder *)

Module ScanFacts.
Import Formula Decoded SISSODescriptor.

Lemma write_pieces (tf : token -> str) (nf : str -> str) (e : Formula.t) :
  write_with tf nf e = pieces_text tf nf (pieces e).
Proof.
  unfold pieces_text.
  induction e; cbn [write_with pieces flat_map piece_text];
    rewrite ?flat_map_app; cbn [flat_map piece_text];
    rewrite ?flat_map_app; cbn [flat_map piece_text];
    rewrite ?app_nil_r, <- ?IHe, <- ?IHe1, <- ?IHe2; reflexivity.
Qed.

Lemma separated_app (e : Formula.t) (k : token) (rest : list piece) :
  separated (pieces e ++ PToken k :: rest) = separated rest.
Proof.
  revert k rest.
  induction e as [name | op a IHa b IHb | f a IHa | a IHa
                  | a IHa b IHb | p a IHa];
    intros k rest;
    repeat (cbn [pieces app separated]; rewrite <- ?app_assoc;
            rewrite ?IHa, ?IHb);
    reflexivity.
Qed.

Lemma separated_pieces (e : Formula.t) :
  wrapped e = true -> separated (pieces e) = true.
Proof.
  destruct e; intros H; try discriminate;
    repeat (cbn [pieces app separated]; rewrite <- ?app_assoc;
            rewrite ?separated_app);
    reflexivity.
Qed.

Lemma combine_seq_app {A} (l1 l2 : list A) (k : nat) :
  combine (seq k (length (l1 ++ l2))) (l1 ++ l2)
  = combine (seq k (length l1)) l1
            ++ combine (seq (k + length l1) (length l2)) l2.
Proof.
  revert k; induction l1 as [| a l1 IH]; intros k.
  - cbn. rewrite Nat.add_0_r. reflexivity.
  - cbn [length app seq combine]. f_equal. rewrite IH.
    replace (S k + length l1) with (k + S (length l1)) by lia. reflexivity.
Qed.

Lemma masked_length (k : token) : length (masked k) = length (spelling k).
Proof. apply repeat_length. Qed.

Lemma masked_cons (k : token) :
  masked k = hash :: repeat hash (length (spelling k) - 1).
Proof. destruct k; reflexivity. Qed.

Lemma not_special_not_hash (c : ascii) :
  special c = false -> Ascii.eqb c hash = false.
Proof.
  intros H. destruct (Ascii.eqb_spec c hash) as [-> | _]; [| reflexivity].
  vm_compute in H. discriminate.
Qed.

(** Inside a feature name the scan changes nothing. *)
Lemma scan_inside_name (r : str) (l : list (nat * ascii)) (st : scan_state) :
  Forall (fun ic => special (snd ic) = false) l ->
  in_feature_word st = true ->
  fold_left (scan_step r) l st = st.
Proof.
  intros Hl Hst. induction Hl as [| [i c] l Hc _ IH]; [reflexivity |].
  cbn [fold_left]. cbn [snd] in Hc.
  replace (scan_step r st (i, c)) with st; [exact IH |].
  unfold scan_step. rewrite Hst, (not_special_not_hash _ Hc). reflexivity.
Qed.

Lemma slice_middle (pre s post : str) :
  slice (length pre) (length pre + length s) (pre ++ s ++ post) = s.
Proof.
  unfold slice. rewrite skipn_app, skipn_all, Nat.sub_diag. cbn [skipn app].
  replace (length pre + length s - length pre) with (length s + 0) by lia.
  rewrite firstn_app_2. cbn [firstn]. apply app_nil_r.
Qed.

Section Scan.
Variable r : str.

(** The scan of the pieces that follow [pre] in the replaced string, from
    a state outside a feature name, or inside the name that the pieces
    end. *)
Lemma scan_pieces (ps : list piece) :
  forall (pre post : str) (st : scan_state),
    r = pre ++ pieces_text masked (fun name => name) ps ++ post ->
    separated ps = true ->
    Forall (fun p => match p with
                     | PName name => name_ok name
                     | PToken _ => True
                     end) ps ->
    let run := fold_left (scan_step r)
                 (combine (seq (length pre)
                               (length (pieces_text masked (fun name => name) ps)))
                          (pieces_text masked (fun name => name) ps)) st in
    (in_feature_word st = false ->
     in_feature_word run = false
     /\ scan_features run = scan_features st ++ occurrences (length pre) ps)
    /\ (forall k0 k,
           in_feature_word st = true -> ichar_start st = Some k0 ->
           ps = PToken k :: tl ps ->
           in_feature_word run = false
           /\ scan_features run
              = scan_features st
                  ++ {| featname := slice k0 (length pre) r;
                        istart := k0; iend := length pre |}
                  :: occurrences (length pre) ps).
Proof.
  unfold pieces_text.
  induction ps as [| p ps IH]; intros pre post st Hr Hsep Hnames.
  - cbn. split; [intros H; rewrite app_nil_r; auto | intros; discriminate].
  - apply Forall_cons_iff in Hnames as [Hp Hnames'].
    destruct p as [k | name].
    + (* a token *)
      cbn [flat_map piece_text]. rewrite combine_seq_app, fold_left_app.
      cbn [separated] in Hsep.
      assert (Hr' : r = (pre ++ masked k)
                          ++ flat_map (piece_text masked (fun name => name)) ps
                          ++ post).
      { rewrite Hr. cbn [flat_map piece_text]. rewrite <- !app_assoc.
        reflexivity. }
      assert (Hlen : length pre + length (masked k) = length (pre ++ masked k))
        by (rewrite length_app; reflexivity).
      rewrite Hlen.
      assert (Hocc : occurrences (length pre) (PToken k :: ps)
                     = occurrences (length (pre ++ masked k)) ps).
      { cbn [occurrences]. rewrite length_app, masked_length. reflexivity. }
      rewrite Hocc.
      split.
      * intros Hst.
        assert (Hm : fold_left (scan_step r)
                       (combine (seq (length pre) (length (masked k))) (masked k))
                       st = st).
        { apply DecoderFacts.scan_no_feature; [| exact Hst].
          generalize (length pre). unfold masked.
          induction (length (spelling k)) as [| n IHn]; intros m;
            cbn [repeat length seq combine]; constructor; auto. }
        rewrite Hm.
        apply (proj1 (IH _ post st Hr' Hsep Hnames')); exact Hst.
      * intros k0 k' Hst Hk0 _.
        set (st1 := scan_step r st (length pre, hash)).
        assert (E1 : in_feature_word st1 = false
                     /\ scan_features st1
                        = scan_features st
                            ++ [{| featname := slice k0 (length pre) r;
                                   istart := k0; iend := length pre |}]).
        { unfold st1, scan_step. rewrite Hst, Hk0. cbn. auto. }
        destruct E1 as [Hw1 Hf1].
        assert (Hm : fold_left (scan_step r)
                       (combine (seq (length pre) (length (masked k))) (masked k))
                       st = st1).
        { rewrite masked_cons. cbn [length seq combine fold_left]. fold st1.
          apply DecoderFacts.scan_no_feature; [| exact Hw1].
          generalize (S (length pre)).
          induction (length (spelling k) - 1) as [| n IHn]; intros m;
            cbn [repeat length seq combine]; constructor; auto. }
        rewrite Hm.
        destruct (IH _ post st1 Hr' Hsep Hnames') as [HA _].
        destruct (HA Hw1) as [Hw Hf]. split; [exact Hw |].
        rewrite Hf, Hf1, <- app_assoc. reflexivity.
    + (* a feature name *)
      cbn [separated] in Hsep.
      destruct ps as [| [k |] ps]; try discriminate.
      split; [| intros; discriminate].
      intros Hst.
      destruct Hp as [Hne Hname].
      destruct name as [| b name]; [congruence |].
      apply Forall_cons_iff in Hname as [Hb Hname'].
      cbn [flat_map piece_text] in *.
      rewrite combine_seq_app, fold_left_app.
      cbn [length seq combine fold_left].
      set (st1 := scan_step r st (length pre, b)).
      assert (E1 : in_feature_word st1 = true
                   /\ ichar_start st1 = Some (length pre)
                   /\ scan_features st1 = scan_features st).
      { unfold st1, scan_step.
        rewrite Hst, (not_special_not_hash _ Hb). cbn. auto. }
      destruct E1 as (Hw1 & Hs1 & Hf1).
      assert (Hm : fold_left (scan_step r)
                     (combine (seq (S (length pre)) (length name)) name) st1
                   = st1).
      { apply scan_inside_name; [| exact Hw1].
        clear - Hname'. generalize (S (length pre)).
        induction Hname' as [| c name Hc _ IHn]; intros m;
          cbn [length seq combine]; constructor; auto. }
      rewrite Hm.
      assert (Hr' : r = (pre ++ b :: name)
                            ++ flat_map (piece_text masked (fun n => n))
                                        (PToken k :: ps)
                            ++ post).
        { rewrite Hr. cbn [flat_map piece_text]. rewrite <- !app_assoc.
          reflexivity. }
        assert (Hlen : length pre + S (length name)
                       = length (pre ++ b :: name))
          by (rewrite length_app; reflexivity).
        rewrite Hlen.
        destruct (IH _ post st1 Hr' Hsep Hnames') as [_ HB].
        destruct (HB (length pre) k Hw1 Hs1 eq_refl) as [Hw Hf].
        split; [exact Hw |]. rewrite Hf, Hf1. f_equal.
        cbn [occurrences]. rewrite <- Hlen. cbn [length]. f_equal.
        f_equal.
        -- rewrite Hr, Hlen.
           replace (length (pre ++ b :: name))
             with (length pre + length (b :: name))
             by (rewrite length_app; reflexivity).
           rewrite <- app_assoc. apply slice_middle.
Qed.

End Scan.

(** The occurrences that the decoder finds in the replaced string of a
    term are those of its feature names. *)
Lemma scan_write (e : Formula.t) :
  wrapped e = true -> names_ok e ->
  scan_features (scan (write_with masked (fun name => name) e))
  = occurrences 0 (pieces e).
Proof.
  intros Hw Hn. rewrite write_pieces. unfold scan, enumerate.
  pose proof (@scan_pieces (pieces_text masked (fun name => name) (pieces e))
                           (pieces e) [] []
                           {| in_feature_word := false; ichar_start := None;
                              scan_inputs := []; scan_features := [] |}) as H.
  cbn [app length] in H. rewrite app_nil_r in H.
  destruct H as [HA _].
  - reflexivity.
  - apply separated_pieces; exact Hw.
  - clear Hw. unfold names_ok in Hn.
    induction e; cbn [pieces features] in *;
      repeat first
        [ apply Forall_cons | apply Forall_app; split | apply Forall_nil
        | exact I ];
      try (inversion Hn; assumption);
      try (apply Forall_app in Hn; destruct Hn; auto);
      auto.
  - apply HA. reflexivity.
Qed.

End ScanFacts.

(* ------------------------------------------------------------------ *)
(** ** The string rebuilt around the feature names *)

Module RebuildFacts.
Import Formula Decoded SISSODescriptor.

(** The rebuilding loop over the occurrences of the pieces that follow
    [pre] in the string. *)
Lemma rebuild_pieces (string : str) (ps : list piece) :
  forall (pre : str) (prev_ichar : option nat) (out : list str),
    string = pre ++ pieces_text spelling (fun name => name) ps ->
    from prev_ichar <= length pre ->
    (let (prev', out') :=
       fold_left (rebuild_step string) (occurrences (length pre) ps)
                 (prev_ichar, out) in
     concat (out' ++ [skipn (from prev') string]))
    = concat out ++ skipn (from prev_ichar) pre
        ++ pieces_text spelling df_item ps.
Proof.
  unfold pieces_text.
  induction ps as [| [k | name] ps IH]; intros pre prev_ichar out Hs Hle.
  - cbn [occurrences fold_left flat_map] in *. rewrite app_nil_r in *.
    rewrite concat_app. cbn [concat]. rewrite app_nil_r. subst string.
    reflexivity.
  - cbn [occurrences flat_map piece_text] in *.
    replace (length pre + length (spelling k))
      with (length (pre ++ spelling k)) by (rewrite length_app; reflexivity).
    rewrite IH.
    + rewrite skipn_app.
      replace (from prev_ichar - length pre) with 0 by lia.
      cbn [skipn]. rewrite <- !app_assoc. reflexivity.
    + rewrite Hs, <- app_assoc. reflexivity.
    + rewrite length_app. lia.
  - cbn [occurrences flat_map piece_text fold_left] in *.
    unfold rebuild_step at 2. cbn [featname istart iend].
    replace (length pre + length name)
      with (length (pre ++ name)) by (rewrite length_app; reflexivity).
    rewrite IH.
    + rewrite !concat_app. cbn [concat from]. rewrite skipn_all.
      rewrite !app_nil_r, <- !app_assoc. cbn [app]. f_equal.
      assert (E : slice_opt prev_ichar (length pre) string
                  = skipn (from prev_ichar) pre).
      { unfold slice_opt, slice. fold (from prev_ichar). rewrite Hs.
        rewrite skipn_app.
        replace (from prev_ichar - length pre) with 0 by lia.
        cbn [skipn].
        replace (length pre - from prev_ichar)
          with (length (skipn (from prev_ichar) pre) + 0)
          by (rewrite length_skipn; lia).
        rewrite firstn_app_2. cbn [firstn]. apply app_nil_r. }
      rewrite E. unfold df_item. rewrite <- !app_assoc. reflexivity.
    + rewrite Hs, <- app_assoc. reflexivity.
    + cbn [from]. lia.
Qed.

(** The string that the decoder rebuilds from the text of a term writes
    every feature name as a column of [df]. *)
Lemma rebuild_write (e : Formula.t) :
  rebuild (write e) (occurrences 0 (pieces e))
  = write_with spelling df_item e.
Proof.
  unfold rebuild, write. rewrite !ScanFacts.write_pieces.
  pose proof (@rebuild_pieces
                (pieces_text spelling (fun name => name) (pieces e))
                (pieces e) [] None [] eq_refl (Nat.le_refl 0)) as H.
  cbn [length from concat skipn app] in H.
  destruct (fold_left
              (rebuild_step (pieces_text spelling (fun name => name) (pieces e)))
              (occurrences 0 (pieces e)) (None, [])) as [prev' out'].
  exact H.
Qed.

Lemma write_ends (e : Formula.t) :
  wrapped e = true ->
  exists mid, write_with masked (fun name => name) e = hash :: mid ++ [hash].
Proof.
  assert (Hk : forall k, exists m, masked k = hash :: m).
  { intros k. rewrite ScanFacts.masked_cons. eauto. }
  assert (Hk' : forall k, exists m, masked k = m ++ [hash]).
  { intros k. unfold masked. destruct (spelling k) eqn:E.
    - destruct k; discriminate.
    - cbn [length repeat]. rewrite repeat_cons. eauto. }
  intros Hw. destruct e; try discriminate; cbn [write_with].
  - destruct (Hk K_open) as [m ->], (Hk' K_close) as [m' ->].
    eexists. cbn [app]. f_equal. rewrite !app_assoc. reflexivity.
  - destruct (Hk (unary_token f)) as [m ->], (Hk' K_close) as [m' ->].
    eexists. cbn [app]. f_equal. rewrite !app_assoc. reflexivity.
  - destruct (Hk K_exp_minus) as [m ->], (Hk' K_close) as [m' ->].
    eexists. cbn [app]. f_equal. rewrite !app_assoc. reflexivity.
  - destruct (Hk K_abs) as [m ->], (Hk' K_close) as [m' ->].
    eexists. cbn [app]. f_equal. rewrite !app_assoc. reflexivity.
  - destruct (Hk K_open) as [m ->], (Hk' (power_token p)) as [m' ->].
    eexists. cbn [app]. f_equal. rewrite !app_assoc. reflexivity.
Qed.

(** The decoder on the notation string of a term. *)
Lemma decode_write (e : Formula.t) :
  wrapped e = true -> names_ok e ->
  exists inputs,
    _decode_function (write e)
    = inr {| evalstring := py_write e;
             features_in_string := occurrences 0 (pieces e);
             inputs := inputs |}.
Proof.
  intros Hw Hn.
  assert (Hne : write e <> []).
  { intros E. apply (f_equal (@length _)) in E.
    rewrite <- DecoderFacts.replace_operators_length in E.
    rewrite TextFacts.replace_operators_write in E by exact Hn.
    destruct (write_ends e Hw) as [mid Hm]. rewrite Hm in E. discriminate. }
  rewrite DecoderFacts.decode_function_nonempty by exact Hne.
  rewrite TextFacts.replace_operators_write by exact Hn.
  destruct (write_ends e Hw) as [mid Hm].
  assert (Hh : hash_at_both_ends (write_with masked (fun name => name) e) = true).
  { rewrite Hm. unfold hash_at_both_ends.
    change (hash :: mid ++ [hash]) with ((hash :: mid) ++ [hash]).
    rewrite last_last. reflexivity. }
  rewrite Hh, ScanFacts.scan_write by assumption.
  rewrite rebuild_write, TextFacts.numpy_operators_write by exact Hn.
  eexists. reflexivity.
Qed.

End RebuildFacts.

(* ------------------------------------------------------------------ *)
(** ** The tokens of a decoded string *)

Module LexFacts.
Import Formula Decoded Py.

Lemma option_map_app_app {A} (a b : list A) (o : option (list A)) :
  option_map (app a) (option_map (app b) o) = option_map (app (a ++ b)) o.
Proof. destruct o; cbn; [rewrite app_assoc |]; reflexivity. Qed.

Lemma option_map_app_nil {A} (o : option (list A)) : option_map (app []) o = o.
Proof. destruct o; reflexivity. Qed.

Lemma lex_from_app (m : lex_mode) (s1 s2 : str) :
  lex_from m (s1 ++ s2)
  = match lex_run m s1 with
    | Some (m', ts) => option_map (app ts) (lex_from m' s2)
    | None => None
    end.
Proof.
  revert m; induction s1 as [| c s1 IH]; intros m; cbn [app lex_from lex_run].
  - symmetry. apply option_map_app_nil.
  - destruct (lex_step m c) as [[m' ts] |]; [| reflexivity].
    rewrite IH. destruct (lex_run m' s1) as [[m'' ts'] |]; [| reflexivity].
    destruct (lex_from m'' s2); cbn; [rewrite app_assoc |]; reflexivity.
Qed.

Lemma follow_ends_number (c : ascii) :
  is_follow c = true ->
  isdigit c = false /\ (isidchar c || Ascii.eqb c ".") = false.
Proof.
  intros H. unfold is_follow in H. cbn in H.
  repeat (apply orb_true_iff in H; destruct H as [H | H]);
    try discriminate; apply Ascii.eqb_eq in H; subst c; split; reflexivity.
Qed.

Lemma open_not_star (c : ascii) : is_open c = true -> Ascii.eqb c "*" = false.
Proof.
  intros H. destruct (Ascii.eqb_spec c "*") as [-> | _]; [| reflexivity].
  vm_compute in H. discriminate.
Qed.

(** The token held back is completed by what follows. *)
Lemma lex_flush (m : lex_mode) (X : str) :
  match m with
  | LIdle => True
  | LNum _ => begins is_follow X = true
  | LStar => begins_with is_open X = true
  | _ => False
  end ->
  lex_from m X = option_map (app (pending m)) (lex_from LIdle X).
Proof.
  destruct m as [| acc | z | acc |]; try contradiction; intros H.
  - symmetry. apply option_map_app_nil.
  - destruct X as [| c X]; [reflexivity |]. cbn [begins] in H.
    destruct (follow_ends_number c H) as [Hd Hi].
    cbn [lex_from lex_step]. rewrite Hd, Hi. unfold emit.
    destruct (lex_idle c) as [[m' ts] |]; [| reflexivity].
    destruct (lex_from m' X); reflexivity.
  - destruct X as [| c X]; [discriminate |]. cbn [begins_with] in H.
    cbn [lex_from lex_step]. rewrite (open_not_star c H). unfold emit.
    destruct (lex_idle c) as [[m' ts] |]; [| reflexivity].
    destruct (lex_from m' X); reflexivity.
Qed.

(** The tokens of a token of the notation in its numpy spelling. *)
Lemma lex_token (k : Formula.token) (X : str) :
  after k X = true ->
  lex_from LIdle (py_spelling k ++ X)
  = option_map (app (py_tokens k)) (lex_from LIdle X).
Proof.
  intros H. rewrite lex_from_app.
  destruct k;
    match goal with
    | |- context [lex_run LIdle ?s] =>
        let r := fresh "r" in
        set (r := lex_run LIdle s); vm_compute in r; subst r
    end;
    cbv beta iota;
    first [ reflexivity
          | rewrite (lex_flush (LNum _) X H);
            rewrite option_map_app_app; reflexivity
          | rewrite (lex_flush LStar X H);
            rewrite option_map_app_app; reflexivity ].
Qed.

Lemma lex_string (name acc Y : str) :
  Forall (fun c => special c = false /\ unreadable c = false) name ->
  lex_from (LStr acc) (name ++ "'"%char :: Y)
  = option_map (cons (TStr (acc ++ name))) (lex_from LIdle Y).
Proof.
  intros Hn. revert acc; induction Hn as [| c name [Hc Hr] _ IH]; intros acc.
  - cbn [app lex_from lex_step]. rewrite Ascii.eqb_refl, app_nil_r.
    destruct (lex_from LIdle Y); reflexivity.
  - cbn [app lex_from lex_step].
    assert (E : Ascii.eqb c "'" = false
                /\ (Ascii.eqb c "\" || Ascii.eqb c newline
                    || Ascii.eqb c carriage_return || Ascii.eqb c null)
                   = false).
    { split.
      - destruct (Ascii.eqb_spec c "'") as [-> | _]; [| reflexivity].
        vm_compute in Hc. discriminate.
      - destruct (Ascii.eqb_spec c "\") as [-> | _];
          [vm_compute in Hc; discriminate |].
        destruct (Ascii.eqb_spec c newline) as [-> | _];
          [vm_compute in Hc; discriminate |].
        exact Hr. }
    destruct E as [E1 E2]. rewrite E1, E2, IH, <- app_assoc.
    destruct (lex_from LIdle Y); reflexivity.
Qed.

Lemma names_readable_app (a b : Formula.t) :
  Forall name_readable (features a ++ features b) ->
  names_readable a /\ names_readable b.
Proof. intros H. apply Forall_app in H. exact H. Qed.

Lemma names_readable_ok (e : Formula.t) : names_readable e -> names_ok e.
Proof.
  unfold names_readable, names_ok. intros H.
  eapply Forall_impl; [| exact H]. intros name [Hn _]. exact Hn.
Qed.

(** The tokens of a column reference. *)
Lemma lex_name (name X : str) :
  name_readable name ->
  lex_from LIdle (df_item name ++ X)
  = option_map (app (py_name_tokens name)) (lex_from LIdle X).
Proof.
  intros [[_ Hs] Hr].
  assert (Hn : Forall (fun c => special c = false /\ unreadable c = false)
                      name).
  { rewrite Forall_forall in *. intros c Hc. split; auto. }
  unfold df_item. rewrite <- !app_assoc.
  rewrite lex_from_app.
  set (r := lex_run LIdle (L "df['")). vm_compute in r. subst r. cbv beta iota.
  change (L "']" ++ X) with ("'"%char :: "]"%char :: X).
  rewrite (lex_string [] ("]"%char :: X) Hn).
  cbn [lex_from lex_step].
  change (lex_idle "]") with (Some (LIdle, [TRBrack])).
  cbv beta iota. destruct (lex_from LIdle X); reflexivity.
Qed.

Lemma py_token_begins (k : Formula.token) (X : str) :
  begins_with (if opening k then is_open else is_follow) (py_spelling k ++ X)
  = true.
Proof. destruct k; reflexivity. Qed.

Lemma py_write_begins (e : Formula.t) (X : str) :
  begins_with is_open (py_write e ++ X) = true.
Proof.
  unfold py_write. destruct e; cbn [write_with]; rewrite <- ?app_assoc.
  - reflexivity.
  - apply (py_token_begins K_open).
  - pose proof (py_token_begins (unary_token f)) as H. destruct f; apply H.
  - apply (py_token_begins K_exp_minus).
  - apply (py_token_begins K_abs).
  - apply (py_token_begins K_open).
Qed.

(** The tokens of the decoded string of a term. *)
Lemma lex_write (e : Formula.t) (X : str) :
  names_readable e -> begins is_follow X = true ->
  lex_from LIdle (py_write e ++ X)
  = option_map (app (tokens e)) (lex_from LIdle X).
Proof.
  unfold py_write.
  revert X; induction e as [name | op a IHa b IHb | f a IHa | a IHa
                            | a IHa b IHb | p a IHa];
    intros X Hn HX; cbn [write_with tokens]; rewrite <- ?app_assoc.
  - inversion Hn; subst. apply lex_name; assumption.
  - apply names_readable_app in Hn as [Ha Hb].
    rewrite lex_token by (apply (py_write_begins a)).
    rewrite IHa;
      [| exact Ha
       | apply ReplaceFacts.begins_with_begins;
         pose proof (py_token_begins (binary_token op)) as H;
         destruct op; apply H].
    rewrite lex_token
      by (pose proof (py_write_begins b) as H; destruct op; apply H).
    rewrite IHb;
      [| exact Hb
       | apply ReplaceFacts.begins_with_begins; apply (py_token_begins K_close)].
    rewrite lex_token by exact HX.
    rewrite !option_map_app_app, <- !app_assoc. reflexivity.
  - rewrite lex_token
      by (pose proof (py_write_begins a) as H; destruct f; apply H).
    rewrite IHa;
      [| exact Hn
       | apply ReplaceFacts.begins_with_begins; apply (py_token_begins K_close)].
    rewrite lex_token by exact HX.
    rewrite !option_map_app_app, <- !app_assoc. reflexivity.
  - rewrite lex_token by (apply (py_write_begins a)).
    rewrite IHa;
      [| exact Hn
       | apply ReplaceFacts.begins_with_begins; apply (py_token_begins K_close)].
    rewrite lex_token by exact HX.
    rewrite !option_map_app_app, <- !app_assoc. reflexivity.
  - apply names_readable_app in Hn as [Ha Hb].
    rewrite lex_token by (apply (py_write_begins a)).
    rewrite IHa;
      [| exact Ha
       | apply ReplaceFacts.begins_with_begins; apply (py_token_begins K_minus)].
    rewrite lex_token by (apply (py_write_begins b)).
    rewrite IHb;
      [| exact Hb
       | apply ReplaceFacts.begins_with_begins; apply (py_token_begins K_close)].
    rewrite lex_token by exact HX.
    rewrite !option_map_app_app, <- !app_assoc. reflexivity.
  - rewrite lex_token by (apply (py_write_begins a)).
    rewrite IHa;
      [| exact Hn
       | apply ReplaceFacts.begins_with_begins;
         pose proof (py_token_begins (power_token p)) as H;
         destruct p; apply H].
    rewrite lex_token by (destruct p; exact HX).
    rewrite !option_map_app_app, <- !app_assoc. reflexivity.
Qed.

Lemma lex_py_write (e : Formula.t) :
  names_readable e -> lex (py_write e) = Some (tokens e).
Proof.
  intros Hn. unfold lex.
  pose proof (@lex_write e [] Hn eq_refl) as H.
  rewrite app_nil_r in H. rewrite H. cbn. rewrite app_nil_r. reflexivity.
Qed.

End LexFacts.

(* ------------------------------------------------------------------ *)
(** ** The expression of a decoded string *)

Module ParseFacts.
Import Formula Decoded Py.

(** The rules of the grammar, as the parser follows them. *)
Section Rules.
Variables (ts ts1 rest : list Py.token) (e x y a r : expr) (d d1 d2 : nat).

Ltac call n Hn :=
  intros n Hn; destruct n as [| n]; [exfalso; lia |]; cbn [parse].

Lemma rd_weaken (k : nonterminal) (d' : nat) :
  reads k ts x rest d -> d <= d' -> reads k ts x rest d'.
Proof. intros H Hd n Hn. apply H. lia. Qed.

Lemma rd_name (s : str) : reads NAtom (TName s :: ts) (Name s) ts 1.
Proof. call n Hn. reflexivity. Qed.

Lemma rd_num (z : Z) : reads NAtom (TNum z :: ts) (Num z) ts 1.
Proof. call n Hn. reflexivity. Qed.

Lemma rd_str (s : str) : reads NAtom (TStr s :: ts) (Str s) ts 1.
Proof. call n Hn. reflexivity. Qed.

Lemma rd_paren :
  reads NAdd ts x (TRPar :: rest) d -> reads NAtom (TLPar :: ts) x rest (S d).
Proof. intros H. call n Hn. rewrite (H n) by lia. reflexivity. Qed.

Lemma rd_trailers_end :
  no_trailer rest = true -> reads (NTrailers e) rest e rest 1.
Proof.
  intros H. call n Hn. destruct rest as [| [] ?]; try discriminate; reflexivity.
Qed.

Lemma rd_attr (name : str) :
  reads (NTrailers (Attr e name)) ts x rest d ->
  reads (NTrailers e) (TDot :: TName name :: ts) x rest (S d).
Proof. intros H. call n Hn. apply H. lia. Qed.

Lemma rd_call :
  reads NAdd ts a (TRPar :: ts1) d1 ->
  reads (NTrailers (Call e a)) ts1 x rest d2 ->
  reads (NTrailers e) (TLPar :: ts) x rest (S (Nat.max d1 d2)).
Proof.
  intros H1 H2. call n Hn. rewrite (H1 n) by lia.
  cbn [andthen expect is_rpar]. apply H2. lia.
Qed.

Lemma rd_subscript :
  reads NAdd ts a (TRBrack :: ts1) d1 ->
  reads (NTrailers (Subscript e a)) ts1 x rest d2 ->
  reads (NTrailers e) (TLBrack :: ts) x rest (S (Nat.max d1 d2)).
Proof.
  intros H1 H2. call n Hn. rewrite (H1 n) by lia.
  cbn [andthen expect is_rbrack]. apply H2. lia.
Qed.

Lemma rd_primary :
  reads NAtom ts e ts1 d1 -> reads (NTrailers e) ts1 x rest d2 ->
  reads NPrimary ts x rest (S (Nat.max d1 d2)).
Proof.
  intros H1 H2. call n Hn. rewrite (H1 n) by lia. cbn [andthen].
  apply H2. lia.
Qed.

Lemma rd_power_end :
  reads NPrimary ts x rest d -> no_power rest = true ->
  reads NPower ts x rest (S d).
Proof.
  intros H1 H2. call n Hn. rewrite (H1 n) by lia. cbn [andthen].
  destruct rest as [| [] ?]; try discriminate; reflexivity.
Qed.

Lemma rd_power :
  reads NPrimary ts x (TPow :: ts1) d1 -> reads NUnary ts1 y rest d2 ->
  reads NPower ts (BinOp Pow x y) rest (S (Nat.max d1 d2)).
Proof.
  intros H1 H2. call n Hn. rewrite (H1 n) by lia. cbn [andthen].
  rewrite (H2 n) by lia. reflexivity.
Qed.

Lemma rd_unary :
  no_sign ts = true -> reads NPower ts x rest d -> reads NUnary ts x rest (S d).
Proof.
  intros H1 H2. call n Hn.
  destruct ts as [| [] ?]; try discriminate; apply H2; lia.
Qed.

Lemma rd_neg :
  reads NUnary ts x rest d -> reads NUnary (TMinus :: ts) (Neg x) rest (S d).
Proof. intros H. call n Hn. rewrite (H n) by lia. reflexivity. Qed.

Lemma rd_product :
  reads NUnary ts x ts1 d1 -> reads (NMulRest x) ts1 y rest d2 ->
  reads NMul ts y rest (S (Nat.max d1 d2)).
Proof.
  intros H1 H2. call n Hn. rewrite (H1 n) by lia. cbn [andthen].
  apply H2. lia.
Qed.

Lemma rd_product_end :
  no_factor rest = true -> reads (NMulRest x) rest x rest 1.
Proof.
  intros H. call n Hn. destruct rest as [| [] ?]; try discriminate; reflexivity.
Qed.

Lemma rd_times :
  reads NUnary ts r ts1 d1 -> reads (NMulRest (BinOp Mul x r)) ts1 y rest d2 ->
  reads (NMulRest x) (TStar :: ts) y rest (S (Nat.max d1 d2)).
Proof.
  intros H1 H2. call n Hn. rewrite (H1 n) by lia. cbn [andthen].
  apply H2. lia.
Qed.

Lemma rd_over :
  reads NUnary ts r ts1 d1 -> reads (NMulRest (BinOp Div x r)) ts1 y rest d2 ->
  reads (NMulRest x) (TSlash :: ts) y rest (S (Nat.max d1 d2)).
Proof.
  intros H1 H2. call n Hn. rewrite (H1 n) by lia. cbn [andthen].
  apply H2. lia.
Qed.

Lemma rd_sum :
  reads NMul ts x ts1 d1 -> reads (NAddRest x) ts1 y rest d2 ->
  reads NAdd ts y rest (S (Nat.max d1 d2)).
Proof.
  intros H1 H2. call n Hn. rewrite (H1 n) by lia. cbn [andthen].
  apply H2. lia.
Qed.

Lemma rd_sum_end :
  no_term rest = true -> reads (NAddRest x) rest x rest 1.
Proof.
  intros H. call n Hn. destruct rest as [| [] ?]; try discriminate; reflexivity.
Qed.

Lemma rd_plus :
  reads NMul ts r ts1 d1 -> reads (NAddRest (BinOp Add x r)) ts1 y rest d2 ->
  reads (NAddRest x) (TPlus :: ts) y rest (S (Nat.max d1 d2)).
Proof.
  intros H1 H2. call n Hn. rewrite (H1 n) by lia. cbn [andthen].
  apply H2. lia.
Qed.

Lemma rd_minus :
  reads NMul ts r ts1 d1 -> reads (NAddRest (BinOp Sub x r)) ts1 y rest d2 ->
  reads (NAddRest x) (TMinus :: ts) y rest (S (Nat.max d1 d2)).
Proof.
  intros H1 H2. call n Hn. rewrite (H1 n) by lia. cbn [andthen].
  apply H2. lia.
Qed.

End Rules.

Lemma tokens_start (e : Formula.t) : starts_operand (tokens e) = true.
Proof. destruct e; try reflexivity. destruct f; reflexivity. Qed.

Section Operand.
(** An operand: tokens [ts] that the parser reads as [x] at the level of
    the powers, whatever ends the operand. *)
Variables (ts : list Py.token) (x : expr) (d : nat).
Hypothesis Hstart : starts_operand ts = true.
Hypothesis Hpower :
  forall rest, ends_term rest = true -> reads NPower (ts ++ rest) x rest d.

Lemma operand_unary (rest : list Py.token) :
  ends_term rest = true -> reads NUnary (ts ++ rest) x rest (S d).
Proof.
  intros Hr. apply rd_unary; [| apply Hpower; exact Hr].
  destruct ts as [| [] ?]; try discriminate; reflexivity.
Qed.

Lemma operand_product (rest : list Py.token) :
  ends_product rest = true ->
  reads NMul (ts ++ rest) x rest (S (Nat.max (S d) 1)).
Proof.
  intros Hr. eapply rd_product.
  - apply operand_unary. destruct rest as [| [] ?]; try discriminate; reflexivity.
  - apply rd_product_end.
    destruct rest as [| [] ?]; try discriminate; reflexivity.
Qed.

Lemma operand_sum (rest : list Py.token) :
  ends_sum rest = true ->
  reads NAdd (ts ++ rest) x rest (S (Nat.max (S (Nat.max (S d) 1)) 1)).
Proof.
  intros Hr. eapply rd_sum.
  - apply operand_product.
    destruct rest as [| [] ?]; try discriminate; reflexivity.
  - apply rd_sum_end.
    destruct rest as [| [] ?]; try discriminate; reflexivity.
Qed.

End Operand.

Lemma ends_term_no_trailer (rest : list Py.token) :
  ends_term rest = true -> no_trailer rest = true.
Proof. destruct rest as [| [] ?]; try discriminate; reflexivity. Qed.

Lemma ends_term_no_power (rest : list Py.token) :
  ends_term rest = true -> no_power rest = true.
Proof. destruct rest as [| [] ?]; try discriminate; reflexivity. Qed.

(** A call [f(a)] whose argument is an operand. *)
Lemma reads_call_end (f a : expr) (ts rest : list Py.token) (d : nat) :
  reads NAdd ts a (TRPar :: rest) d -> ends_term rest = true ->
  reads (NTrailers f) (TLPar :: ts) (Call f a) rest (S (Nat.max d 1)).
Proof.
  intros H Hr. eapply rd_call; [exact H |].
  apply rd_trailers_end. apply ends_term_no_trailer; exact Hr.
Qed.

(** The parser reads the tokens of a term as its expression. *)
Lemma reads_term (e : Formula.t) :
  forall rest,
    ends_term rest = true ->
    reads NPower (tokens e ++ rest) (ast e) rest (depth e).
Proof.
  induction e as [name | op a IHa b IHb | f a IHa | a IHa
                  | a IHa b IHb | p a IHa];
    intros rest Hr; cbn [depth tokens ast];
    pose proof (ends_term_no_trailer rest Hr) as Ht;
    pose proof (ends_term_no_power rest Hr) as Hp.
  - (* df['name'] *)
    cbn [py_name_tokens app].
    eapply rd_weaken;
      [eapply rd_power_end; [eapply rd_primary; [apply rd_name |] | exact Hp] |].
    + eapply rd_subscript; [| apply rd_trailers_end; exact Ht].
      eapply rd_sum; [| apply rd_sum_end; reflexivity].
      eapply rd_product; [| apply rd_product_end; reflexivity].
      apply rd_unary; [reflexivity |].
      eapply rd_power_end; [| reflexivity].
      eapply rd_primary; [apply rd_str | apply rd_trailers_end; reflexivity].
    + cbn. lia.
  - (* (a op b) *)
    pose proof (tokens_start a) as Sa. pose proof (tokens_start b) as Sb.
    destruct op; cbn [py_tokens binary_token py_binop app];
      repeat (progress (rewrite <- ?app_assoc; cbn [app]));
      (eapply rd_weaken;
       [eapply rd_power_end;
        [eapply rd_primary;
         [eapply rd_paren | apply rd_trailers_end; exact Ht] | exact Hp] |]);
      [ eapply rd_sum;
        [apply (@operand_product _ _ _ Sa IHa); reflexivity
        | eapply rd_plus;
          [apply (@operand_product _ _ _ Sb IHb); reflexivity
          | apply rd_sum_end; reflexivity]]
      | lia
      | eapply rd_sum;
        [apply (@operand_product _ _ _ Sa IHa); reflexivity
        | eapply rd_minus;
          [apply (@operand_product _ _ _ Sb IHb); reflexivity
          | apply rd_sum_end; reflexivity]]
      | lia
      | eapply rd_sum;
        [eapply rd_product;
         [apply (@operand_unary _ _ _ Sa IHa); reflexivity
         | eapply rd_times;
           [apply (@operand_unary _ _ _ Sb IHb); reflexivity
           | apply rd_product_end; reflexivity]]
        | apply rd_sum_end; reflexivity]
      | lia
      | eapply rd_sum;
        [eapply rd_product;
         [apply (@operand_unary _ _ _ Sa IHa); reflexivity
         | eapply rd_over;
           [apply (@operand_unary _ _ _ Sb IHb); reflexivity
           | apply rd_product_end; reflexivity]]
        | apply rd_sum_end; reflexivity]
      | lia ].
  - (* f(a) *)
    pose proof (tokens_start a) as Sa.
    destruct f; cbn [py_tokens unary_token np_function app];
      repeat (progress (rewrite <- ?app_assoc; cbn [app]));
      (eapply rd_weaken;
       [eapply rd_power_end;
        [eapply rd_primary;
         [apply rd_name
         | first [ eapply rd_attr; eapply reads_call_end;
                   [apply (@operand_sum _ _ _ Sa IHa); reflexivity | exact Hr]
                 | eapply reads_call_end;
                   [apply (@operand_sum _ _ _ Sa IHa); reflexivity | exact Hr] ]]
        | exact Hp]
       | lia]).
  - (* exp(-a) *)
    pose proof (tokens_start a) as Sa.
    cbn [py_tokens np_function app]; repeat (progress (rewrite <- ?app_assoc; cbn [app])).
    eapply rd_weaken;
      [eapply rd_power_end;
       [eapply rd_primary;
        [apply rd_name | eapply rd_attr; eapply reads_call_end; [| exact Hr]]
       | exact Hp] |].
    + eapply rd_sum; [| apply rd_sum_end; reflexivity].
      eapply rd_product; [| apply rd_product_end; reflexivity].
      apply rd_neg. apply (@operand_unary _ _ _ Sa IHa). reflexivity.
    + lia.
  - (* abs(a-b) *)
    pose proof (tokens_start a) as Sa. pose proof (tokens_start b) as Sb.
    cbn [py_tokens np_function app]; repeat (progress (rewrite <- ?app_assoc; cbn [app])).
    eapply rd_weaken;
      [eapply rd_power_end;
       [eapply rd_primary;
        [apply rd_name | eapply rd_attr; eapply reads_call_end; [| exact Hr]]
       | exact Hp] |].
    + eapply rd_sum;
        [apply (@operand_product _ _ _ Sa IHa); reflexivity
        | eapply rd_minus;
          [apply (@operand_product _ _ _ Sb IHb); reflexivity
          | apply rd_sum_end; reflexivity]].
    + lia.
  - (* (a)^k *)
    pose proof (tokens_start a) as Sa.
    destruct p; cbn [py_tokens power_token py_exponent app];
      repeat (progress (rewrite <- ?app_assoc; cbn [app]));
      (eapply rd_weaken;
       [eapply rd_power;
        [eapply rd_primary;
         [eapply rd_paren; apply (@operand_sum _ _ _ Sa IHa); reflexivity
         | apply rd_trailers_end; reflexivity]
        | first [ apply rd_neg | idtac ];
          apply rd_unary; [reflexivity |];
          eapply rd_power_end; [| exact Hp];
          eapply rd_primary; [apply rd_num | apply rd_trailers_end; exact Ht]]
       | lia]).
Qed.

(** The decoded string of a term is the expression of the term. *)
Lemma parse_py_write (e : Formula.t) :
  names_readable e -> parse_string (py_write e) = Some (ast e).
Proof.
  intros Hn. unfold parse_string. rewrite (LexFacts.lex_py_write Hn).
  pose proof (@operand_sum (tokens e) (ast e) (depth e) (tokens_start e)
                           (reads_term e) [] eq_refl) as H.
  rewrite app_nil_r in H. rewrite H; [reflexivity |].
  clear. assert (G : depth e <= 9 * length (tokens e)).
  { induction e as [name | op a IHa b IHb | f a IHa | a IHa
                    | a IHa b IHb | p a IHa];
      cbn [depth tokens py_name_tokens length]; rewrite ?length_app.
    - lia.
    - assert (1 <= length (py_tokens (binary_token op))) by (destruct op; cbn; lia).
      cbn [py_tokens length]. lia.
    - assert (2 <= length (py_tokens (unary_token f))) by (destruct f; cbn; lia).
      cbn [py_tokens length]. lia.
    - cbn [py_tokens length app]. lia.
    - cbn [py_tokens length app]. lia.
    - assert (3 <= length (py_tokens (power_token p))) by (destruct p; cbn; lia).
      cbn [py_tokens length]. lia. }
  lia.
Qed.

End ParseFacts.

(* ------------------------------------------------------------------ *)
(** ** The value of a decoded term *)

Module EvalFacts.
Import Formula Decoded Evaluation.

Lemma getitem_length (df : DataFrame) (name : str) (col : list R) :
  well_formed df -> getitem df name = inr col -> length col = len df.
Proof.
  unfold well_formed, getitem, len. intros Hw H.
  destruct (find (fun c => str_eqb (fst c) name) (columns df)) as [c |] eqn:E;
    [| discriminate].
  injection H as <-. apply find_some in E as [Hin _].
  rewrite Forall_forall in Hw. apply Hw. exact Hin.
Qed.

Lemma column_nth_seq (l : list R) :
  map (fun i => nth i l 0%R) (seq 0 (length l)) = l.
Proof.
  induction l as [| a l IH]; [reflexivity |].
  cbn [length seq map nth]. f_equal.
  rewrite <- seq_shift, map_map. exact IH.
Qed.

Lemma zip_with_map (f : R -> R -> R) (g h : nat -> R) (l : list nat) :
  zip_with f (map g l) (map h l) = map (fun i => f (g i) (h i)) l.
Proof.
  unfold zip_with. induction l as [| i l IH]; [reflexivity |].
  cbn [map combine fst snd]. f_equal. exact IH.
Qed.

Lemma powerRZ_inverse (x : R) : powerRZ x (-1) = (/ x)%R.
Proof.
  unfold powerRZ. change (Pos.to_nat 1) with 1. rewrite pow_1. reflexivity.
Qed.

(** The expression of a term evaluates, row by row, to the arithmetic
    value of the term. *)
Lemma eval_term (df : DataFrame) (e : Formula.t) :
  well_formed df -> columns_in e df ->
  eval df (ast e)
  = inr (VSeries (map (fun i => Formula.value (row_of df i) e) (seq 0 (len df)))).
Proof.
  intros Hw. unfold columns_in.
  induction e as [name | op a IHa b IHb | f a IHa | a IHa
                  | a IHa b IHb | p a IHa];
    intros Hc; cbn [features ast] in *.
  - apply Forall_cons_iff in Hc as [[col Hcol] _].
    cbn [eval]. change (lookup_name (L "df")) with (ret VFrame : exc Evaluation.value).
    cbn [bind ret]. rewrite Hcol. cbn [bind]. unfold ret. do 2 f_equal.
    rewrite <- (getitem_length _ Hw Hcol).
    rewrite <- (column_nth_seq col) at 1. apply map_ext. intros i.
    unfold Formula.value, row_of, column. rewrite Hcol. reflexivity.
  - apply Forall_app in Hc as [Ha Hb].
    cbn [eval]. rewrite (IHa Ha), (IHb Hb). cbn [bind].
    destruct op; cbn [py_binop binary]; unfold ret;
      rewrite zip_with_map; reflexivity.
  - cbn [eval]. rewrite (IHa Hc).
    destruct f; cbn [np_function eval];
      change (lookup_name (L "np")) with (ret VNumpy : exc Evaluation.value);
      change (lookup_name (L "scd"))
        with (ret (VFun Fscd) : exc Evaluation.value);
      cbn [bind ret];
      try match goal with
          | |- context [numpy_attr ?s] =>
              let v := eval vm_compute in (numpy_attr s) in
              change (numpy_attr s) with v
          end;
      cbn [bind ret]; unfold ret; rewrite map_map; do 2 f_equal;
      apply map_ext; intros i; cbn [apply Formula.value]; try reflexivity.
    unfold scd. do 3 f_equal. ring.
  - cbn [eval np_function]. rewrite (IHa Hc).
    change (lookup_name (L "np")) with (ret VNumpy : exc Evaluation.value).
    cbn [bind ret].
    change (numpy_attr (L "exp")) with (ret (VFun Fexp) : exc Evaluation.value).
    cbn [bind ret]. unfold ret. rewrite !map_map. reflexivity.
  - apply Forall_app in Hc as [Ha Hb].
    cbn [eval np_function]. rewrite (IHa Ha), (IHb Hb).
    change (lookup_name (L "np")) with (ret VNumpy : exc Evaluation.value).
    cbn [bind ret].
    change (numpy_attr (L "abs")) with (ret (VFun Fabs) : exc Evaluation.value).
    cbn [bind ret binary]. unfold ret. rewrite zip_with_map, map_map.
    reflexivity.
  - cbn [eval]. rewrite (IHa Hc).
    destruct p; cbn [py_exponent eval bind ret binary]; unfold ret;
      rewrite map_map; do 2 f_equal; apply map_ext; intros i; cbn [Formula.value];
      first [apply powerRZ_inverse | reflexivity].
Qed.

End EvalFacts.

(** C2, the strings that the decoder refuses: a notation string built
    from feature names and operator tokens that does not begin and end
    with a token, a bare feature name or an infix operation without
    parentheses, is not decoded, so that nothing is evaluated. *)
Lemma notation_without_wrapping_not_decoded :
  SISSODescriptor.__init__ 1 (L "f1+f2")
  = inl (ValueError (MsgStartEnd (L "f1#f2")))
  /\ SISSODescriptor.__init__ 1 (L "f1")
     = inl (ValueError (MsgStartEnd (L "f1")))
  /\ SISSODescriptor.from_string (L "1:[f1+f2]")
     = inl (ValueError (MsgStartEnd (L "f1#f2"))).
Proof. repeat split; vm_compute; reflexivity. Qed.

(** C2: for every term of the notation that is not a bare feature name,
    with feature names free of the characters of the tokens, the marker,
    the quote, the backslash, the line end, the carriage return and the
    null character, and every table that holds the features as columns,
    the descriptor built from the notation string of the term evaluates
    to a column whose value at every row is the arithmetic value of the
    term at the values of the row. *)
Theorem decode_then_evaluate_is_arithmetic :
  forall (id : Z) (e : Formula.t) (df : DataFrame),
    Formula.wrapped e = true ->
    Formula.names_readable e ->
    well_formed df ->
    Formula.columns_in e df ->
    exists d v,
      SISSODescriptor.__init__ id (Formula.write e) = inr d
      /\ SISSODescriptor.evaluate d df = inr (Evaluation.VSeries v)
      /\ length v = len df
      /\ forall i, i < len df ->
                   nth i v 0%R = Formula.value (Formula.row_of df i) e.
Proof.
  intros id e df Hw Hr Hdf Hc.
  pose proof (LexFacts.names_readable_ok Hr) as Hn.
  destruct (@RebuildFacts.decode_write e Hw Hn) as [inputs Hd].
  exists {| SISSODescriptor.descriptor_id := id;
            SISSODescriptor.descriptor_string := Formula.write e;
            SISSODescriptor.self_evalstring := Decoded.py_write e |}.
  exists (map (fun i => Formula.value (Formula.row_of df i) e) (seq 0 (len df))).
  split; [| split; [| split]].
  - unfold SISSODescriptor.__init__. rewrite Hd. reflexivity.
  - unfold SISSODescriptor.evaluate, Evaluation.eval_string.
    cbn [SISSODescriptor.self_evalstring].
    rewrite (ParseFacts.parse_py_write Hr). apply EvalFacts.eval_term; assumption.
  - rewrite length_map, length_seq. reflexivity.
  - intros i Hi.
    rewrite (nth_indep _ 0%R (Formula.value (Formula.row_of df 0) e))
      by (rewrite length_map, length_seq; exact Hi).
    rewrite (map_nth (fun i => Formula.value (Formula.row_of df i) e)).
    rewrite seq_nth by exact Hi. reflexivity.
Qed.

Lemma decode_then_evaluate_is_arithmetic_witness :
  exists d v,
    SISSODescriptor.__init__ 1 (L "((f1-f2)+(f3-f4))") = inr d
    /\ SISSODescriptor.evaluate d Sample.table = inr (Evaluation.VSeries v)
    /\ length v = 2
    /\ nth 0 v 0%R = 11%R.
Proof.
  destruct (decode_then_evaluate_is_arithmetic
              1 (e := Sample.term) (df := Sample.table))
    as (d & v & H1 & H2 & H3 & H4).
  - reflexivity.
  - repeat constructor; discriminate.
  - repeat constructor.
  - repeat constructor; eexists; reflexivity.
  - exists d, v. split; [exact H1 |]. split; [exact H2 |].
    split; [exact H3 |].
    rewrite (H4 0) by (cbn; lia).
    cbn [Formula.value Sample.term].
    replace (Formula.row_of Sample.table 0 (L "f1")) with 5%R by reflexivity.
    replace (Formula.row_of Sample.table 0 (L "f2")) with 2%R by reflexivity.
    replace (Formula.row_of Sample.table 0 (L "f3")) with 9%R by reflexivity.
    replace (Formula.row_of Sample.table 0 (L "f4")) with 1%R by reflexivity.
    lra.
Defined.

(* ------------------------------------------------------------------ *)
(** ** Splitting at a separator *)

Module SplitFacts.

Lemma split_from_free (sep : ascii) (a cur : str) :
  Forall (fun c => c <> sep) a ->
  split_from sep cur a = [rev cur ++ a].
Proof.
  intros H. revert cur.
  induction H as [| c a Hc _ IH]; intros cur; cbn [split_from].
  - rewrite app_nil_r. reflexivity.
  - apply Ascii.eqb_neq in Hc. rewrite Hc, IH. cbn [rev].
    rewrite <- app_assoc. reflexivity.
Qed.

Lemma split_from_sep (sep : ascii) (a cur rest : str) :
  Forall (fun c => c <> sep) a ->
  split_from sep cur (a ++ sep :: rest)
  = (rev cur ++ a) :: split_from sep [] rest.
Proof.
  intros H. revert cur.
  induction H as [| c a Hc _ IH]; intros cur; cbn [split_from app].
  - rewrite Ascii.eqb_refl, app_nil_r. reflexivity.
  - apply Ascii.eqb_neq in Hc. rewrite Hc, IH. cbn [rev].
    rewrite <- app_assoc. reflexivity.
Qed.

Lemma split_free (sep : ascii) (a : str) :
  Forall (fun c => c <> sep) a -> split sep a = [a].
Proof. intros H. unfold split. rewrite split_from_free by exact H. reflexivity. Qed.

Lemma split_sep (sep : ascii) (a rest : str) :
  Forall (fun c => c <> sep) a ->
  split sep (a ++ sep :: rest) = a :: split sep rest.
Proof. intros H. unfold split. rewrite split_from_sep by exact H. reflexivity. Qed.

Lemma split_from_length (sep : ascii) (s cur : str) :
  length (split_from sep cur s) = S (count_occ ascii_dec s sep).
Proof.
  revert cur. induction s as [| c s IH]; intros cur; cbn [split_from count_occ].
  - reflexivity.
  - destruct (Ascii.eqb c sep) eqn:E.
    + apply Ascii.eqb_eq in E. subst c.
      destruct (ascii_dec sep sep) as [_ | N]; [| contradiction].
      cbn [length]. rewrite IH. reflexivity.
    + apply Ascii.eqb_neq in E.
      destruct (ascii_dec c sep) as [Y | _]; [contradiction |]. apply IH.
Qed.

End SplitFacts.

(** X1: The version line: [from_string] returns on every line.  Only the text
    before the first comma is split at the periods, so the version has as
    many components as that text has periods, whatever follows the
    comma. *)
Theorem version_components_before_comma :
  forall a b : str,
    Forall (fun c => c <> ","%char) a ->
    (exists v,
        SISSOVersion.from_string a = inr v
        /\ SISSOVersion.header_string v = strip a
        /\ SISSOVersion.version v = map PyStr (slice_from1 (split "." a))
        /\ length (SISSOVersion.version v) = count_occ ascii_dec a "."%char)
    /\ (exists v,
           SISSOVersion.from_string (a ++ L "," ++ b) = inr v
           /\ SISSOVersion.header_string v = strip (a ++ L "," ++ b)
           /\ SISSOVersion.version v = map PyStr (slice_from1 (split "." a))
           /\ length (SISSOVersion.version v) = count_occ ascii_dec a "."%char).
Proof.
  intros a b Ha.
  assert (Hlen : length (map PyStr (slice_from1 (split "." a)))
                 = count_occ ascii_dec a "."%char).
  { rewrite length_map. unfold slice_from1, split.
    rewrite length_skipn, SplitFacts.split_from_length. lia. }
  split.
  - eexists. unfold SISSOVersion.from_string.
    rewrite (SplitFacts.split_free Ha). cbn [index nth_error bind ret].
    split; [reflexivity |]. cbn [SISSOVersion.header_string SISSOVersion.version].
    auto.
  - eexists. unfold SISSOVersion.from_string.
    change (a ++ L "," ++ b) with (a ++ ","%char :: b).
    rewrite (SplitFacts.split_sep b Ha). cbn [index nth_error bind ret].
    split; [reflexivity |]. cbn [SISSOVersion.header_string SISSOVersion.version].
    auto.
Qed.

Lemma version_components_before_comma_witness :
  exists v,
    SISSOVersion.from_string (L "  Version SISSO.3.0.2, June, 2020.") = inr v
    /\ length (SISSOVersion.version v) = 3.
Proof.
  destruct (@version_components_before_comma
              (L "  Version SISSO.3.0.2") (L " June, 2020."))
    as [_ (v & H1 & _ & _ & H2)].
  - repeat constructor; discriminate.
  - exists v. split; [exact H1 | exact H2].
Defined.

(** X2: A descriptor line: the identifier is the text before the first colon,
    the notation is the text between the first and the second colon
    without its first and its last character, whatever they are; what
    follows a second colon is not read, and a line without colon fails
    (by the error of [int], or else by [IndexError]). *)
Theorem descriptor_line_fields :
  forall a b tail : str,
    Forall (fun c => c <> ":"%char) a ->
    Forall (fun c => c <> ":"%char) b ->
    SISSODescriptor.from_string (a ++ L ":" ++ b)
    = (id <- int a ;; SISSODescriptor.__init__ id (slice_1_last b))
    /\ SISSODescriptor.from_string (a ++ L ":" ++ b ++ L ":" ++ tail)
       = SISSODescriptor.from_string (a ++ L ":" ++ b)
    /\ SISSODescriptor.from_string a = (id <- int a ;; raise IndexError).
Proof.
  intros a b tail Ha Hb.
  assert (H1 : SISSODescriptor.from_string (a ++ L ":" ++ b)
               = (id <- int a ;; SISSODescriptor.__init__ id (slice_1_last b))).
  { unfold SISSODescriptor.from_string.
    change (a ++ L ":" ++ b) with (a ++ ":"%char :: b).
    rewrite (SplitFacts.split_sep b Ha), (SplitFacts.split_free Hb).
    cbn [index nth_error bind ret]. reflexivity. }
  split; [exact H1 |]. split.
  - rewrite H1. unfold SISSODescriptor.from_string.
    change (a ++ L ":" ++ b ++ L ":" ++ tail)
      with (a ++ ":"%char :: (b ++ ":"%char :: tail)).
    rewrite (SplitFacts.split_sep _ Ha), (SplitFacts.split_sep tail Hb).
    cbn [index nth_error bind ret]. reflexivity.
  - unfold SISSODescriptor.from_string.
    rewrite (SplitFacts.split_free Ha). cbn [index nth_error bind ret].
    destruct (int a); reflexivity.
Qed.

Lemma descriptor_line_fields_witness :
  SISSODescriptor.from_string (L "7:[(f1+f2)]:[(f3)]")
  = SISSODescriptor.from_string (L "7:[(f1+f2)]")
  /\ SISSODescriptor.from_string (L "7:<(f1+f2)>")
     = SISSODescriptor.__init__ 7 (L "(f1+f2)")
  /\ SISSODescriptor.from_string (L "7") = inl IndexError.
Proof.
  destruct (@descriptor_line_fields (L "7") (L "[(f1+f2)]") (L "[(f3)]"))
    as (_ & H2 & H3); [repeat constructor; discriminate .. |].
  destruct (@descriptor_line_fields (L "7") (L "<(f1+f2)>") [])
    as (H1 & _); [repeat constructor; discriminate .. |].
  split; [exact H2 |]. split; [exact H1 | exact H3].
Defined.

(* ------------------------------------------------------------------ *)
(** ** The masking keeps the places *)

Module MaskFacts.
Import SISSODescriptor Occurrence.

Lemma masks_repeat (l : str) : Forall2 masks (repeat hash (length l)) l.
Proof.
  induction l as [| c l IH]; cbn [length repeat]; constructor.
  - left. reflexivity.
  - exact IH.
Qed.

Lemma masks_refl (l : str) : Forall2 masks l l.
Proof. induction l; constructor; [right; reflexivity | assumption]. Qed.

Lemma masks_trans (a b c : str) :
  Forall2 masks a b -> Forall2 masks b c -> Forall2 masks a c.
Proof.
  intros Hab. revert c.
  induction Hab as [| x y a b Hxy _ IH]; intros c Hbc; inversion Hbc; subst.
  - constructor.
  - constructor; [| apply IH; assumption].
    destruct Hxy as [-> | ->]; [left; reflexivity | assumption].
Qed.

Lemma masks_replace (old s : str) :
  old <> [] -> Forall2 masks (replace old (repeat hash (length old)) s) s.
Proof.
  intros Hold.
  remember (length s) as n eqn:Hn.
  revert s Hn. induction n as [n IH] using lt_wf_ind. intros s Hn.
  destruct s as [| c s].
  - rewrite replace_nil by exact Hold. constructor.
  - destruct (startswith old (c :: s)) eqn:E.
    + destruct (startswith_inv _ _ E) as [t Ht].
      destruct old as [| a old]; [contradiction |].
      rewrite Ht, replace_match.
      apply Forall2_app; [apply masks_repeat |].
      apply (IH (length t)); [| reflexivity].
      subst n. rewrite Ht, length_app. cbn [length]. lia.
    + rewrite replace_nomatch by assumption.
      constructor; [right; reflexivity |].
      apply (IH (length s)); [subst n; cbn [length]; lia | reflexivity].
Qed.

Lemma masks_fold (ops : list str) (s : str) :
  Forall (fun op => op <> []) ops ->
  Forall2 masks
          (fold_left (fun r op => replace op (repeat hash (length op)) r) ops s)
          s.
Proof.
  intros H. revert s. induction H as [| op ops Hop _ IH]; intros s.
  - apply masks_refl.
  - cbn [fold_left]. eapply masks_trans; [apply IH |].
    apply masks_replace. exact Hop.
Qed.

Lemma masks_replace_operators (s : str) :
  Forall2 masks (replace_operators s) s.
Proof.
  apply masks_fold. repeat constructor; discriminate.
Qed.

Lemma masks_free (c : ascii) (a b : str) :
  c <> hash -> Forall2 masks a b ->
  Forall (fun d => d <> c) b -> Forall (fun d => d <> c) a.
Proof.
  intros Hc H. induction H as [| x y a b Hxy _ IH]; intros Hb.
  - constructor.
  - inversion Hb; subst. constructor; [| apply IH; assumption].
    destruct Hxy as [-> | ->]; [congruence | assumption].
Qed.

Lemma replace_char_free (c : ascii) (s : str) :
  c <> hash -> Forall (fun d => d <> c) (replace [c] (repeat hash 1) s).
Proof.
  intros Hc. unfold replace.
  induction s as [| d s IH]; cbn [replace_from startswith length Nat.sub].
  - constructor.
  - destruct (Ascii.eqb c d) eqn:E; cbn [andb repeat app].
    + constructor; [congruence | exact IH].
    + apply Ascii.eqb_neq in E. constructor; [congruence | exact IH].
Qed.

(** After the masking of the operators [ops], of which [[c]] is one, the
    character [c] is gone. *)
Lemma fold_char_free (c : ascii) (ops1 ops2 : list str) (s : str) :
  c <> hash ->
  Forall (fun op => op <> []) ops2 ->
  Forall (fun d => d <> c)
         (fold_left (fun r op => replace op (repeat hash (length op)) r)
                    (ops1 ++ [c] :: ops2) s).
Proof.
  intros Hc H2. rewrite fold_left_app. cbn [fold_left].
  eapply masks_free; [exact Hc | apply masks_fold; exact H2 |].
  apply (replace_char_free _ Hc).
Qed.

End MaskFacts.

(** X3: The masking of the operators works in place: the replaced string is
    as long as the notation, holds at every place the marker or the
    character of the notation, and holds none of the characters
    [+ - * / ( )]. *)
Theorem masking_keeps_places :
  forall s : str,
    length (SISSODescriptor.replace_operators s) = length s
    /\ (forall i c,
           nth_error (SISSODescriptor.replace_operators s) i = Some c ->
           c = SISSODescriptor.hash \/ nth_error s i = Some c)
    /\ Forall (fun c => ~ In c (L "+-*/()"))
              (SISSODescriptor.replace_operators s).
Proof.
  intros s.
  pose proof (MaskFacts.masks_replace_operators s) as H.
  split; [eapply Forall2_length; exact H |]. split.
  - intros i c Hi.
    destruct (@Forall2_nth_error _ _ _ _ _ i c H Hi)
      as (d & Hd & [-> | ->]); [left; reflexivity | right; exact Hd].
  - assert (F : forall c ops1 ops2,
               c <> SISSODescriptor.hash ->
               SISSODescriptor.OPERATORS_REPLACEMENT = ops1 ++ [c] :: ops2 ->
               Forall (fun d => d <> c) (SISSODescriptor.replace_operators s)).
    { intros c ops1 ops2 Hc E. unfold SISSODescriptor.replace_operators.
      rewrite E. apply MaskFacts.fold_char_free; [exact Hc |].
      assert (A : Forall (fun op : str => op <> [])
                         SISSODescriptor.OPERATORS_REPLACEMENT)
        by (repeat constructor; discriminate).
      rewrite E in A. apply Forall_app in A as [_ A].
      inversion A; assumption. }
    pose proof (F "+"%char (firstn 13 SISSODescriptor.OPERATORS_REPLACEMENT)
                  (skipn 14 SISSODescriptor.OPERATORS_REPLACEMENT)
                  ltac:(discriminate) eq_refl) as P1.
    pose proof (F "-"%char (firstn 14 SISSODescriptor.OPERATORS_REPLACEMENT)
                  (skipn 15 SISSODescriptor.OPERATORS_REPLACEMENT)
                  ltac:(discriminate) eq_refl) as P2.
    pose proof (F "*"%char (firstn 15 SISSODescriptor.OPERATORS_REPLACEMENT)
                  (skipn 16 SISSODescriptor.OPERATORS_REPLACEMENT)
                  ltac:(discriminate) eq_refl) as P3.
    pose proof (F "/"%char (firstn 16 SISSODescriptor.OPERATORS_REPLACEMENT)
                  (skipn 17 SISSODescriptor.OPERATORS_REPLACEMENT)
                  ltac:(discriminate) eq_refl) as P4.
    pose proof (F "("%char (firstn 17 SISSODescriptor.OPERATORS_REPLACEMENT)
                  (skipn 18 SISSODescriptor.OPERATORS_REPLACEMENT)
                  ltac:(discriminate) eq_refl) as P5.
    pose proof (F ")"%char (firstn 18 SISSODescriptor.OPERATORS_REPLACEMENT)
                  (skipn 19 SISSODescriptor.OPERATORS_REPLACEMENT)
                  ltac:(discriminate) eq_refl) as P6.
    rewrite Forall_forall in *. intros c Hin Hc.
    cbn in Hc.
    destruct Hc as [<- | [<- | [<- | [<- | [<- | [<- | []]]]]]];
      [ exact (P1 _ Hin eq_refl) | exact (P2 _ Hin eq_refl)
      | exact (P3 _ Hin eq_refl) | exact (P4 _ Hin eq_refl)
      | exact (P5 _ Hin eq_refl) | exact (P6 _ Hin eq_refl) ].
Qed.

(* ------------------------------------------------------------------ *)
(** ** What the scanning loop keeps *)

Module OccurrenceFacts.
Import SISSODescriptor Occurrence.

Lemma str_eqb_eq (a b : str) : str_eqb a b = true <-> a = b.
Proof.
  unfold str_eqb. destruct (list_eq_dec ascii_dec a b); split; intros H;
    congruence.
Qed.

Lemma notin_true (x : str) (l : list str) : notin x l = true <-> ~ In x l.
Proof.
  unfold notin. rewrite negb_true_iff. split.
  - intros H Hin.
    assert (E : existsb (str_eqb x) l = true).
    { apply existsb_exists. exists x. split; [exact Hin |].
      apply str_eqb_eq. reflexivity. }
    congruence.
  - intros H. destruct (existsb (str_eqb x) l) eqn:E; [| reflexivity].
    apply existsb_exists in E as (y & Hy & Exy).
    apply str_eqb_eq in Exy. subst y. contradiction.
Qed.

Lemma notin_false (x : str) (l : list str) : notin x l = false -> In x l.
Proof.
  unfold notin. rewrite negb_false_iff. intros E.
  apply existsb_exists in E as (y & Hy & Exy).
  apply str_eqb_eq in Exy. subst y. exact Hy.
Qed.

Lemma slice_forall (P : ascii -> Prop) (i j : nat) (r : str) :
  (forall x, i <= x < j -> exists c, nth_error r x = Some c /\ P c) ->
  Forall P (slice i j r).
Proof.
  intros H. apply Forall_forall. intros c Hin.
  apply In_nth_error in Hin as [n Hn]. unfold slice in Hn.
  rewrite nth_error_firstn in Hn.
  destruct (n <? j - i) eqn:E; [| discriminate].
  apply Nat.ltb_lt in E. rewrite nth_error_skipn in Hn.
  destruct (H (i + n)) as (c' & Hc' & Pc'); [lia |].
  rewrite Hn in Hc'. injection Hc' as <-. exact Pc'.
Qed.

Lemma ordered_snoc (fs : list fdict) (f : fdict) :
  ordered fs -> Forall (fun g => iend g <= istart f) fs ->
  ordered (fs ++ [f]).
Proof.
  intros Ho Hf i j g h Hij Hg Hh.
  assert (Hj : j < length (fs ++ [f])) by (apply nth_error_Some; congruence).
  rewrite length_app in Hj. cbn [length] in Hj.
  rewrite nth_error_app1 in Hg by lia.
  destruct (Nat.eq_dec j (length fs)) as [-> | Hne].
  - rewrite nth_error_app2, Nat.sub_diag in Hh by lia.
    injection Hh as <-. rewrite Forall_forall in Hf. apply Hf.
    eapply nth_error_In. exact Hg.
  - rewrite nth_error_app1 in Hh by lia. exact (Ho i j g h Hij Hg Hh).
Qed.

Lemma covered_snoc (fs : list fdict) (f : fdict) (j : nat) :
  covered fs j -> covered (fs ++ [f]) j.
Proof.
  intros (g & Hg & Hj). exists g. split; [| exact Hj].
  apply in_or_app. left. exact Hg.
Qed.

Lemma invariant_start (r : str) :
  invariant r 0 {| in_feature_word := false; ichar_start := None;
                   scan_inputs := []; scan_features := [] |}.
Proof.
  unfold invariant.
  cbn [in_feature_word ichar_start scan_inputs scan_features map].
  split; [constructor |]. split.
  { intros i j f g _ Hf. destruct i; discriminate. }
  split; [split; [left; reflexivity | constructor] |].
  split; [intros j c Hj; lia |].
  split; [constructor | intros name; reflexivity].
Qed.

Lemma invariant_step (r : str) (k : nat) (c : ascii) (st : scan_state) :
  invariant r k st -> nth_error r k = Some c ->
  invariant r (S k) (scan_step r st (k, c)).
Proof.
  intros (I1 & I2 & I3 & I4 & I5 & I6) Hc.
  unfold scan_step.
  destruct (in_feature_word st) eqn:Ein; cbn [andb negb].
  - destruct I3 as (k0 & Hk0 & Hlt & Hrun & Hleft & Hend).
    destruct (Ascii.eqb c hash) eqn:Ec; cbn [andb negb].
    + (* the marker ends the feature name *)
      apply Ascii.eqb_eq in Ec. subst c.
      rewrite Hk0. change (slice_opt (Some k0) k r) with (slice k0 k r).
      set (name := slice k0 k r).
      set (f := {| featname := name; istart := k0; iend := k |}).
      assert (Hm : marks r f).
      { unfold marks, f. cbn [featname istart iend].
        split; [exact Hlt |]. split; [reflexivity |].
        split; [apply slice_forall; exact Hrun |].
        split; [exact Hleft | exact Hc]. }
      unfold invariant.
      cbn [in_feature_word ichar_start scan_inputs scan_features].
      split; [apply Forall_app; split; [exact I1 | constructor; [exact Hm | constructor]] |].
      split; [apply ordered_snoc; [exact I2 | exact Hend] |].
      split.
      { split; [right; replace (S k - 1) with k by lia; exact Hc |].
        apply Forall_app. split.
        - eapply Forall_impl; [| exact Hend]. cbn. intros; lia.
        - constructor; [cbn; lia | constructor]. }
      split.
      { intros j c' Hj Hc' Hne.
        assert (j <> k) by (intros ->; congruence).
        left. destruct (I4 j c' ltac:(lia) Hc' Hne) as [Hcov | (_ & k1 & Hk1 & Hle)].
        - apply covered_snoc. exact Hcov.
        - exists f. split; [apply in_or_app; right; left; reflexivity |].
          cbn [f istart iend]. rewrite Hk0 in Hk1. injection Hk1 as <-. lia. }
      rewrite map_app. cbn [map featname f].
      destruct (notin name (scan_inputs st)) eqn:En.
      * apply notin_true in En. split.
        -- apply NoDup_app; [exact I5 | repeat constructor; intros [] |].
           intros a Ha [<- | []]. contradiction.
        -- intros n. rewrite !in_app_iff, I6. reflexivity.
      * apply notin_false in En. split; [exact I5 |].
        intros n. rewrite in_app_iff, <- I6. cbn [In]. split.
        -- intros H. left. exact H.
        -- intros [H | [<- | []]]; assumption.
    + (* inside the feature name *)
      apply Ascii.eqb_neq in Ec.
      unfold invariant. rewrite Ein.
      split; [exact I1 |]. split; [exact I2 |]. split.
      { exists k0. split; [exact Hk0 |]. split; [lia |].
        split; [| split; [exact Hleft | exact Hend]].
        intros j Hj. destruct (Nat.eq_dec j k) as [-> | Hne].
        - exists c. split; assumption.
        - apply Hrun. lia. }
      split; [| split; [exact I5 | exact I6]].
      intros j c' Hj Hc' Hne.
      destruct (Nat.eq_dec j k) as [-> | Hjk].
      * right. split; [reflexivity |]. exists k0. split; [exact Hk0 | lia].
      * apply (I4 j c'); [lia | assumption ..].
  - destruct I3 as (Hleft & Hend).
    destruct (Ascii.eqb c hash) eqn:Ec; cbn [andb negb].
    + (* between two feature names *)
      apply Ascii.eqb_eq in Ec. subst c.
      unfold invariant. rewrite Ein.
      split; [exact I1 |]. split; [exact I2 |]. split.
      { split; [right; replace (S k - 1) with k by lia; exact Hc |].
        eapply Forall_impl; [| exact Hend]. cbn. intros; lia. }
      split; [| split; [exact I5 | exact I6]].
      intros j c' Hj Hc' Hne.
      assert (j <> k) by (intros ->; congruence).
      apply (I4 j c'); [lia | assumption ..].
    + (* a feature name begins *)
      apply Ascii.eqb_neq in Ec.
      unfold invariant.
      cbn [in_feature_word ichar_start scan_inputs scan_features].
      split; [exact I1 |]. split; [exact I2 |]. split.
      { exists k. split; [reflexivity |]. split; [lia |].
        split; [| split; [exact Hleft | exact Hend]].
        intros j Hj. assert (j = k) as -> by lia.
        exists c. split; assumption. }
      split; [| split; [exact I5 | exact I6]].
      intros j c' Hj Hc' Hne.
      destruct (Nat.eq_dec j k) as [-> | Hjk].
      * right. split; [reflexivity |]. exists k. split; [reflexivity | lia].
      * destruct (I4 j c' ltac:(lia) Hc' Hne) as [Hcov | (Hin & _)];
          [left; exact Hcov | discriminate].
Qed.

Lemma invariant_fold (r : str) (l pre : str) (st : scan_state) :
  r = pre ++ l ->
  invariant r (length pre) st ->
  invariant r (length r)
            (fold_left (scan_step r) (combine (seq (length pre) (length l)) l) st).
Proof.
  revert pre st. induction l as [| c l IH]; intros pre st Hr Hi.
  - cbn [length seq combine fold_left]. rewrite app_nil_r in Hr. subst r. exact Hi.
  - cbn [length seq combine fold_left].
    assert (Hr' : r = (pre ++ [c]) ++ l) by (rewrite <- app_assoc; exact Hr).
    specialize (IH (pre ++ [c]) (scan_step r st (length pre, c)) Hr').
    rewrite length_app in IH. cbn [length] in IH.
    rewrite Nat.add_1_r in IH. apply IH.
    apply invariant_step; [exact Hi |].
    rewrite Hr, nth_error_app2, Nat.sub_diag by lia. reflexivity.
Qed.

Lemma invariant_scan (r : str) : invariant r (length r) (scan r).
Proof.
  unfold scan, enumerate.
  apply (@invariant_fold r r [] _ eq_refl (invariant_start r)).
Qed.

(** After a marker at the end the loop is outside any feature name. *)
Lemma scan_ends_outside (r : str) :
  hash_at_both_ends r = true -> in_feature_word (scan r) = false.
Proof.
  intros H. destruct (invariant_scan r) as (_ & _ & I3 & _).
  destruct (in_feature_word (scan r)); [| reflexivity].
  destruct I3 as (k0 & _ & Hlt & Hrun & _).
  destruct r as [| c r]; [discriminate |].
  unfold hash_at_both_ends in H. apply andb_true_iff in H as [_ H].
  apply Ascii.eqb_eq in H.
  destruct (Hrun (length (c :: r) - 1)) as (c' & Hc' & Hne); [lia |].
  rewrite (@app_removelast_last _ (c :: r) c) in Hc' at 1 by discriminate.
  rewrite nth_error_app2 in Hc'.
  - assert (E : length (c :: r) - 1 - length (removelast (c :: r)) = 0).
    { rewrite (@app_removelast_last _ (c :: r) c) at 1 by discriminate.
      rewrite length_app. cbn [length]. lia. }
    rewrite E in Hc'. cbn [nth_error] in Hc'. congruence.
  - rewrite (@app_removelast_last _ (c :: r) c) at 2 by discriminate.
    rewrite length_app. cbn [length]. lia.
Qed.

Lemma decode_function_inr (s : str) (d : decoded) :
  _decode_function s = inr d ->
  hash_at_both_ends (replace_operators s) = true
  /\ features_in_string d = scan_features (scan (replace_operators s))
  /\ inputs d = scan_inputs (scan (replace_operators s))
  /\ evalstring d
     = numpy_operators (rebuild s (scan_features (scan (replace_operators s)))).
Proof.
  intros H.
  assert (Hs : s <> []).
  { intros ->. rewrite DecoderFacts.decode_function_empty in H. discriminate. }
  rewrite DecoderFacts.decode_function_nonempty in H by exact Hs.
  destruct (hash_at_both_ends (replace_operators s)); [| discriminate].
  pose proof (f_equal (fun x : exc decoded =>
                         match x with inr y => y | inl _ => d end) H) as E.
  cbv beta iota in E. rewrite <- E.
  cbn [features_in_string inputs evalstring].
  split; [reflexivity |]. split; [reflexivity |]. split; reflexivity.
Qed.

Lemma slice_masks (r s : str) (i j : nat) :
  Forall2 masks r s ->
  Forall (fun c => c <> hash) (slice i j r) ->
  slice i j r = slice i j s.
Proof.
  unfold slice. intros H. revert i j.
  induction H as [| x y r s Hxy _ IH]; intros i j Hf.
  - reflexivity.
  - destruct i as [| i].
    + rewrite Nat.sub_0_r in *. cbn [skipn] in *.
      destruct j as [| j]; [reflexivity |].
      cbn [firstn] in *. inversion Hf; subst.
      destruct Hxy as [-> | ->]; [congruence |]. f_equal.
      specialize (IH 0 j). rewrite Nat.sub_0_r in IH. cbn [skipn] in IH.
      apply IH. assumption.
    + cbn [skipn]. destruct j as [| j].
      * reflexivity.
      * change (S j - S i) with (j - i) in *. apply IH. exact Hf.
Qed.

End OccurrenceFacts.

(** X4: The entries of [features_in_string] of a decoded string are the
    feature names of the notation: each is a run of the replaced string
    that holds no marker, is not empty, lies between two markers, and is
    the text of the notation at the same offsets; the entries are in
    order and do not overlap, and every character of the replaced string
    that is not the marker lies in one of them. *)
Theorem decode_occurrences_mark_names :
  forall (s : str) (d : SISSODescriptor.decoded),
    SISSODescriptor._decode_function s = inr d ->
    Forall (fun f =>
              Occurrence.marks (SISSODescriptor.replace_operators s) f
              /\ SISSODescriptor.featname f
                 = slice (SISSODescriptor.istart f) (SISSODescriptor.iend f) s)
           (SISSODescriptor.features_in_string d)
    /\ Occurrence.ordered (SISSODescriptor.features_in_string d)
    /\ forall j c,
        nth_error (SISSODescriptor.replace_operators s) j = Some c ->
        c <> SISSODescriptor.hash ->
        Occurrence.covered (SISSODescriptor.features_in_string d) j.
Proof.
  intros s d H.
  apply OccurrenceFacts.decode_function_inr in H as (Hh & -> & _ & _).
  pose proof (OccurrenceFacts.invariant_scan (SISSODescriptor.replace_operators s))
    as (I1 & I2 & _ & I4 & _).
  split; [| split; [exact I2 |]].
  - eapply Forall_impl; [| exact I1]. intros f Hm. split; [exact Hm |].
    destruct Hm as (_ & Hn & Hf & _). rewrite Hn in Hf |- *.
    apply OccurrenceFacts.slice_masks;
      [apply MaskFacts.masks_replace_operators | exact Hf].
  - intros j c Hj Hc.
    destruct (I4 j c) as [Hcov | (Hin & _)]; [| exact Hj | exact Hc | exact Hcov |].
    + apply nth_error_Some. congruence.
    + rewrite (OccurrenceFacts.scan_ends_outside _ Hh) in Hin. discriminate.
Qed.

Lemma decode_occurrences_mark_names_witness :
  exists d,
    SISSODescriptor._decode_function (L "((f1-f2)+(f3-f4))") = inr d
    /\ Forall (fun f =>
                 SISSODescriptor.featname f
                 = slice (SISSODescriptor.istart f) (SISSODescriptor.iend f)
                         (L "((f1-f2)+(f3-f4))"))
              (SISSODescriptor.features_in_string d)
    /\ Occurrence.ordered (SISSODescriptor.features_in_string d).
Proof.
  destruct (SISSODescriptor._decode_function (L "((f1-f2)+(f3-f4))"))
    as [e | d] eqn:E; [vm_compute in E; discriminate |].
  exists d. split; [reflexivity |].
  destruct (decode_occurrences_mark_names _ E) as (H1 & H2 & _).
  split; [| exact H2].
  eapply Forall_impl; [| exact H1]. intros f [_ Hf]. exact Hf.
Defined.

(** X5: The list [inputs] of a decoded string holds every feature name of
    [features_in_string], and each once. *)
Theorem decode_inputs_unique :
  forall (s : str) (d : SISSODescriptor.decoded),
    SISSODescriptor._decode_function s = inr d ->
    NoDup (SISSODescriptor.inputs d)
    /\ forall name,
        In name (SISSODescriptor.inputs d)
        <-> exists f, In f (SISSODescriptor.features_in_string d)
                      /\ SISSODescriptor.featname f = name.
Proof.
  intros s d H.
  apply OccurrenceFacts.decode_function_inr in H as (_ & -> & -> & _).
  pose proof (OccurrenceFacts.invariant_scan (SISSODescriptor.replace_operators s))
    as (_ & _ & _ & _ & I5 & I6).
  split; [exact I5 |]. intros name. rewrite I6, in_map_iff.
  split; intros (f & A & B); exists f; split; assumption.
Qed.

Lemma decode_inputs_unique_witness :
  exists d,
    SISSODescriptor._decode_function (L "((f1-f2)+(f1*f2))") = inr d
    /\ SISSODescriptor.inputs d = [L "f1"; L "f2"]
    /\ NoDup (SISSODescriptor.inputs d)
    /\ length (SISSODescriptor.features_in_string d) = 4.
Proof.
  destruct (SISSODescriptor._decode_function (L "((f1-f2)+(f1*f2))"))
    as [e | d] eqn:E; [vm_compute in E; discriminate |].
  exists d. split; [reflexivity |].
  destruct (decode_inputs_unique _ E) as (H1 & _).
  pose proof E as E'. vm_compute in E'. injection E' as <-.
  split; [reflexivity |]. split; [exact H1 | reflexivity].
Defined.

(* ------------------------------------------------------------------ *)
(** ** The decoder on the text of a term *)

Module TermFacts.
Import SISSODescriptor Formula Decoded.

Lemma occurrences_names (ps : list piece) (k k' : nat) :
  map featname (occurrences k ps) = map featname (occurrences k' ps).
Proof.
  revert k k'. induction ps as [| [t | name] ps IH]; intros k k';
    cbn [occurrences map featname].
  - reflexivity.
  - apply IH.
  - f_equal. apply IH.
Qed.

Lemma occurrences_app (ps qs : list piece) (k : nat) :
  exists k', occurrences k (ps ++ qs) = occurrences k ps ++ occurrences k' qs.
Proof.
  revert k. induction ps as [| [t | name] ps IH]; intros k;
    cbn [occurrences app].
  - exists k. reflexivity.
  - apply IH.
  - destruct (IH (k + length name)) as [k' Hk']. exists k'.
    rewrite Hk'. reflexivity.
Qed.

Lemma names_app (ps qs : list piece) (k : nat) :
  map featname (occurrences k (ps ++ qs))
  = map featname (occurrences 0 ps) ++ map featname (occurrences 0 qs).
Proof.
  destruct (occurrences_app ps qs k) as [k' ->].
  rewrite map_app, (occurrences_names ps k 0), (occurrences_names qs k' 0).
  reflexivity.
Qed.

Lemma names_token (t : token) (ps : list piece) (k : nat) :
  map featname (occurrences k (PToken t :: ps))
  = map featname (occurrences 0 ps).
Proof. cbn [occurrences]. apply occurrences_names. Qed.

Lemma occurrences_features (e : Formula.t) :
  map featname (occurrences 0 (pieces e)) = features e.
Proof.
  induction e as [name | op a IHa b IHb | f a IHa | a IHa
                  | a IHa b IHb | p a IHa];
    cbn [pieces features].
  - reflexivity.
  - rewrite names_token, names_app, names_token, names_app, IHa, IHb.
    cbn [occurrences map]. rewrite app_nil_r. reflexivity.
  - rewrite names_token, names_app, IHa.
    cbn [occurrences map]. rewrite app_nil_r. reflexivity.
  - rewrite names_token, names_app, IHa.
    cbn [occurrences map]. rewrite app_nil_r. reflexivity.
  - rewrite names_token, names_app, names_token, names_app, IHa, IHb.
    cbn [occurrences map]. rewrite app_nil_r. reflexivity.
  - rewrite names_token, names_app, IHa.
    cbn [occurrences map]. rewrite app_nil_r. reflexivity.
Qed.

Lemma write_with_forall (P : ascii -> Prop) (tf : token -> str)
      (nf : str -> str) (e : Formula.t) :
  (forall k, Forall P (tf k)) ->
  Forall (fun name => Forall P (nf name)) (features e) ->
  Forall P (write_with tf nf e).
Proof.
  intros Ht.
  induction e as [name | op a IHa b IHb | f a IHa | a IHa
                  | a IHa b IHb | p a IHa];
    cbn [write_with features]; intros Hn;
    try (apply Forall_app in Hn as [Hna Hnb]);
    repeat (apply Forall_app; split); auto.
  inversion Hn; assumption.
Qed.

Lemma spelling_no_colon (k : token) :
  Forall (fun c => c <> ":"%char) (spelling k).
Proof. destruct k; repeat constructor; discriminate. Qed.

Lemma slice_brackets (w : str) (a b : ascii) :
  slice_1_last (a :: w ++ [b]) = w.
Proof. unfold slice_1_last. cbn [skipn]. apply removelast_last. Qed.

End TermFacts.

(** X6: The decoder on the notation string of a term: the decoded string is
    the term written with [df['name']] for every feature and numpy's
    spelling for every operator, [features_in_string] lists the features
    of the term from left to right, and [inputs] holds the same names,
    each once. *)
Theorem decode_term_features :
  forall e : Formula.t,
    Formula.wrapped e = true ->
    Formula.names_ok e ->
    exists d,
      SISSODescriptor._decode_function (Formula.write e) = inr d
      /\ SISSODescriptor.evalstring d = Decoded.py_write e
      /\ map SISSODescriptor.featname (SISSODescriptor.features_in_string d)
         = Formula.features e
      /\ NoDup (SISSODescriptor.inputs d)
      /\ forall name,
          In name (SISSODescriptor.inputs d) <-> In name (Formula.features e).
Proof.
  intros e Hw Hn.
  destruct (@RebuildFacts.decode_write e Hw Hn) as [inputs Hd].
  eexists. split; [exact Hd |].
  cbn [SISSODescriptor.evalstring SISSODescriptor.features_in_string
       SISSODescriptor.inputs].
  split; [reflexivity |]. split; [apply TermFacts.occurrences_features |].
  pose proof (@OccurrenceFacts.decode_function_inr _ _ Hd) as (_ & Hf & Hi & _).
  cbn [SISSODescriptor.features_in_string SISSODescriptor.inputs] in Hf, Hi.
  pose proof (OccurrenceFacts.invariant_scan
                (SISSODescriptor.replace_operators (Formula.write e)))
    as (_ & _ & _ & _ & I5 & I6).
  rewrite <- Hi in I5, I6. rewrite <- Hf in I6.
  split; [exact I5 |]. intros name.
  rewrite I6, TermFacts.occurrences_features. reflexivity.
Qed.

Lemma decode_term_features_witness :
  exists d,
    SISSODescriptor._decode_function (L "((f1-f2)+(f3-f4))") = inr d
    /\ SISSODescriptor.evalstring d
       = L "((df['f1']-df['f2'])+(df['f3']-df['f4']))"
    /\ map SISSODescriptor.featname (SISSODescriptor.features_in_string d)
       = [L "f1"; L "f2"; L "f3"; L "f4"].
Proof.
  destruct (@decode_term_features Sample.term) as (d & H1 & H2 & H3 & _).
  - reflexivity.
  - repeat constructor; discriminate.
  - exists d. split; [exact H1 |]. split; [exact H2 | exact H3].
Defined.

(** X7: A descriptor line round trip: the line made of an integer, a colon
    and the notation string of a term in brackets gives the descriptor
    with that identifier, that notation string and the decoded string of
    the term. *)
Theorem descriptor_line_round_trip :
  forall (a : str) (n : Z) (e : Formula.t),
    int a = inr n ->
    Forall (fun c => c <> ":"%char) a ->
    Formula.wrapped e = true ->
    Formula.names_ok e ->
    Forall (fun name => Forall (fun c => c <> ":"%char) name)
           (Formula.features e) ->
    SISSODescriptor.from_string (a ++ L ":[" ++ Formula.write e ++ L "]")
    = inr {| SISSODescriptor.descriptor_id := n;
             SISSODescriptor.descriptor_string := Formula.write e;
             SISSODescriptor.self_evalstring := Decoded.py_write e |}.
Proof.
  intros a n e Hint Ha Hw Hn Hc.
  destruct (@RebuildFacts.decode_write e Hw Hn) as [inputs Hd].
  unfold SISSODescriptor.from_string.
  change (a ++ L ":[" ++ Formula.write e ++ L "]")
    with (a ++ ":"%char :: ("["%char :: Formula.write e ++ ["]"%char])).
  rewrite (SplitFacts.split_sep _ Ha).
  rewrite SplitFacts.split_free.
  - cbn [index nth_error bind ret]. rewrite Hint. cbn [bind].
    rewrite TermFacts.slice_brackets.
    unfold SISSODescriptor.__init__. rewrite Hd. reflexivity.
  - constructor; [discriminate |]. apply Forall_app. split.
    + apply TermFacts.write_with_forall;
        [apply TermFacts.spelling_no_colon | exact Hc].
    + repeat constructor; discriminate.
Qed.

Lemma descriptor_line_round_trip_witness :
  SISSODescriptor.from_string (L "  1:[((f1-f2)+(f3-f4))]")
  = inr Sample.descriptor.
Proof.
  apply (@descriptor_line_round_trip (L "  1") 1%Z Sample.term).
  - reflexivity.
  - repeat constructor; discriminate.
  - reflexivity.
  - repeat constructor; discriminate.
  - repeat constructor; discriminate.
Defined.

(* ------------------------------------------------------------------ *)
(** ** What the loop over the lines of a model keeps *)

Module ModelFacts.
Import SISSOModel.

Lemma foldM_invariant {A St} (body : St -> A -> exc St) (P : St -> Prop)
      (l : list A) :
  (forall s a s', P s -> body s a = inr s' -> P s') ->
  forall s s', P s -> foldM body l s = inr s' -> P s'.
Proof.
  intros Hstep. induction l as [| a l IH]; intros s s' Hs H; cbn [foldM] in H.
  - injection H as <-. exact Hs.
  - apply bind_inr in H as (s1 & H1 & H2).
    apply (IH s1 s'); [| exact H2]. exact (Hstep s a s1 Hs H1).
Qed.

Ltac invert_binds :=
  repeat match goal with
         | H : bind _ _ = inr _ |- _ =>
             let x := fresh "x" in
             let Hx := fresh "Hx" in
             apply bind_inr in H as (x & Hx & H)
         | H : ret _ = inr _ |- _ => unfold ret in H
         | H : inr _ = inr _ |- _ => injection H as H
         end.

Section Loop.
Variable F : Type.
Variable float : str -> exc F.
Variable dimension : Z.

(** The descriptors read are not more than the dimension, and the two
    error lists grow together. *)
Lemma loop_body_keeps (st st' : loop_state F) (line : str) :
  (match l_descriptors st with
   | Some ds => (Z.of_nat (length ds) <= Z.max 0 dimension)%Z
   | None => True
   end /\ length (l_rmse st) = length (l_maxae st)) ->
  loop_body float dimension st line = inr st' ->
  match l_descriptors st' with
  | Some ds => (Z.of_nat (length ds) <= Z.max 0 dimension)%Z
  | None => True
  end /\ length (l_rmse st') = length (l_maxae st').
Proof.
  intros [Hd Hr] H. unfold loop_body in H.
  destruct (contains (L "@@@descriptor") line).
  { invert_binds. subst st'. cbn. split; [lia | exact Hr]. }
  destruct (expects_descriptor dimension st) eqn:Ee.
  { invert_binds. subst st'. unfold expects_descriptor in Ee.
    cbn [set_descriptors l_descriptors l_rmse l_maxae].
    split; [| exact Hr].
    destruct (l_descriptors st) as [ds |]; [| discriminate].
    apply Z.ltb_lt in Ee. rewrite length_app. cbn [length]. lia. }
  destruct (contains (L "coefficients_") line).
  { invert_binds. subst st'. cbn [l_descriptors l_rmse l_maxae].
    split; assumption. }
  destruct (contains (L "Intercept_") line).
  { invert_binds. subst st'. cbn [l_descriptors l_rmse l_maxae].
    split; assumption. }
  destruct (contains (L "RMSE,MaxAE_") line).
  { invert_binds. subst st'. cbn [l_descriptors l_rmse l_maxae].
    split; [assumption |]. rewrite !length_app. cbn [length]. lia. }
  invert_binds. subst st'. split; assumption.
Qed.

(** Outside the marker line the loop never sets [descriptors]. *)
Lemma loop_body_none (st st' : loop_state F) (line : str) :
  contains (L "@@@descriptor") line = false ->
  l_descriptors st = None ->
  loop_body float dimension st line = inr st' ->
  l_descriptors st' = None.
Proof.
  intros Hm Hn H. unfold loop_body, expects_descriptor in H.
  rewrite Hm, Hn in H.
  destruct (contains (L "coefficients_") line).
  { invert_binds. subst st'. first [exact Hn | reflexivity]. }
  destruct (contains (L "Intercept_") line).
  { invert_binds. subst st'. first [exact Hn | reflexivity]. }
  destruct (contains (L "RMSE,MaxAE_") line).
  { invert_binds. subst st'. first [exact Hn | reflexivity]. }
  invert_binds. subst st'. first [exact Hn | reflexivity].
Qed.

Lemma loop_body_skip (st : loop_state F) (line : str) :
  contains (L "@@@descriptor") line = false ->
  contains (L "coefficients_") line = false ->
  contains (L "Intercept_") line = false ->
  contains (L "RMSE,MaxAE_") line = false ->
  l_descriptors st = None ->
  loop_body float dimension st line = ret st.
Proof.
  intros H1 H2 H3 H4 Hn. unfold loop_body, expects_descriptor.
  rewrite H1, H2, H3, H4, Hn. reflexivity.
Qed.

End Loop.

Lemma foldM_none (F : Type) (float : str -> exc F) (dimension : Z)
      (lines : list str) :
  Forall (fun line => contains (L "@@@descriptor") line = false) lines ->
  forall st st',
    l_descriptors st = None ->
    foldM (loop_body float dimension) lines st = inr st' ->
    l_descriptors st' = None.
Proof.
  induction 1 as [| line lines Hl _ IH]; intros st st' Hn H; cbn [foldM] in H.
  - injection H as <-. exact Hn.
  - apply bind_inr in H as (s1 & H1 & H2).
    apply (IH s1 st'); [| exact H2].
    exact (loop_body_none _ _ _ _ Hl Hn H1).
Qed.

Lemma foldM_skip (F : Type) (float : str -> exc F) (dimension : Z)
      (lines : list str) :
  Forall (fun line =>
            contains (L "@@@descriptor") line = false
            /\ contains (L "coefficients_") line = false
            /\ contains (L "Intercept_") line = false
            /\ contains (L "RMSE,MaxAE_") line = false) lines ->
  forall st,
    l_descriptors st = None ->
    foldM (loop_body float dimension) lines st = ret st.
Proof.
  induction 1 as [| line lines (H1 & H2 & H3 & H4) _ IH]; intros st Hn;
    cbn [foldM].
  - reflexivity.
  - rewrite (loop_body_skip float dimension st line H1 H2 H3 H4 Hn).
    cbn [bind ret]. apply IH. exact Hn.
Qed.

End ModelFacts.

(** X8: A model that parses: its dimension is the integer that ends the
    first line; it holds no more descriptors than its dimension (none
    when the dimension is not positive); and its lists of errors, [rmse]
    and [maxae], are as long as one another. *)
Theorem model_parse_invariants :
  forall (F : Type) (float : str -> exc F) (string : str) (m : SISSOModel.t F),
    SISSOModel.from_string float string = inr m ->
    (exists line0 word,
        hd_error (split newline string) = Some line0
        /\ index_last (split_ws line0) = inr word
        /\ int word = inr (SISSOModel.dimension m))
    /\ (Z.of_nat (length (SISSOModel.descriptors m))
        <= Z.max 0 (SISSOModel.dimension m))%Z
    /\ exists r a,
        SISSOModel.rmse m = Some r /\ SISSOModel.maxae m = Some a
        /\ length r = length a.
Proof.
  intros F float string m H. unfold SISSOModel.from_string in H.
  apply bind_inr in H as (line0 & H0 & H).
  apply bind_inr in H as (word & Hw & H).
  apply bind_inr in H as (dim & Hd & H).
  apply bind_inr in H as (st & Hst & H).
  assert (Hinv : match SISSOModel.l_descriptors st with
                 | Some ds => (Z.of_nat (length ds) <= Z.max 0 dim)%Z
                 | None => True
                 end
                 /\ length (SISSOModel.l_rmse st)
                    = length (SISSOModel.l_maxae st)).
  { refine (@ModelFacts.foldM_invariant _ _
              (SISSOModel.loop_body float dim)
              (fun st =>
                 match SISSOModel.l_descriptors st with
                 | Some ds => (Z.of_nat (length ds) <= Z.max 0 dim)%Z
                 | None => True
                 end
                 /\ length (SISSOModel.l_rmse st)
                    = length (SISSOModel.l_maxae st))
              (split newline string) _ _ _ _ Hst).
    - intros s a s'. apply ModelFacts.loop_body_keeps.
    - cbn. split; [exact I | reflexivity]. }
  destruct Hinv as [Hds Hr].
  destruct (SISSOModel.l_descriptors st) as [ds |]; [| discriminate].
  injection H as <-.
  cbn [SISSOModel.dimension SISSOModel.descriptors SISSOModel.rmse
       SISSOModel.maxae].
  split.
  - exists line0, word. split; [| split; assumption].
    unfold index in H0. destruct (split newline string); [discriminate |].
    cbn [nth_error] in H0. injection H0 as <-. reflexivity.
  - split; [exact Hds |]. eexists _, _. split; [reflexivity |].
    split; [reflexivity | exact Hr].
Qed.

Lemma model_parse_invariants_witness :
  exists m,
    SISSOModel.from_string Sample.float Sample.block = inr m
    /\ (Z.of_nat (length (SISSOModel.descriptors m))
        <= Z.max 0 (SISSOModel.dimension m))%Z
    /\ exists r a,
        SISSOModel.rmse m = Some r /\ SISSOModel.maxae m = Some a
        /\ length r = length a.
Proof.
  destruct (SISSOModel.from_string Sample.float Sample.block)
    as [e | m] eqn:E; [vm_compute in E; discriminate |].
  exists m. split; [reflexivity |].
  destruct (model_parse_invariants _ _ E) as (_ & H2 & H3).
  split; [exact H2 | exact H3].
Defined.

(** X9: A block without a line that holds the descriptor marker never gives
    a model; when its lines hold none of the labels of the loop either,
    and its first line ends in an integer, the parse leaves by the error
    for the missing descriptors. *)
Theorem model_without_descriptor_marker :
  forall (F : Type) (float : str -> exc F) (string : str),
    Forall (fun line => contains (L "@@@descriptor") line = false)
           (split newline string) ->
    (forall m, SISSOModel.from_string float string <> inr m)
    /\ (Forall (fun line =>
                  contains (L "coefficients_") line = false
                  /\ contains (L "Intercept_") line = false
                  /\ contains (L "RMSE,MaxAE_") line = false)
               (split newline string) ->
        forall line0 word dim,
          hd_error (split newline string) = Some line0 ->
          index_last (split_ws line0) = inr word ->
          int word = inr dim ->
          SISSOModel.from_string float string
          = inl (ValueError MsgDescriptorNotFound)).
Proof.
  intros F float string Hm. split.
  - intros m H. unfold SISSOModel.from_string in H.
    apply bind_inr in H as (line0 & H0 & H).
    apply bind_inr in H as (word & Hw & H).
    apply bind_inr in H as (dim & Hd & H).
    apply bind_inr in H as (st & Hst & H).
    assert (Hn : SISSOModel.l_descriptors st = None).
    { eapply ModelFacts.foldM_none; [exact Hm | | exact Hst]. reflexivity. }
    rewrite Hn in H. discriminate.
  - intros Hl line0 word dim H0 Hw Hd. unfold SISSOModel.from_string.
    assert (Hi : index (split newline string) 0 = inr line0).
    { unfold index. destruct (split newline string); [discriminate |].
      cbn [hd_error] in H0. injection H0 as ->. reflexivity. }
    rewrite Hi. cbn [bind]. rewrite Hw. cbn [bind]. rewrite Hd. cbn [bind].
    rewrite ModelFacts.foldM_skip; [reflexivity | | reflexivity].
    rewrite Forall_forall in *. intros line Hin.
    destruct (Hl line Hin) as (A & B & C).
    repeat split; auto.
Qed.

Lemma model_without_descriptor_marker_witness :
  (forall m, SISSOModel.from_string Sample.float
                                    (Sample.text ["Dimension:   1"%string;
                                                  "  1D descriptor (model):"%string])
             <> inr m)
  /\ SISSOModel.from_string Sample.float
                            (Sample.text ["Dimension:   1"%string;
                                          "  1D descriptor (model):"%string])
     = inl (ValueError MsgDescriptorNotFound).
Proof.
  destruct (@model_without_descriptor_marker
              Q Sample.float
              (Sample.text ["Dimension:   1"%string;
                            "  1D descriptor (model):"%string]))
    as [H1 H2].
  - repeat constructor.
  - split; [exact H1 |].
    apply (H2 ltac:(repeat constructor) (L "Dimension:   1") (L "1") 1%Z);
      reflexivity.
Defined.

(* ------------------------------------------------------------------ *)
(** ** A column missing from the table *)

Module MissingFacts.
Import Formula Decoded Evaluation.

Lemma getitem_in (df : DataFrame) (name : str) :
  In name (map fst (columns df)) -> exists col, getitem df name = inr col.
Proof.
  intros Hin. unfold getitem.
  destruct (find (fun c => str_eqb (fst c) name) (columns df)) as [c |] eqn:E.
  - exists (snd c). reflexivity.
  - apply in_map_iff in Hin as (c & Hc & Hin).
    pose proof (find_none _ _ E c Hin) as N. cbn beta in N.
    rewrite Hc in N.
    assert (T : str_eqb name name = true)
      by (apply OccurrenceFacts.str_eqb_eq; reflexivity).
    congruence.
Qed.

Lemma getitem_not_in (df : DataFrame) (name : str) :
  ~ In name (map fst (columns df)) -> getitem df name = inl (KeyError name).
Proof.
  intros Hn. unfold getitem.
  destruct (find (fun c => str_eqb (fst c) name) (columns df)) as [c |] eqn:E;
    [| reflexivity].
  apply find_some in E as [Hin Hc].
  apply OccurrenceFacts.str_eqb_eq in Hc. exfalso. apply Hn.
  apply in_map_iff. exists c. split; assumption.
Qed.

Lemma split_features (fa fb pre post : list str) (name : str) :
  fa ++ fb = pre ++ name :: post ->
  (exists post', fa = pre ++ name :: post')
  \/ (exists pre', pre = fa ++ pre' /\ fb = pre' ++ name :: post).
Proof.
  intros H. apply app_eq_app in H as [l [[H1 H2] | [H1 H2]]].
  - destruct l as [| n l].
    + right. exists []. rewrite app_nil_r in H1. subst fa.
      rewrite app_nil_r. split; [reflexivity |]. cbn [app] in H2.
      symmetry. exact H2.
    + left. cbn [app] in H2. injection H2 as <- ->. exists l. exact H1.
  - right. exists l. split; assumption.
Qed.

Lemma function_value (f : unary) (df : DataFrame) :
  exists g, eval df (np_function f) = inr (VFun g).
Proof. destruct f; eexists; vm_compute; reflexivity. Qed.

(** The evaluation of the expression of a term stops at the first
    feature, from left to right, that the table does not hold. *)
Lemma eval_missing (df : DataFrame) (e : Formula.t) :
  well_formed df ->
  forall pre name post,
    features e = pre ++ name :: post ->
    Forall (fun n => In n (map fst (columns df))) pre ->
    ~ In name (map fst (columns df)) ->
    eval df (ast e) = inl (KeyError name).
Proof.
  intros Hw.
  assert (Hcols : forall (a : Formula.t) l,
             Forall (fun n => In n (map fst (columns df))) (features a ++ l) ->
             columns_in a df).
  { intros a l H. apply Forall_app in H as [H _]. unfold columns_in.
    eapply Forall_impl; [| exact H]. intros n. apply getitem_in. }
  induction e as [n | op a IHa b IHb | f a IHa | a IHa
                  | a IHa b IHb | p a IHa];
    intros pre name post Hf Hpre Hname; cbn [features ast] in *.
  - destruct pre as [| x pre]; cbn [app] in Hf.
    + injection Hf as ->. cbn [eval].
      change (lookup_name (L "df")) with (ret VFrame : exc Evaluation.value).
      cbn [bind ret]. rewrite (getitem_not_in _ _ Hname). reflexivity.
    + injection Hf as _ Hf. destruct pre; discriminate.
  - cbn [eval].
    destruct (split_features _ _ _ _ _ Hf) as [(post' & Ha) | (pre' & Hp & Hb)].
    + rewrite (IHa _ _ _ Ha Hpre Hname). reflexivity.
    + subst pre. rewrite (@EvalFacts.eval_term df a Hw (Hcols a pre' Hpre)).
      apply Forall_app in Hpre as [_ Hpre].
      rewrite (IHb _ _ _ Hb Hpre Hname). reflexivity.
  - cbn [eval]. destruct (function_value f df) as [g ->].
    rewrite (IHa _ _ _ Hf Hpre Hname). reflexivity.
  - cbn [eval]. destruct (function_value Exp df) as [g ->].
    rewrite (IHa _ _ _ Hf Hpre Hname). reflexivity.
  - cbn [eval]. destruct (function_value Abs df) as [g ->].
    destruct (split_features _ _ _ _ _ Hf) as [(post' & Ha) | (pre' & Hp & Hb)].
    + rewrite (IHa _ _ _ Ha Hpre Hname). reflexivity.
    + subst pre. rewrite (@EvalFacts.eval_term df a Hw (Hcols a pre' Hpre)).
      apply Forall_app in Hpre as [_ Hpre].
      rewrite (IHb _ _ _ Hb Hpre Hname). reflexivity.
  - cbn [eval]. rewrite (IHa _ _ _ Hf Hpre Hname). reflexivity.
Qed.

End MissingFacts.

(** X10: A descriptor evaluated on a table that lacks one of its features
    leaves by [KeyError] for the first feature, from left to right in
    the notation, that is not a column of the table; the feature names
    hold neither carriage return nor null character, with which [eval]
    fails before any column is looked up. *)
Theorem evaluate_missing_column :
  forall (id : Z) (e : Formula.t) (df : DataFrame)
         (pre post : list str) (name : str),
    Formula.wrapped e = true ->
    Formula.names_readable e ->
    well_formed df ->
    Formula.features e = pre ++ name :: post ->
    Forall (fun n => In n (map fst (columns df))) pre ->
    ~ In name (map fst (columns df)) ->
    exists d,
      SISSODescriptor.__init__ id (Formula.write e) = inr d
      /\ SISSODescriptor.evaluate d df = inl (KeyError name).
Proof.
  intros id e df pre post name Hw Hr Hdf Hf Hpre Hname.
  pose proof (LexFacts.names_readable_ok Hr) as Hn.
  destruct (@RebuildFacts.decode_write e Hw Hn) as [inputs Hd].
  eexists. split.
  - unfold SISSODescriptor.__init__. rewrite Hd. reflexivity.
  - unfold SISSODescriptor.evaluate, Evaluation.eval_string.
    cbn [SISSODescriptor.self_evalstring SISSODescriptor.evalstring].
    rewrite (ParseFacts.parse_py_write Hr).
    exact (@MissingFacts.eval_missing df e Hdf pre name post Hf Hpre Hname).
Qed.

Lemma evaluate_missing_column_witness :
  exists d,
    SISSODescriptor.__init__ 1 (L "((f1-f2)+(f3-f4))") = inr d
    /\ SISSODescriptor.evaluate
         d {| index_length := 2;
              columns := [ (L "f1", [5; 1]%R); (L "f2", [2; 1]%R);
                           (L "f4", [1; 2]%R) ] |}
       = inl (KeyError (L "f3")).
Proof.
  apply (@evaluate_missing_column
           1 Sample.term
           {| index_length := 2;
              columns := [ (L "f1", [5; 1]%R); (L "f2", [2; 1]%R);
                           (L "f4", [1; 2]%R) ] |}
           [L "f1"; L "f2"] [L "f4"] (L "f3")).
  - reflexivity.
  - repeat constructor; discriminate.
  - repeat constructor.
  - reflexivity.
  - repeat constructor; cbn; tauto.
  - cbn. intros [H | [H | [H | []]]]; discriminate.
Defined.

(* ------------------------------------------------------------------ *)
(** ** The loops of [predict] *)

Module LoopFacts.

Lemma foldM_ret {A St} (body : St -> A -> exc St) (l : list A) :
  (forall s a, body s a = ret s) -> forall s, foldM body l s = ret s.
Proof.
  intros H. induction l as [| a l IH]; intros s; cbn [foldM].
  - reflexivity.
  - rewrite H. cbn [bind ret]. apply IH.
Qed.

End LoopFacts.

(** X11: A model without rows of coefficients: [predict] evaluates no
    descriptor, whatever the descriptors are, and returns the array of
    the intercepts. *)
Theorem predict_without_coefficients :
  forall (self : SISSOModel.t R) (df : DataFrame),
    SISSOModel.coefficients self = [] ->
    SISSOModel.predict self df
    = inr (SISSOModel.transpose
             (SISSOModel.np_array
                (len df)
                (map (fun intercept => repeat intercept (len df))
                     (SISSOModel.intercept self)))).
Proof.
  intros self df H. unfold SISSOModel.predict. rewrite H.
  apply LoopFacts.foldM_ret. intros out [idescr descr]. reflexivity.
Qed.

Lemma predict_without_coefficients_witness :
  SISSOModel.predict
    {| SISSOModel.dimension := 1;
       SISSOModel.descriptors :=
         [ {| SISSODescriptor.descriptor_id := 1;
              SISSODescriptor.descriptor_string := L "(";
              SISSODescriptor.self_evalstring := L "(" |} ];
       SISSOModel.coefficients := [];
       SISSOModel.intercept := [7%R];
       SISSOModel.rmse := None;
       SISSOModel.maxae := None |}
    Sample.table
  = inr (Array2 2 1 [[7%R]; [7%R]]).
Proof.
  rewrite predict_without_coefficients by reflexivity. reflexivity.
Defined.

(** X12: The first descriptor that cannot be evaluated stops [predict]: with
    a row of coefficients that is not empty, the exception of the
    evaluation of the first descriptor leaves [predict]. *)
Theorem predict_propagates_evaluation_error :
  forall (self : SISSOModel.t R) (df : DataFrame)
         (d : SISSODescriptor.t) (ds : list SISSODescriptor.t)
         (c : R) (row : list R) (rows : list (list R)) (e : exn),
    SISSOModel.descriptors self = d :: ds ->
    SISSOModel.coefficients self = (c :: row) :: rows ->
    SISSODescriptor.evaluate d df = inl e ->
    SISSOModel.predict self df = inl e.
Proof.
  intros self df d ds c row rows e Hd Hc He.
  unfold SISSOModel.predict. rewrite Hd, Hc.
  unfold SISSODescriptor.enumerate.
  cbn [length seq combine foldM index nth_error bind ret].
  rewrite He. reflexivity.
Qed.

Lemma predict_propagates_evaluation_error_witness :
  SISSOModel.predict
    Sample.model
    {| index_length := 2;
       columns := [ (L "f1", [5; 1]%R); (L "f2", [2; 1]%R);
                    (L "f4", [1; 2]%R) ] |}
  = inl (KeyError (L "f3")).
Proof.
  apply (@predict_propagates_evaluation_error
           Sample.model _ Sample.descriptor [] 2%R [] [[3%R]]).
  - reflexivity.
  - reflexivity.
  - vm_compute. reflexivity.
Defined.

(* ------------------------------------------------------------------ *)
(** ** The parts of a parsed report *)

Module ReportFacts.

Lemma mapM_inr {A B} (f : A -> exc B) (l : list A) (ys : list B) :
  mapM f l = inr ys -> Forall2 (fun x y => f x = inr y) l ys.
Proof.
  revert ys. induction l as [| x l IH]; intros ys H; cbn [mapM] in H.
  - injection H as <-. constructor.
  - apply bind_inr in H as (y & Hy & H).
    apply bind_inr in H as (ys' & Hys & H).
    injection H as <-. constructor; [exact Hy | apply IH; exact Hys].
Qed.

Lemma iteration_model (F : Type) (float : str -> exc F) (string : str)
      (it : SISSOIteration.t F) :
  SISSOIteration.from_string float string = inr it ->
  SISSOModel.from_string float string = inr (SISSOIteration.sisso_model it)
  /\ SISSOIteration.iteration_number it
     = SISSOModel.dimension (SISSOIteration.sisso_model it).
Proof.
  intros H. unfold SISSOIteration.from_string in H.
  apply bind_inr in H as (m & Hm & H).
  repeat (apply bind_inr in H as (? & _ & H)).
  injection H as <-. split; [exact Hm | reflexivity].
Qed.

Lemma parse_report_inr (F : Type) (float : str -> exc F) (value : Type)
      (convert : SISSOParams.var_type -> str -> exc value)
      (string : str) (out : SISSOOut.t F value) :
  SISSOOut.parse_report float convert string = inr out ->
  SISSOParams.from_string convert string = inr (SISSOOut.params out)
  /\ mapM (SISSOIteration.from_string float)
          (Re.findall_dimension_blocks string)
     = inr (SISSOOut.iterations out)
  /\ (exists l1 l2 l3 rest,
         file_lines string = l1 :: l2 :: l3 :: rest
         /\ SISSOVersion.from_string l3 = inr (SISSOOut.version out))
  /\ exists m0 word,
      Re.search_line SISSOOut.r_total_time string = inr (Some m0)
      /\ index_last (split_ws m0) = inr word
      /\ float word = inr (SISSOOut.cpu_time out).
Proof.
  intros H. unfold SISSOOut.parse_report in H.
  apply bind_inr in H as (p & Hp & H).
  apply bind_inr in H as (its & Hits & H).
  apply bind_inr in H as (lines & Hl & H).
  apply bind_inr in H as (header & Hh & H).
  apply bind_inr in H as (v & Hv & H).
  apply bind_inr in H as (m & Hm & H).
  destruct m as [m0 |]; [| discriminate].
  apply bind_inr in H as (word & Hw & H).
  apply bind_inr in H as (x & Hx & H).
  injection H as <-.
  cbn [SISSOOut.params SISSOOut.iterations SISSOOut.version SISSOOut.cpu_time].
  split; [exact Hp |]. split; [exact Hits |]. split.
  - unfold SISSOOut.header_lines in Hl.
    destruct (file_lines string) as [| l1 [| l2 [| l3 rest]]];
      try discriminate.
    injection Hl as <-. cbn in Hh. injection Hh as <-.
    exists l1, l2, l3, rest. split; [reflexivity | exact Hv].
  - exists m0, word. split; [exact Hm |]. split; assumption.
Qed.

Lemma from_file_inr (F : Type) (float : str -> exc F) (value : Type)
      (convert : SISSOParams.var_type -> str -> exc value)
      (string : str) (flag : bool) (out : SISSOOut.t F value) :
  SISSOOut.from_file float convert string flag = inr out ->
  SISSOOut.parse_report float convert string = inr out.
Proof.
  unfold SISSOOut.from_file.
  destruct (negb (Re.search_literal SISSOOut.completion_phrase string)
            && negb flag); [discriminate | trivial].
Qed.

End ReportFacts.

(** X13: The current model is the last of the models of the run: [model]
    leaves by [IndexError] when [models] is empty and returns its last
    element otherwise; [models] has one model for every iteration. *)
Theorem model_is_last_of_models :
  forall (F value : Type) (self : SISSOOut.t F value),
    length (SISSOOut.models self) = length (SISSOOut.iterations self)
    /\ (SISSOOut.models self = [] -> SISSOOut.model self = inl IndexError)
    /\ (forall ms m,
           SISSOOut.models self = ms ++ [m] -> SISSOOut.model self = inr m).
Proof.
  intros F value self. unfold SISSOOut.models, SISSOOut.model.
  split; [apply length_map |]. split.
  - intros H. apply map_eq_nil in H. rewrite H. reflexivity.
  - intros ms m H. unfold index_last.
    assert (R : rev (map SISSOIteration.sisso_model (SISSOOut.iterations self))
                = m :: rev ms)
      by (rewrite H, rev_app_distr; reflexivity).
    rewrite <- map_rev in R.
    destruct (rev (SISSOOut.iterations self)) as [| it its];
      [discriminate |].
    cbn [map] in R. injection R as <- _. reflexivity.
Qed.

Lemma model_is_last_of_models_witness :
  SISSOOut.model
    (SISSOOut.Build
       (value := Sample.value) []
       [ SISSOIteration.Build 1 (SISSOModel.Build 1 [] [] [] None None)
                              [] 20 (3 # 100)%Q;
         SISSOIteration.Build 2 (SISSOModel.Build 2 [] [] [] None None)
                              [] 20 (5 # 100)%Q ]
       (SISSOVersion.Build [] []) (1 # 2)%Q)
  = inr (SISSOModel.Build 2 [] [] [] None None)
  /\ SISSOOut.model
       (SISSOOut.Build (F := Q) (value := Sample.value) []
                       [] (SISSOVersion.Build [] []) (1 # 2)%Q)
     = inl IndexError.
Proof.
  split.
  - apply (model_is_last_of_models
             (SISSOOut.Build
                (value := Sample.value) []
                [ SISSOIteration.Build 1 (SISSOModel.Build 1 [] [] [] None None)
                                       [] 20 (3 # 100)%Q;
                  SISSOIteration.Build 2 (SISSOModel.Build 2 [] [] [] None None)
                                       [] 20 (5 # 100)%Q ]
                (SISSOVersion.Build [] []) (1 # 2)%Q))
      with (ms := [SISSOModel.Build 1 [] [] [] None None]).
    reflexivity.
  - apply (model_is_last_of_models
             (SISSOOut.Build (F := Q) (value := Sample.value) []
                             [] (SISSOVersion.Build [] []) (1 # 2)%Q)).
    reflexivity.
Defined.

(** X14: A parsed report holds one model for every dimension block of the
    text, in the order of the blocks: the model at a place is the model
    parsed from the block at that place, and the number of the iteration
    is the dimension of its model. *)
Theorem report_models_follow_blocks :
  forall (F : Type) (float : str -> exc F) (value : Type)
         (convert : SISSOParams.var_type -> str -> exc value)
         (string : str) (flag : bool) (out : SISSOOut.t F value),
    SISSOOut.from_file float convert string flag = inr out ->
    length (SISSOOut.models out)
    = length (Re.findall_dimension_blocks string)
    /\ Forall2 (fun block m => SISSOModel.from_string float block = inr m)
               (Re.findall_dimension_blocks string) (SISSOOut.models out)
    /\ Forall (fun it => SISSOIteration.iteration_number it
                         = SISSOModel.dimension (SISSOIteration.sisso_model it))
              (SISSOOut.iterations out).
Proof.
  intros F float value convert string flag out H.
  apply ReportFacts.from_file_inr in H.
  apply ReportFacts.parse_report_inr in H as (_ & Hits & _).
  apply ReportFacts.mapM_inr in Hits.
  unfold SISSOOut.models.
  induction Hits as [| block it blocks its Hb _ IH]; cbn [map length].
  - repeat split; constructor.
  - destruct IH as (I1 & I2 & I3).
    apply ReportFacts.iteration_model in Hb as [Hm Hn].
    split; [rewrite I1; reflexivity |].
    split; constructor; assumption.
Qed.

Lemma report_models_follow_blocks_witness :
  exists out,
    SISSOOut.from_file Sample.float Sample.convert Sample.report false = inr out
    /\ length (SISSOOut.models out)
       = length (Re.findall_dimension_blocks Sample.report)
    /\ length (SISSOOut.models out) = 1.
Proof.
  destruct (SISSOOut.from_file Sample.float Sample.convert Sample.report false)
    as [e | out] eqn:E; [vm_compute in E; discriminate |].
  exists out. split; [reflexivity |].
  destruct (report_models_follow_blocks _ _ _ _ E) as (H1 & _).
  split; [exact H1 |]. rewrite H1. vm_compute. reflexivity.
Defined.

(** X15: A report without a line of the total time never parses, with or
    without the permission for unfinished runs: when the parameters and
    the iterations parse and the file has three lines, [from_file] with
    the permission leaves by [TypeError]. *)
Theorem report_without_total_time :
  forall (F : Type) (float : str -> exc F) (value : Type)
         (convert : SISSOParams.var_type -> str -> exc value)
         (string : str),
    Re.search_line SISSOOut.r_total_time string = inr None ->
    (forall flag out,
        SISSOOut.from_file float convert string flag <> inr out)
    /\ (forall p its l1 l2 l3 rest,
           SISSOParams.from_string convert string = inr p ->
           mapM (SISSOIteration.from_string float)
                (Re.findall_dimension_blocks string) = inr its ->
           file_lines string = l1 :: l2 :: l3 :: rest ->
           SISSOOut.from_file float convert string true = inl TypeError).
Proof.
  intros F float value convert string Hnone. split.
  - intros flag out H. apply ReportFacts.from_file_inr in H.
    apply ReportFacts.parse_report_inr in H as (_ & _ & _ & m0 & w & Hm & _).
    congruence.
  - intros p its l1 l2 l3 rest Hp Hits Hl.
    unfold SISSOOut.from_file. rewrite andb_false_r.
    unfold SISSOOut.parse_report, SISSOOut.header_lines.
    rewrite Hp. cbn [bind]. rewrite Hits. cbn [bind]. rewrite Hl.
    cbn [bind index nth_error ret].
    destruct (version_from_string_total l3) as (first & _ & ->).
    cbn [bind]. rewrite Hnone. reflexivity.
Qed.

Lemma report_without_total_time_witness :
  SISSOOut.from_file
    Sample.float Sample.convert
    (Sample.text (Sample.banner ++ Sample.parameters
                  ++ Sample.dimension_block [Sample.size_line]
                                            [Sample.time_line]))
    true
  = inl TypeError.
Proof.
  destruct (@report_without_total_time
              Q Sample.float Sample.value Sample.convert
              (Sample.text (Sample.banner ++ Sample.parameters
                            ++ Sample.dimension_block [Sample.size_line]
                                                      [Sample.time_line])))
    as [_ H].
  - vm_compute. reflexivity.
  - destruct (mapM (SISSOIteration.from_string Sample.float)
                   (Re.findall_dimension_blocks
                      (Sample.text (Sample.banner ++ Sample.parameters
                                    ++ Sample.dimension_block
                                         [Sample.size_line]
                                         [Sample.time_line]))))
      as [e | its] eqn:E; [vm_compute in E; discriminate |].
    eapply (H [] its); [vm_compute; reflexivity | reflexivity |].
    vm_compute. reflexivity.
Defined.

(** X16: A report that parses has three lines or more (one of fewer lines
    never parses): its version is read from the third line of the file,
    and the header kept is that line without the white space around. *)
Theorem report_needs_three_lines :
  forall (F : Type) (float : str -> exc F) (value : Type)
         (convert : SISSOParams.var_type -> str -> exc value)
         (string : str) (flag : bool) (out : SISSOOut.t F value),
    SISSOOut.from_file float convert string flag = inr out ->
    exists l1 l2 l3 rest,
      file_lines string = l1 :: l2 :: l3 :: rest
      /\ SISSOVersion.from_string l3 = inr (SISSOOut.version out)
      /\ SISSOVersion.header_string (SISSOOut.version out) = strip l3.
Proof.
  intros F float value convert string flag out H.
  apply ReportFacts.from_file_inr in H.
  apply ReportFacts.parse_report_inr in H
      as (_ & _ & (l1 & l2 & l3 & rest & Hl & Hv) & _).
  exists l1, l2, l3, rest. split; [exact Hl |]. split; [exact Hv |].
  destruct (version_from_string_total l3) as (first & _ & E).
  rewrite E in Hv. injection Hv as <-. reflexivity.
Qed.

Lemma report_needs_three_lines_witness :
  exists out l1 l2 rest,
    SISSOOut.from_file Sample.float Sample.convert Sample.report true = inr out
    /\ file_lines Sample.report
       = l1 :: l2 :: (L "  Version SISSO.3.0.2, June, 2020." ++ [newline])
            :: rest
    /\ SISSOVersion.header_string (SISSOOut.version out)
       = L "Version SISSO.3.0.2, June, 2020.".
Proof.
  destruct (SISSOOut.from_file Sample.float Sample.convert Sample.report true)
    as [e | out] eqn:E; [vm_compute in E; discriminate |].
  destruct (report_needs_three_lines _ _ _ _ E)
    as (l1 & l2 & l3 & rest & Hl & _ & Hh).
  exists out, l1, l2, rest. split; [reflexivity |].
  assert (E3 : l3 = L "  Version SISSO.3.0.2, June, 2020." ++ [newline]).
  { pose proof Hl as Hl'. vm_compute in Hl'. injection Hl' as _ _ E3 _.
    rewrite <- E3. vm_compute. reflexivity. }
  split; [rewrite Hl, E3; reflexivity |].
  rewrite Hh, E3. vm_compute. reflexivity.
Defined.

(* ------------------------------------------------------------------ *)
(** ** The fields that the parameters get *)

Module ParamsFacts.
Import SISSOParams.

Section Fields.
Variable value : Type.
Variable convert : var_type -> str -> exc value.
Variable string : str.

Lemma field_app_other (kw : t value) (k k' : str) (v : value) :
  k' <> k -> field (kw ++ [(k', v)]) k = field kw k.
Proof.
  intros Hne. unfold field. induction kw as [| [k0 v0] kw IH]; cbn [app find fst].
  - destruct (str_eqb k' k) eqn:E; [| reflexivity].
    apply OccurrenceFacts.str_eqb_eq in E. contradiction.
  - destruct (str_eqb k0 k); [reflexivity | exact IH].
Qed.

Lemma field_app_new (kw : t value) (k : str) (v : value) :
  field kw k = None -> field (kw ++ [(k, v)]) k = Some v.
Proof.
  unfold field. induction kw as [| [k0 v0] kw IH]; cbn [app find fst]; intros H.
  - assert (E : str_eqb k k = true)
      by (apply OccurrenceFacts.str_eqb_eq; reflexivity).
    rewrite E. reflexivity.
  - destruct (str_eqb k0 k); [discriminate | apply IH; exact H].
Qed.

(** A step of the loop sets no other field than its own. *)
Lemma step_other (kw kw' : t value) (entry : str * str * var_type) (k : str) :
  params_step convert string kw entry = inr kw' ->
  k <> fst (fst entry) ->
  field kw' k = field kw k.
Proof.
  destruct entry as [[cv label] ty]. cbn [fst]. intros H Hne.
  unfold params_step in H.
  destruct (str_eqb cv (L "dimension_types")).
  - destruct (Re.search_units string) as [m |].
    + apply bind_inr in H as (v & _ & H). injection H as <-.
      apply field_app_other. congruence.
    + injection H as <-. reflexivity.
  - apply bind_inr in H as (matches & _ & H).
    destruct (negb (length matches =? 1)).
    + apply bind_inr in H as (m0 & _ & H).
      apply bind_inr in H as (last & _ & H).
      apply bind_inr in H as (v & _ & H). injection H as <-.
      apply field_app_other. congruence.
    + injection H as <-. reflexivity.
Qed.

Lemma fold_other (entries : list (str * str * var_type)) (k : str) :
  ~ In k (map (fun e => fst (fst e)) entries) ->
  forall kw p,
    foldM (params_step convert string) entries kw = inr p ->
    field p k = field kw k.
Proof.
  induction entries as [| e entries IH]; intros Hn kw p H; cbn [foldM] in H.
  - injection H as <-. reflexivity.
  - apply bind_inr in H as (kw1 & H1 & H2).
    cbn [map In] in Hn.
    rewrite (IH ltac:(tauto) kw1 p H2).
    apply (step_other _ _ H1). intros E. apply Hn. left. symmetry. exact E.
Qed.

(** The step of a field other than the units, when it returns. *)
Lemma step_self (kw kw' : t value) (cv label : str) (ty : var_type) :
  In (cv, label, ty) PARAMS ->
  cv <> L "dimension_types" ->
  field kw cv = None ->
  params_step convert string kw (cv, label, ty) = inr kw' ->
  exists matches,
    Re.findall_line label string = inr matches
    /\ matches <> []
    /\ (length matches = 1 -> field kw' cv = None)
    /\ (2 <= length matches ->
        exists m0 last v,
          hd_error matches = Some m0
          /\ index_last (split_ws m0) = inr last
          /\ convert ty last = inr v
          /\ field kw' cv = Some v).
Proof.
  intros Hin Hne Hnone H.
  destruct (@params_step_by_match_count value convert cv label ty string kw
              Hin Hne) as (matches & Hm & Hs).
  rewrite Hs in H. exists matches. split; [exact Hm |].
  destruct matches as [| m0 [| m1 ms]].
  - discriminate.
  - injection H as <-. split; [discriminate |]. split.
    + intros _. exact Hnone.
    + cbn [length]. lia.
  - split; [discriminate |]. split; [cbn [length]; lia |]. intros _.
    apply bind_inr in H as (last & Hl & H).
    apply bind_inr in H as (v & Hv & H). injection H as <-.
    exists m0, last, v. split; [reflexivity |]. split; [exact Hl |].
    split; [exact Hv |]. apply field_app_new. exact Hnone.
Qed.

End Fields.

Lemma params_names_differ : NoDup (map (fun e => fst (fst e)) PARAMS).
Proof.
  repeat constructor;
    cbn [map fst PARAMS In]; intros H;
    repeat (destruct H as [H | H]; [vm_compute in H; discriminate |]);
    exact H.
Qed.

End ParamsFacts.

(** X17: The parameters of a report that parses: every label other than the
    units matches at least one line of the text (a text that lacks a
    label never parses); the field of a label that matches one line
    stays unset; the field of a label that matches two lines or more
    holds the converted last word of the first of them. *)
Theorem params_fields_by_match_count :
  forall (value : Type) (convert : SISSOParams.var_type -> str -> exc value)
         (string : str) (p : SISSOParams.t value),
    SISSOParams.from_string convert string = inr p ->
    forall class_var label ty,
      In (class_var, label, ty) SISSOParams.PARAMS ->
      class_var <> L "dimension_types" ->
      exists matches,
        Re.findall_line label string = inr matches
        /\ matches <> []
        /\ (length matches = 1 -> SISSOParams.field p class_var = None)
        /\ (2 <= length matches ->
            exists m0 last v,
              hd_error matches = Some m0
              /\ index_last (split_ws m0) = inr last
              /\ convert ty last = inr v
              /\ SISSOParams.field p class_var = Some v).
Proof.
  intros value convert string p H cv label ty Hin Hne.
  destruct (in_split _ _ Hin) as (pre & post & E).
  pose proof ParamsFacts.params_names_differ as Hnd.
  unfold SISSOParams.from_string in H. rewrite E in H, Hnd.
  rewrite foldM_app in H. apply bind_inr in H as (kw1 & H1 & H).
  cbn [foldM] in H. apply bind_inr in H as (kw2 & H2 & H3).
  rewrite map_app in Hnd. cbn [map fst] in Hnd.
  pose proof (NoDup_remove_2 _ _ _ Hnd) as Hnot.
  assert (Hpre : ~ In cv (map (fun e => fst (fst e)) pre))
    by (intros A; apply Hnot; apply in_or_app; left; exact A).
  assert (Hpost : ~ In cv (map (fun e => fst (fst e)) post))
    by (intros A; apply Hnot; apply in_or_app; right; exact A).
  assert (Hnone : SISSOParams.field kw1 cv = None)
    by (rewrite (@ParamsFacts.fold_other _ convert string pre cv Hpre [] kw1 H1);
        reflexivity).
  destruct (@ParamsFacts.step_self _ convert string kw1 kw2 cv label ty Hin Hne Hnone H2)
    as (matches & Hm & Hnil & Hone & Htwo).
  exists matches. split; [exact Hm |]. split; [exact Hnil |].
  rewrite (@ParamsFacts.fold_other _ convert string post cv Hpost kw2 p H3).
  split; assumption.
Qed.

Lemma params_fields_by_match_count_witness :
  exists p matches,
    SISSOParams.from_string Sample.convert Sample.report = inr p
    /\ Re.findall_line (L "Number of tasks:") Sample.report = inr matches
    /\ length matches = 1
    /\ SISSOParams.field p (L "total_number_properties") = None.
Proof.
  destruct (SISSOParams.from_string Sample.convert Sample.report)
    as [e | p] eqn:E; [vm_compute in E; discriminate |].
  destruct (@params_fields_by_match_count
              _ _ _ _ E (L "total_number_properties") (L "Number of tasks:")
              SISSOParams.T_int)
    as (matches & Hm & _ & Hone & _).
  - right. left. reflexivity.
  - discriminate.
  - exists p, matches. split; [reflexivity |]. split; [exact Hm |].
    assert (Hl : length matches = 1).
    { pose proof Hm as Hm'. vm_compute in Hm'. injection Hm' as <-.
      reflexivity. }
    split; [exact Hl | exact (Hone Hl)].
Defined.

(** X18: The units of the primary features, the one field read with
    [re.search]: in a report that parses the field stays unset when no
    line of the text is a row of numbers, and holds the converted rows
    of the first run of such lines otherwise. *)
Theorem params_units_field :
  forall (value : Type) (convert : SISSOParams.var_type -> str -> exc value)
         (string : str) (p : SISSOParams.t value),
    SISSOParams.from_string convert string = inr p ->
    match Re.search_units string with
    | None => SISSOParams.field p (L "dimension_types") = None
    | Some m =>
        exists v,
          convert SISSOParams.T_matrix_of_floats m = inr v
          /\ SISSOParams.field p (L "dimension_types") = Some v
    end.
Proof.
  intros value convert string p H.
  pose proof ParamsFacts.params_names_differ as Hnd.
  assert (E : SISSOParams.PARAMS
              = firstn 7 SISSOParams.PARAMS
                  ++ (L "dimension_types",
                      L "Units of the input primary features (each represented by a vector):",
                      SISSOParams.T_matrix_of_floats)
                  :: skipn 8 SISSOParams.PARAMS) by reflexivity.
  set (pre := firstn 7 SISSOParams.PARAMS) in E.
  set (post := skipn 8 SISSOParams.PARAMS) in E.
  clearbody pre post.
  unfold SISSOParams.from_string in H. rewrite E in H, Hnd.
  rewrite foldM_app in H. apply bind_inr in H as (kw1 & H1 & H).
  cbn [foldM] in H. apply bind_inr in H as (kw2 & H2 & H3).
  rewrite map_app in Hnd. cbn [map fst] in Hnd.
  pose proof (NoDup_remove_2 _ _ _ Hnd) as Hnot.
  assert (Hpre : ~ In (L "dimension_types") (map (fun e => fst (fst e)) pre))
    by (intros A; apply Hnot; apply in_or_app; left; exact A).
  assert (Hpost : ~ In (L "dimension_types") (map (fun e => fst (fst e)) post))
    by (intros A; apply Hnot; apply in_or_app; right; exact A).
  assert (Hnone : SISSOParams.field kw1 (L "dimension_types") = None)
    by (rewrite (@ParamsFacts.fold_other _ convert string pre _ Hpre [] kw1 H1);
        reflexivity).
  rewrite (@ParamsFacts.fold_other _ convert string post _ Hpost kw2 p H3).
  unfold SISSOParams.params_step in H2.
  change (str_eqb (L "dimension_types") (L "dimension_types")) with true in H2.
  cbv iota in H2.
  destruct (Re.search_units string) as [m |].
  - apply bind_inr in H2 as (v & Hv & H2). injection H2 as <-.
    exists v. split; [exact Hv |]. apply ParamsFacts.field_app_new. exact Hnone.
  - injection H2 as <-. exact Hnone.
Qed.

Lemma params_units_field_witness :
  exists p,
    SISSOParams.from_string Sample.convert Sample.report = inr p
    /\ Re.search_units Sample.report = None
    /\ SISSOParams.field p (L "dimension_types") = None.
Proof.
  destruct (SISSOParams.from_string Sample.convert Sample.report)
    as [e | p] eqn:E; [vm_compute in E; discriminate |].
  exists p. split; [reflexivity |].
  pose proof (params_units_field _ _ E) as H.
  assert (U : Re.search_units Sample.report = None)
    by (vm_compute; reflexivity).
  rewrite U in H. split; [exact U | exact H].
Defined.

(* ------------------------------------------------------------------ *)
(** ** The feature space read from a file *)

Module SpaceFacts.
Import FeatureSpace.

Lemma nth_error_combine_seq {A} (l : list A) (k i : nat) (a : A) :
  nth_error l i = Some a ->
  nth_error (combine (seq k (length l)) l) i = Some (k + i, a).
Proof.
  revert k i. induction l as [| x l IH]; intros k i H.
  - destruct i; discriminate.
  - cbn [length seq combine]. destruct i as [| i]; cbn [nth_error] in *.
    + injection H as <-. rewrite Nat.add_0_r. reflexivity.
    + rewrite (IH (S k) i H). f_equal. f_equal. lia.
Qed.

Lemma fold_inr (pairs : list (nat * str)) :
  forall acc ds,
    foldM append_descriptor pairs acc = inr ds ->
    exists new,
      ds = acc ++ new
      /\ Forall2 (fun nl d =>
                    exists word,
                      index (split_ws (snd nl)) 0 = inr word
                      /\ SISSODescriptor.__init__ (Z.of_nat (fst nl)) word
                         = inr d)
                 pairs new.
Proof.
  induction pairs as [| [num line] pairs IH]; intros acc ds H; cbn [foldM] in H.
  - injection H as <-. exists []. rewrite app_nil_r. split; constructor.
  - apply bind_inr in H as (acc1 & H1 & H2).
    unfold append_descriptor in H1.
    apply bind_inr in H1 as (word & Hw & H1).
    apply bind_inr in H1 as (d & Hd & H1). injection H1 as <-.
    destruct (IH _ _ H2) as (new & -> & Hnew).
    exists (d :: new). rewrite <- app_assoc. split; [reflexivity |].
    constructor; [| exact Hnew]. exists word. split; assumption.
Qed.

Lemma fold_terms (lines : list str) (terms : list Formula.t) :
  Forall2 (fun line e =>
             index (split_ws line) 0 = inr (Formula.write e)
             /\ Formula.wrapped e = true /\ Formula.names_ok e)
          lines terms ->
  forall k acc,
    foldM append_descriptor (combine (seq k (length lines)) lines) acc
    = inr (acc ++ map (fun ie =>
                         {| SISSODescriptor.descriptor_id := Z.of_nat (fst ie);
                            SISSODescriptor.descriptor_string :=
                              Formula.write (snd ie);
                            SISSODescriptor.self_evalstring :=
                              Decoded.py_write (snd ie) |})
                      (combine (seq k (length terms)) terms)).
Proof.
  induction 1 as [| line e lines terms (Hw & Hwr & Hn) _ IH]; intros k acc.
  - cbn. rewrite app_nil_r. reflexivity.
  - cbn [length seq combine foldM map fst snd].
    unfold append_descriptor at 1. rewrite Hw. cbn [bind].
    destruct (@RebuildFacts.decode_write e Hwr Hn) as [inputs Hd].
    unfold SISSODescriptor.__init__. rewrite Hd.
    cbn [bind ret SISSODescriptor.evalstring].
    rewrite IH, <- app_assoc. reflexivity.
Qed.

Lemma fold_decoded (pre : list str) :
  Forall (fun l => exists w d,
              index (split_ws l) 0 = inr w
              /\ SISSODescriptor._decode_function w = inr d) pre ->
  forall k acc,
    exists ds,
      foldM append_descriptor (combine (seq k (length pre)) pre) acc = inr ds.
Proof.
  induction 1 as [| line pre (w & d & Hw & Hd) _ IH]; intros k acc.
  - exists acc. reflexivity.
  - cbn [length seq combine foldM].
    unfold append_descriptor at 1. rewrite Hw. cbn [bind].
    unfold SISSODescriptor.__init__. rewrite Hd. cbn [bind ret].
    apply IH.
Qed.

End SpaceFacts.

(** X19: A feature space that is built: there was a file at the path, and
    the space holds one descriptor for every line of the file, in the
    order of the lines; the descriptor of a line is numbered by the
    place of the line, from 0, and its notation is the first word of the
    line. *)
Theorem feature_space_numbers_lines :
  forall (file : option str) (fs : FeatureSpace.t),
    FeatureSpace.__init__ file = inr fs ->
    exists content,
      file = Some content
      /\ length (FeatureSpace.__iter__ fs) = length (file_lines content)
      /\ forall i line,
          nth_error (file_lines content) i = Some line ->
          exists d,
            nth_error (FeatureSpace.__iter__ fs) i = Some d
            /\ SISSODescriptor.descriptor_id d = Z.of_nat i
            /\ index (split_ws line) 0
               = inr (SISSODescriptor.descriptor_string d)
            /\ SISSODescriptor.__init__
                 (Z.of_nat i) (SISSODescriptor.descriptor_string d)
               = inr d.
Proof.
  intros file fs H. destruct file as [content |]; [| discriminate].
  exists content. split; [reflexivity |].
  unfold FeatureSpace.__init__ in H.
  destruct (foldM FeatureSpace.append_descriptor
                  (SISSODescriptor.enumerate (file_lines content)) [])
    as [e | ds] eqn:E; [discriminate |].
  injection H as <-. unfold FeatureSpace.__iter__.
  cbn [FeatureSpace.descriptors].
  apply SpaceFacts.fold_inr in E as (new & -> & Hnew). cbn [app].
  split.
  - rewrite <- (Forall2_length Hnew). unfold SISSODescriptor.enumerate.
    rewrite length_combine, length_seq. lia.
  - intros i line Hi.
    pose proof (SpaceFacts.nth_error_combine_seq _ 0 _ Hi) as Hp.
    destruct (@Forall2_nth_error _ _ _ _ _ i _ Hnew Hp)
      as (d & Hd & word & Hw & Hinit).
    cbn [fst snd Nat.add] in Hw, Hinit.
    exists d. split; [exact Hd |].
    pose proof Hinit as Hinit'.
    unfold SISSODescriptor.__init__ in Hinit'.
    apply bind_inr in Hinit' as (dec & _ & Hinit'). injection Hinit' as <-.
    cbn [SISSODescriptor.descriptor_id SISSODescriptor.descriptor_string].
    split; [reflexivity |]. split; [exact Hw | exact Hinit].
Qed.

Lemma feature_space_numbers_lines_witness :
  exists fs d0 d1,
    FeatureSpace.__init__
      (Some (Sample.text ["(f1+f2)  corr=0.9912"%string;
                          "((f1-f2)*f3)  corr=0.8711"%string]))
    = inr fs
    /\ FeatureSpace.__iter__ fs = [d0; d1]
    /\ SISSODescriptor.descriptor_id d0 = 0%Z
    /\ SISSODescriptor.descriptor_id d1 = 1%Z
    /\ SISSODescriptor.descriptor_string d1 = L "((f1-f2)*f3)".
Proof.
  destruct (FeatureSpace.__init__
              (Some (Sample.text ["(f1+f2)  corr=0.9912"%string;
                                  "((f1-f2)*f3)  corr=0.8711"%string])))
    as [e | fs] eqn:E; [vm_compute in E; discriminate |].
  destruct (feature_space_numbers_lines _ E) as (content & Hc & Hlen & Hl).
  injection Hc as <-.
  destruct (Hl 0 _ eq_refl) as (d0 & H0 & I0 & _).
  destruct (Hl 1 _ eq_refl) as (d1 & H1 & I1 & W1 & _).
  exists fs, d0, d1. split; [reflexivity |].
  split.
  - assert (Hlen2 : length (FeatureSpace.__iter__ fs) = 2)
      by (rewrite Hlen; vm_compute; reflexivity).
    destruct (FeatureSpace.__iter__ fs) as [| x0 [| x1 [| x2 l]]];
      try discriminate.
    cbn [nth_error] in H0, H1.
    injection H0 as ->. injection H1 as ->. reflexivity.
  - split; [exact I0 |]. split; [exact I1 |].
    vm_compute in W1. injection W1 as W1. symmetry. exact W1.
Defined.

(** X20: The feature space of a file of terms: when the first word of every
    line is the notation string of a term, the space holds, for the line
    at the place [i], the descriptor numbered [i] with that notation
    string and the decoded string of the term. *)
Theorem feature_space_of_terms :
  forall (content : str) (terms : list Formula.t),
    Forall2 (fun line e =>
               index (split_ws line) 0 = inr (Formula.write e)
               /\ Formula.wrapped e = true /\ Formula.names_ok e)
            (file_lines content) terms ->
    FeatureSpace.__init__ (Some content)
    = inr (FeatureSpace.Build
             (map (fun ie =>
                     {| SISSODescriptor.descriptor_id := Z.of_nat (fst ie);
                        SISSODescriptor.descriptor_string :=
                          Formula.write (snd ie);
                        SISSODescriptor.self_evalstring :=
                          Decoded.py_write (snd ie) |})
                  (SISSODescriptor.enumerate terms))).
Proof.
  intros content terms H. unfold FeatureSpace.__init__.
  unfold SISSODescriptor.enumerate.
  rewrite (SpaceFacts.fold_terms H 0 []). reflexivity.
Qed.

Lemma feature_space_of_terms_witness :
  FeatureSpace.__init__
    (Some (Sample.text ["((f1-f2)+(f3-f4))  corr=0.9912"%string]))
  = inr (FeatureSpace.Build
           [ {| SISSODescriptor.descriptor_id := 0;
                SISSODescriptor.descriptor_string := L "((f1-f2)+(f3-f4))";
                SISSODescriptor.self_evalstring :=
                  L "((df['f1']-df['f2'])+(df['f3']-df['f4']))" |} ]).
Proof.
  apply (@feature_space_of_terms
           (Sample.text ["((f1-f2)+(f3-f4))  corr=0.9912"%string])
           [Sample.term]).
  repeat constructor; discriminate.
Defined.

(** X21: The first line that cannot be read stops the constructor: when the
    lines before it decode, the exception of its first word (the
    [IndexError] of a blank line, or the exception of the decoder)
    leaves the constructor; and without a file at the path the
    constructor leaves by [NameError] and builds no empty space. *)
Theorem feature_space_first_failure :
  forall (content : str) (pre post : list str) (line : str) (e : exn),
    file_lines content = pre ++ line :: post ->
    Forall (fun l => exists w d,
                index (split_ws l) 0 = inr w
                /\ SISSODescriptor._decode_function w = inr d) pre ->
    (w <- index (split_ws line) 0 ;; SISSODescriptor._decode_function w)
    = inl e ->
    FeatureSpace.__init__ (Some content) = inl (FeatureSpace.Exn e)
    /\ FeatureSpace.__init__ None
       = inl (FeatureSpace.NameError (L "warnings")).
Proof.
  intros content pre post line e Hl Hpre He.
  split; [| reflexivity].
  unfold FeatureSpace.__init__, SISSODescriptor.enumerate. rewrite Hl.
  change (line :: post) with ([line] ++ post).
  rewrite ScanFacts.combine_seq_app, foldM_app.
  destruct (SpaceFacts.fold_decoded Hpre 0 []) as [ds ->].
  cbn [bind]. rewrite ScanFacts.combine_seq_app, foldM_app.
  cbn [length seq combine foldM].
  unfold FeatureSpace.append_descriptor at 1.
  destruct (index (split_ws line) 0) as [e' | w]; cbn [bind] in *.
  - injection He as <-. reflexivity.
  - unfold SISSODescriptor.__init__. rewrite He. reflexivity.
Qed.

Lemma feature_space_first_failure_witness :
  FeatureSpace.__init__
    (Some (Sample.text ["(f1+f2)  corr=0.9912"%string; ""%string;
                        "(f1*f2)  corr=0.8711"%string]))
  = inl (FeatureSpace.Exn IndexError)
  /\ FeatureSpace.__init__
       (Some (Sample.text ["(f1+f2)  corr=0.9912"%string;
                           "f3  corr=0.8711"%string]))
     = inl (FeatureSpace.Exn (ValueError (MsgStartEnd (L "f3")))).
Proof.
  split.
  - apply (@feature_space_first_failure
             (Sample.text ["(f1+f2)  corr=0.9912"%string; ""%string;
                           "(f1*f2)  corr=0.8711"%string])
             [L "(f1+f2)  corr=0.9912" ++ [newline]]
             [L "(f1*f2)  corr=0.8711" ++ [newline]]
             [newline] IndexError).
    + reflexivity.
    + constructor; [| constructor]. eexists _, _.
      split; vm_compute; reflexivity.
    + reflexivity.
  - apply (@feature_space_first_failure
             (Sample.text ["(f1+f2)  corr=0.9912"%string;
                           "f3  corr=0.8711"%string])
             [L "(f1+f2)  corr=0.9912" ++ [newline]]
             []
             (L "f3  corr=0.8711" ++ [newline])
             (ValueError (MsgStartEnd (L "f3")))).
    + reflexivity.
    + constructor; [| constructor]. eexists _, _.
      split; vm_compute; reflexivity.
    + vm_compute. reflexivity.
Defined.

(* ------------------------------------------------------------------ *)
(** ** The range of the standard Cauchy distribution *)

(** X22: The density is never negative and is greatest at 0, where it
    is [1 / pi]. *)
Theorem scd_range :
  forall x : R, (0 <= scd x)%R /\ (scd x <= scd 0)%R.
Proof.
  intros x. pose proof PI_RGT_0 as Hpi.
  assert (Hx : (0 <= x * x)%R) by nra.
  assert (Hd : (0 < PI * (1 + x * x))%R) by nra.
  assert (H0 : (0 < PI * (1 + 0 * 0))%R) by nra.
  unfold scd, Rdiv. rewrite !Rmult_1_l. split.
  - apply Rlt_le. apply Rinv_0_lt_compat. exact Hd.
  - apply Rinv_le_contravar; [exact H0 | nra].
Qed.
